(** * Incentive analysis engine: cache, validation, evaluators, orchestrator

    A shallow embedding of the JavaScript sources of the analysis engine
    and the properties stated for it.

    Conventions.
    - A JavaScript [Map] is an association list in insertion order: the
      order is what the cache uses as its recency order.
    - [Date.now()] is an integer number of milliseconds ([Z]); a method
      reads the clock once per call and receives that reading as [now].
    - JavaScript numbers that carry money or ratios are rationals ([Q]),
      each standing for the exact value of a finite number;
      [Math.round] and [Math.floor] go to [Z].  Arithmetic is exact,
      except in [assessSBA504Eligibility], [calculateSBA504Payments],
      [calculateNMTCValue] and the running total of tax credits in
      [calculateWithIncentives]: there the products with [0.10],
      [0.20], [0.39] and [0.40] and the sums of credits are rounded as
      binary64 rounds them ([Binary64.round]), because the owner-equity
      check, the shares of a project and the size of the credits depend
      on that rounding.
    - A JavaScript string that is inspected character by character is a
      list of UTF-16 code units ([N]); object and map keys, which the code
      only compares, are [string]s. *)

From Stdlib Require Import List String Ascii Bool Arith ZArith NArith QArith Qround.
From Stdlib Require Import Qpower Lia Lqa Permutation Sorted.
From Corelib Require PrimFloat FloatOps SpecFloat.
Import ListNotations.

Set Implicit Arguments.
Set Warnings "-inexact-float".

(* ================================================================== *)
(** ** src/services/utils/cache.js *)
(* ================================================================== *)

Module Cache.

(** What [get] hands back: [null] or a stored value.  A stored value may
    itself be [null]. *)
Inductive jsval (A : Type) : Type :=
| JNull
| JVal (a : A).
Arguments JNull {A}.
Arguments JVal {A} a.

Definition is_null {A} (v : jsval A) : bool :=
  match v with JNull => true | JVal _ => false end.

Section Store.
Context {A : Type}.

(** The object literal [{ value, expiresAt, createdAt }]. *)
Record item : Type := mkItem {
  value : jsval A;
  expiresAt : Z;
  createdAt : Z
}.

(** [this.cache], a [Map] from keys to items, oldest insertion first. *)
Definition store : Type := list (string * item).

Definition keys (m : store) : list string := map fst m.

(** [Map.prototype.get]. *)
Fixpoint map_get (k : string) (m : store) : option item :=
  match m with
  | [] => None
  | (k', it) :: r => if String.eqb k k' then Some it else map_get k r
  end.

(** [Map.prototype.has]. *)
Definition map_has (k : string) (m : store) : bool :=
  match map_get k m with Some _ => true | None => false end.

(** [Map.prototype.delete]: the binding of [k] goes, the others keep
    their order. *)
Fixpoint map_delete (k : string) (m : store) : store :=
  match m with
  | [] => []
  | (k', it) :: r =>
      if String.eqb k k' then map_delete k r else (k', it) :: map_delete k r
  end.

(** [Map.prototype.set]: an existing key keeps its position and gets the
    new item, a new key goes to the end. *)
Fixpoint map_set (k : string) (it : item) (m : store) : store :=
  match m with
  | [] => [(k, it)]
  | (k', it') :: r =>
      if String.eqb k k' then (k, it) :: r else (k', it') :: map_set k it r
  end.

(** The fields of a [CacheManager] instance. *)
Record CacheManager : Type := mkCache {
  cache : store;
  defaultTTL : Z;
  maxSize : nat
}.

(** [constructor()]. *)
Definition new_CacheManager : CacheManager :=
  mkCache [] (5 * 60 * 1000) 1000.

Definition with_cache (c : CacheManager) (m : store) : CacheManager :=
  mkCache m (defaultTTL c) (maxSize c).

(** [const firstKey = this.cache.keys().next().value;
     this.cache.delete(firstKey);]
    On an empty map [firstKey] is [undefined] and nothing is deleted. *)
Definition evict_first (m : store) : store :=
  match m with
  | [] => []
  | (k, _) :: _ => map_delete k m
  end.

(** [set(key, value, ttl = this.defaultTTL)]; [None] is an omitted [ttl].
    The source reads the clock a second time for [createdAt]; no method
    reads [createdAt], and the model gives it the same reading. *)
Definition set (c : CacheManager) (key : string) (v : jsval A)
    (ttl : option Z) (now : Z) : CacheManager :=
  let ttl := match ttl with Some t => t | None => defaultTTL c end in
  let m := if (maxSize c <=? List.length (cache c))%nat
           then evict_first (cache c) else cache c in
  let expires := (now + ttl)%Z in
  with_cache c (map_set key (mkItem v expires now) m).

(** [get(key)]: the returned value and the cache afterwards. *)
Definition get (c : CacheManager) (key : string) (now : Z)
    : jsval A * CacheManager :=
  match map_get key (cache c) with
  | None => (JNull, c)
  | Some it =>
      if (expiresAt it <? now)%Z
      then (JNull, with_cache c (map_delete key (cache c)))
      else (value it,
            with_cache c (map_set key it (map_delete key (cache c))))
  end.

(** [has(key) { return this.get(key) !== null; }] *)
Definition has (c : CacheManager) (key : string) (now : Z)
    : bool * CacheManager :=
  let (r, c') := get c key now in (negb (is_null r), c').

(** [delete(key) { return this.cache.delete(key); }] *)
Definition delete (c : CacheManager) (key : string) : bool * CacheManager :=
  (map_has key (cache c), with_cache c (map_delete key (cache c))).

(** [clear() { this.cache.clear(); }] *)
Definition clear (c : CacheManager) : CacheManager := with_cache c [].

(** [size()]. *)
Definition size (c : CacheManager) : nat := List.length (cache c).

(** [cleanup()]: the number of removed items and the cache afterwards. *)
Definition cleanup (c : CacheManager) (now : Z) : nat * CacheManager :=
  let keysToDelete :=
    keys (filter (fun p => (expiresAt (snd p) <? now)%Z) (cache c)) in
  (List.length keysToDelete,
   with_cache c (fold_left (fun m k => map_delete k m) keysToDelete (cache c))).

(** The object returned by [getStats]; [hitRate] is [this.hitRate || 0],
    and no method assigns [this.hitRate]. *)
Record stats : Type := mkStats {
  totalItems : nat;
  activeItems : nat;
  expiredItems : nat;
  hitRate : Z;
  stats_maxSize : nat
}.

(** One turn of the loop of [getStats] on the counters
    [(expired, active)]. *)
Definition count_item (now : Z) (acc : nat * nat) (e : string * item)
    : nat * nat :=
  let (expired, active) := acc in
  if (expiresAt (snd e) <? now)%Z then (S expired, active)
  else (expired, S active).

(** [getStats()]. *)
Definition getStats (c : CacheManager) (now : Z) : stats :=
  let (expired, active) := fold_left (count_item now) (cache c) (0, 0)%nat in
  mkStats (List.length (cache c)) active expired 0%Z (maxSize c).

(** *** Access patterns: sequences of calls, each with its clock reading *)

Inductive op : Type :=
| OpSet (key : string) (v : jsval A) (ttl : option Z)
| OpGet (key : string)
| OpHas (key : string)
| OpDelete (key : string)
| OpClear
| OpCleanup.

Definition step (c : CacheManager) (e : Z * op) : CacheManager :=
  let (now, o) := e in
  match o with
  | OpSet k v ttl => set c k v ttl now
  | OpGet k => snd (get c k now)
  | OpHas k => snd (has c k now)
  | OpDelete k => snd (delete c k)
  | OpClear => clear c
  | OpCleanup => snd (cleanup c now)
  end.

Definition run (c : CacheManager) (tr : list (Z * op)) : CacheManager :=
  fold_left step tr c.

(** The effective time to live of a [set]. *)
Definition effective_ttl (dflt : Z) (ttl : option Z) : Z :=
  match ttl with Some t => t | None => dflt end.

(** A binding is justified by a history when one of its [set] calls, for
    that key and value, gave it its expiry. *)
Definition justified (dflt : Z) (hist : list (Z * op))
    (e : string * item) : Prop :=
  exists ts ttl,
    In (ts, OpSet (fst e) (value (snd e)) ttl) hist
    /\ expiresAt (snd e) = (ts + effective_ttl dflt ttl)%Z.

(** The binding is past its expiry at the clock reading [now]. *)
Definition expired (now : Z) (e : string * item) : bool :=
  (expiresAt (snd e) <? now)%Z.

(** The store is within its capacity, with every key bound once. *)
Definition within_capacity (c : CacheManager) : Prop :=
  NoDup (keys (cache c)) /\ (List.length (cache c) <= maxSize c)%nat
  /\ (0 < maxSize c)%nat.

End Store.
Arguments item A : clear implicits.
Arguments store A : clear implicits.
Arguments CacheManager A : clear implicits.
Arguments op A : clear implicits.

End Cache.

(* ================================================================== *)
(** ** src/services/errors/index.js *)
(* ================================================================== *)

Module Errors.

(** An [Error] object as the engine reads it: [error.name] and
    [error.message]. *)
Record JsError : Type := mkError {
  name : string;
  message : string
}.

Definition ValidationError (msg : string) : JsError :=
  mkError "ValidationError" msg.

Definition APIError (msg : string) : JsError := mkError "APIError" msg.

(** [new Error(msg)]. *)
Definition PlainError (msg : string) : JsError := mkError "Error" msg.

End Errors.

(* ================================================================== *)
(** ** src/services/utils/validation.js *)
(* ================================================================== *)

Module Validation.
Import Errors.

(** A string as a list of UTF-16 code units. *)
Definition jsstring : Type := list N.

(** A literal of the source as code units. *)
Definition str (s : string) : jsstring :=
  map N_of_ascii (list_ascii_of_string s).

Local Open Scope N_scope.

(** The code units of [WhiteSpace] and [LineTerminator]: what [trim]
    strips and what [\s] matches. *)
Definition is_space (c : N) : bool :=
  ((9 <=? c) && (c <=? 13)) || (c =? 32) || (c =? 160) || (c =? 5760)
  || ((8192 <=? c) && (c <=? 8202)) || (c =? 8232) || (c =? 8233)
  || (c =? 8239) || (c =? 8287) || (c =? 12288) || (c =? 65279).

(** [\d]. *)
Definition is_digit (c : N) : bool := (48 <=? c) && (c <=? 57).

(** [[a-zA-Z]]. *)
Definition is_alpha (c : N) : bool :=
  ((65 <=? c) && (c <=? 90)) || ((97 <=? c) && (c <=? 122)).

(** [\w], the class behind [\b]. *)
Definition is_word (c : N) : bool := is_alpha c || is_digit c || (c =? 95).

(** Leading white space removed. *)
Fixpoint trimStart (s : jsstring) : jsstring :=
  match s with
  | [] => []
  | c :: r => if is_space c then trimStart r else s
  end.

Definition trimEnd (s : jsstring) : jsstring := rev (trimStart (rev s)).

(** [String.prototype.trim]. *)
Definition trim (s : jsstring) : jsstring := trimEnd (trimStart s).

(** [.replace(/\s+/g, ' ')]: every maximal run of white space becomes one
    space.  [in_run] says that the previous code unit was white space, so
    that the run's space has been written already. *)
Fixpoint collapse_from (in_run : bool) (s : jsstring) : jsstring :=
  match s with
  | [] => []
  | c :: r =>
      if is_space c
      then (if in_run then collapse_from true r
            else 32 :: collapse_from true r)
      else c :: collapse_from false r
  end.

Definition collapse (s : jsstring) : jsstring := collapse_from false s.

(** The alternatives of the suffix pattern, in the order of the source. *)
Definition alternatives : list jsstring :=
  map str ["street"; "st"; "avenue"; "ave"; "boulevard"; "blvd"; "road";
           "rd"; "drive"; "dr"; "lane"; "ln"; "court"; "ct"; "place";
           "pl"]%string.

(** [abbrevMap]. *)
Definition abbrevMap : list (jsstring * jsstring) :=
  [ (str "street", str "St"); (str "avenue", str "Ave");
    (str "boulevard", str "Blvd"); (str "road", str "Rd");
    (str "drive", str "Dr"); (str "lane", str "Ln");
    (str "court", str "Ct"); (str "place", str "Pl") ].

(** Case folding of the [i] flag.  Without the [u] flag a code unit above
    127 never folds to an ASCII one, and the pattern is ASCII letters
    only, so folding the ASCII letters decides every comparison. *)
Definition canonicalize (c : N) : N :=
  if (97 <=? c) && (c <=? 122) then c - 32 else c.

(** [toLowerCase] on a match, which holds ASCII letters only. *)
Definition toLowerCase (s : jsstring) : jsstring :=
  map (fun c => if (65 <=? c) && (c <=? 90) then c + 32 else c) s.

Definition jsstring_eqb (a b : jsstring) : bool :=
  if list_eq_dec N.eq_dec a b then true else false.

Fixpoint lookup (k : jsstring) (m : list (jsstring * jsstring))
    : option jsstring :=
  match m with
  | [] => None
  | (k', v) :: r => if jsstring_eqb k k' then Some v else lookup k r
  end.

(** The replacement callback:
    [abbrevMap[match.toLowerCase()] || match]. *)
Definition abbreviate (m : jsstring) : jsstring :=
  match lookup (toLowerCase m) abbrevMap with
  | Some v => v
  | None => m
  end.

(** A position of the matcher: whether the code unit before it is a word
    character (false at the start of the input), and the input from it. *)
Definition position : Type := (bool * jsstring)%type.

(** [\b]: exactly one of the two sides is a word character. *)
Definition at_boundary (p : position) : bool :=
  xorb (fst p) (match snd p with c :: _ => is_word c | [] => false end).

(** One alternative against the input, ignoring case: the matched text
    and the position after it. *)
Fixpoint match_literal (pat : jsstring) (p : position)
    : option (jsstring * position) :=
  match pat with
  | [] => Some ([], p)
  | x :: pat' =>
      match snd p with
      | [] => None
      | c :: r =>
          if canonicalize c =? canonicalize x
          then match match_literal pat' (is_word c, r) with
               | Some (m, q) => Some (c :: m, q)
               | None => None
               end
          else None
      end
  end.

(** [(street|st|...)\b]: the first alternative, in order, that matches
    and ends at a word boundary. *)
Fixpoint first_alternative (alts : list jsstring) (p : position)
    : option (jsstring * position) :=
  match alts with
  | [] => None
  | a :: alts' =>
      match match_literal a p with
      | Some (m, q) =>
          if at_boundary q then Some (m, q) else first_alternative alts' p
      | None => first_alternative alts' p
      end
  end.

(** The whole pattern at one position. *)
Definition match_at (p : position) : option (jsstring * position) :=
  if at_boundary p then first_alternative alternatives p else None.

(** The global replace: scan from the left; at a match write the
    callback's result and go on after the match, otherwise copy one code
    unit.  [skip] counts the code units of the current match that are
    still to be passed over. *)
Fixpoint replace_from (pw : bool) (skip : nat) (s : jsstring) : jsstring :=
  match s with
  | [] => []
  | c :: r =>
      match skip with
      | S n => replace_from (is_word c) n r
      | O =>
          match match_at (pw, s) with
          | Some (m, _) =>
              abbreviate m ++ replace_from (is_word c) (List.length m - 1) r
          | None => c :: replace_from (is_word c) 0 r
          end
      end
  end.

Definition replace_suffixes (s : jsstring) : jsstring :=
  replace_from false 0 s.

(** [normalizeAddress]. *)
Definition normalizeAddress (address : jsstring) : jsstring :=
  replace_suffixes (collapse (trim address)).

(** The object returned by [validateAddress]. *)
Record validation : Type := mkValidation {
  isValid : bool;
  errors : list string;
  warnings : list string;
  normalized : option jsstring
}.

(** [validateAddress(address)] for a string argument. *)
Definition validateAddress (address : jsstring) : validation :=
  let trimmed := trim address in
  match trimmed with
  | [] => mkValidation false ["Address cannot be empty"%string] [] None
  | _ =>
      let warnings1 :=
        if (List.length trimmed <? 10)%nat
        then ["Address appears to be incomplete"%string] else [] in
      let hasNumber := existsb is_digit trimmed in
      let hasStreetName := existsb is_alpha trimmed in
      let warnings2 :=
        if hasNumber then warnings1
        else (warnings1 ++ ["Address should include a street number"%string])%list in
      let errors :=
        if hasStreetName then []
        else ["Address should include a street name"%string] in
      mkValidation (match errors with [] => true | _ => false end)
                   errors warnings2 (Some (normalizeAddress trimmed))
  end.

(** *** [sanitizeInput] and [validateCoordinates] *)

(** [[<>]]. *)
Definition is_angle (c : N) : bool := (c =? 60) || (c =? 62).

(** [.replace(/[<>]/g, '')]. *)
Definition remove_angles (s : jsstring) : jsstring :=
  filter (fun c => negb (is_angle c)) s.

(** [.replace(/<literal>/gi, '')], one scan from the left: at a match the
    matched code units are passed over, otherwise one code unit is
    copied.  [skip] counts what is left of the current match. *)
Fixpoint remove_literal (pat : jsstring) (skip : nat) (s : jsstring)
    : jsstring :=
  match s with
  | [] => []
  | c :: r =>
      match skip with
      | S n => remove_literal pat n r
      | O =>
          match match_literal pat (false, s) with
          | Some (m, _) => remove_literal pat (List.length m - 1) r
          | None => c :: remove_literal pat 0 r
          end
      end
  end.

(** [.replace(/javascript:/gi, '')]. *)
Definition remove_protocol (s : jsstring) : jsstring :=
  remove_literal (str "javascript:") 0 s.

(** [sanitizeInput(input)] for a string argument. *)
Definition sanitizeInput (input : jsstring) : jsstring :=
  firstn 1000 (remove_protocol (remove_angles (trim input))).

(** The object returned by [validateCoordinates]. *)
Record coordinate_check : Type := mkCoordinateCheck {
  cc_isValid : bool;
  cc_errors : list string
}.

(** The two messages about one coordinate: [None] is an argument that is
    not a number, or is [NaN]. *)
Definition coordinate_errors (x : option Q) (bound : Q)
    (not_number out_of_range : string) : list string :=
  match x with
  | None => [not_number]
  | Some v =>
      if negb (Qle_bool (- bound) v) || negb (Qle_bool v bound)
      then [out_of_range] else []
  end.

(** [validateCoordinates(lat, lon)]. *)
Definition validateCoordinates (lat lon : option Q) : coordinate_check :=
  let errors :=
    (coordinate_errors lat 90 "Latitude must be a valid number"
                       "Latitude must be between -90 and 90"
     ++ coordinate_errors lon 180 "Longitude must be a valid number"
                          "Longitude must be between -180 and 180")%list in
  mkCoordinateCheck (match errors with [] => true | _ => false end) errors.

(** *** Vocabulary of the properties *)

(** Equality of a pattern and a text under the case folding. *)
Fixpoint ci_eqb (pat w : jsstring) : bool :=
  match pat, w with
  | [], [] => true
  | x :: pat', c :: w' => (canonicalize c =? canonicalize x) && ci_eqb pat' w'
  | _, _ => false
  end.

(** The word is one of the alternatives, in any case. *)
Definition is_alternative (w : jsstring) : bool :=
  existsb (fun a => ci_eqb a w) alternatives.

(** What the replace does to a whole word. *)
Definition abbreviate_word (w : jsstring) : jsstring :=
  if is_alternative w then abbreviate w else w.

(** A text of ASCII letters, as the alternatives are. *)
Definition letters (a : jsstring) : Prop :=
  Forall (fun x => is_alpha x = true) a.

(** A text of word characters. *)
Definition wordy (w : jsstring) : Prop :=
  Forall (fun c => is_word c = true) w.

(** The input is empty or starts outside a word. *)
Definition starts_nonword (s : jsstring) : bool :=
  match s with [] => true | d :: _ => negb (is_word d) end.

(** The input is empty or starts with something else than white space. *)
Definition starts_nonspace (s : jsstring) : bool :=
  match s with [] => true | c :: _ => negb (is_space c) end.

(** The replace, word by word: separators are copied, and a word that
    starts at a boundary is abbreviated as a whole. *)
Inductive rewrites : bool -> jsstring -> jsstring -> Prop :=
| rw_nil pw : rewrites pw [] []
| rw_sep pw d r out :
    is_word d = false -> rewrites false r out ->
    rewrites pw (d :: r) (d :: out)
| rw_in c r out :
    is_word c = true -> rewrites true r out ->
    rewrites true (c :: r) (c :: out)
| rw_word w rest out :
    w <> [] -> wordy w ->
    starts_nonword rest = true -> rewrites true rest out ->
    rewrites false (w ++ rest) (abbreviate_word w ++ out).

(** White space in normal form: only single spaces, none at either end.
    [after_space] says that the previous code unit was a space, or that
    the text starts here. *)
Fixpoint tidy_from (after_space : bool) (s : jsstring) : bool :=
  match s with
  | [] => negb after_space
  | c :: r =>
      if is_space c
      then (c =? 32) && negb after_space && tidy_from true r
      else tidy_from false r
  end.

Definition tidy (s : jsstring) : bool :=
  match s with [] => true | _ => tidy_from true s end.

End Validation.

(* ================================================================== *)
(** ** src/services/api/BaseAPIService.js and the evaluators' entry *)
(* ================================================================== *)

Module BaseAPIService.
Import Errors Validation.

(** The outcome of a promise, as [Promise.allSettled] reports it. *)
Inductive settled (A : Type) : Type :=
| Fulfilled (value : A)
| Rejected (reason : JsError).
Arguments Fulfilled {A} value.
Arguments Rejected {A} reason.

(** [validateAddress(address)] of the base class: a thrown
    [ValidationError] is [inl], the returned normalized address [inr].
    A valid result always carries its normalized address. *)
Definition validateAddress (address : jsstring) : JsError + jsstring :=
  let validation := Validation.validateAddress address in
  if isValid validation
  then inr (match normalized validation with Some n => n | None => [] end)
  else inl (ValidationError
              ("Invalid address: " ++ String.concat ", " (errors validation))).

(** Whether [encodeURIComponent] accepts the string: every surrogate
    code unit is half of a pair, a high one followed by a low one.  On
    any other string it throws a [URIError]. *)
Fixpoint well_formed (s : jsstring) : bool :=
  match s with
  | [] => true
  | c :: r =>
      if ((55296 <=? c) && (c <=? 56319))%N
      then match r with
           | d :: r' => ((56320 <=? d) && (d <=? 57343))%N && well_formed r'
           | [] => false
           end
      else negb ((56320 <=? c) && (c <=? 57343))%N && well_formed r
  end.

Section Evaluator.
Variables (coordinates payload : Type).
(** [geocodeAddress], the network collaborator, for the calls that
    return: [None] is [null].  It passes its argument to
    [encodeURIComponent] before its [try] block. *)
Variable geocodeAddress : jsstring -> option coordinates.
(** The program's own rules, applied once the address is located. *)
Variable rules : jsstring -> coordinates -> settled payload.

(** The steps every [check...(address)] method of the five services
    starts with:
    [const normalized = this.validateAddress(address);
     const coordinates = await this.geocodeAddress(normalized);
     if (!coordinates) throw new Error('Unable to geocode address');] *)
Definition evaluate (address : jsstring) : settled payload :=
  match validateAddress address with
  | inl e => Rejected e
  | inr normalized =>
      match geocodeAddress normalized with
      | None => Rejected (PlainError "Unable to geocode address")
      | Some c => rules normalized c
      end
  end.

End Evaluator.

End BaseAPIService.

(* ================================================================== *)
(** ** src/services/api/BaseAPIService.js: [makeRequest] *)
(* ================================================================== *)

Module Request.
Import Errors Cache.
Local Open Scope string_scope.

Definition NetworkError (msg : string) : JsError :=
  mkError "NetworkError" msg.

(** [getCacheKey(url, options)]; [body] is [JSON.stringify(options.body)]
    of a truthy body, [None] a body that is not there. *)
Definition getCacheKey (url : string) (body : option string) : string :=
  url ++ "_" ++ match body with Some json => json | None => "{}" end.

Section MakeRequest.
Context {A : Type}.
(** Whether a parsed body other than [null] is truthy. *)
Variable truthy : A -> bool.

(** What [fetch] and [response.json()] do with a request: an ok response
    and its parsed body; a response that is not ok, with its status as
    the template prints it; or an error thrown by either. *)
Inductive outcome : Type :=
| Json (data : jsval A)
| NotOk (status statusText : string)
| Throws (e : JsError).

(** The options that [makeRequest] reads for the cache;
    [cacheTTL = None] is an omitted one. *)
Record options : Type := mkOptions {
  skipCache : bool;
  cacheTTL : option Z
}.

Definition is_truthy (v : jsval A) : bool :=
  match v with JNull => false | JVal a => truthy a end.

(** [options.cacheTTL !== 0]. *)
Definition caches (o : options) : bool :=
  match cacheTTL o with Some 0%Z => false | _ => true end.

(** What the [try] block makes of the outcome of the request. *)
Definition settle (r : outcome) : JsError + jsval A :=
  match r with
  | Json data => inr data
  | NotOk status statusText =>
      inl (APIError ("API request failed: " ++ status ++ " " ++ statusText))
  | Throws e =>
      if String.eqb (name e) "AbortError"
      then inl (NetworkError "Request timeout")
      else inl (NetworkError ("Network error: " ++ message e))
  end.

(** [makeRequest(endpoint, options)] on the shared cache, for the cache
    key of the request: [now] is the clock reading of [cache.get], [now']
    that of [cache.set] after the response; [inl] is the thrown error. *)
Definition makeRequest (c : CacheManager A) (cacheKey : string)
    (o : options) (now now' : Z) (r : outcome)
    : (JsError + jsval A) * CacheManager A :=
  let (cached, c1) := get c cacheKey now in
  if is_truthy cached && negb (skipCache o) then (inr cached, c1)
  else match r with
       | Json data =>
           (inr data,
            if caches o then set c1 cacheKey data (cacheTTL o) now' else c1)
       | _ => (settle r, c1)
       end.

End MakeRequest.

End Request.

(* ================================================================== *)
(** ** JavaScript numbers: the rounding of binary64 *)
(* ================================================================== *)

Module Binary64.
Local Open Scope Q_scope.

(** The exponent of the smallest positive number, [2 ^ -1074]. *)
Definition emin : Z := (-1074)%Z.

(** [floor (log2 a)] for a positive [a]. *)
Definition ilog2 (a : Q) : Z :=
  let k := (Z.log2 (Qnum a) - Z.log2 (Zpos (Qden a)))%Z in
  if Qle_bool (2 ^ k) a then k else (k - 1)%Z.

(** The nearest integer, the even one of two that are equally near. *)
Definition nearest_even (x : Q) : Z :=
  let f := Qfloor x in
  match Qcompare (x - inject_Z f) (1 # 2) with
  | Lt => f
  | Gt => (f + 1)%Z
  | Eq => if Z.even f then f else (f + 1)%Z
  end.

(** The nearest number with 53 significant bits and an exponent of at
    least [emin], for a positive [a]. *)
Definition round_positive (a : Q) : Q :=
  let e := Z.max (ilog2 a - 52) emin in
  inject_Z (nearest_even (a / 2 ^ e)) * 2 ^ e.

(** What an operation returns whose exact result is [x] and lies below
    [2 ^ 1024] in magnitude: the nearest number of the format, ties to
    even. *)
Definition round (x : Q) : Q :=
  match Qcompare x 0 with
  | Eq => 0
  | Gt => round_positive x
  | Lt => - round_positive (- x)
  end.

(** [x * y], [x + y] and [x - y]. *)
Definition mul (x y : Q) : Q := round (x * y).
Definition add (x y : Q) : Q := round (x + y).
Definition sub (x y : Q) : Q := round (x - y).

(** The numbers that the literals [0.10], [0.20], [0.39] and [0.40]
    denote. *)
Definition tenth : Q := 3602879701896397 # 36028797018963968.
Definition fifth : Q := 3602879701896397 # 18014398509481984.
Definition thirty_nine_hundredths : Q := 3512807709348987 # 9007199254740992.
Definition two_fifths : Q := 3602879701896397 # 9007199254740992.

(** The value of a finite primitive float of the kernel, which is a
    binary64 number. *)
Definition value (f : PrimFloat.float) : option Q :=
  match FloatOps.Prim2SF f with
  | SpecFloat.S754_zero _ => Some 0
  | SpecFloat.S754_finite s m e =>
      Some ((if s then -1 else 1) * inject_Z (Zpos m) * 2 ^ e)
  | _ => None
  end.

(** Whether [mul] gives the value of the kernel's product of two
    floats. *)
Definition agrees_on (x y : PrimFloat.float) : bool :=
  match value x, value y, value (PrimFloat.mul x y) with
  | Some a, Some b, Some c => Qeq_bool (mul a b) c
  | _, _, _ => false
  end.

(** The same for [add] and [sub]. *)
Definition add_agrees_on (x y : PrimFloat.float) : bool :=
  match value x, value y, value (PrimFloat.add x y) with
  | Some a, Some b, Some c => Qeq_bool (add a b) c
  | _, _, _ => false
  end.

Definition sub_agrees_on (x y : PrimFloat.float) : bool :=
  match value x, value y, value (PrimFloat.sub x y) with
  | Some a, Some b, Some c => Qeq_bool (sub a b) c
  | _, _, _ => false
  end.

End Binary64.

(* ================================================================== *)
(** ** src/services/api/SBAService.js (class [SBAService]) *)
(* ================================================================== *)

Module SBA.
Local Open Scope Q_scope.

(** [businessInfo]; [None] is a property that is not there. *)
Record businessInfo : Type := mkBusinessInfo {
  employeeCount : option Q;
  averageAnnualReceipts : option Q;
  industry : option string;
  businessAge : option Q;
  ownerEquity : option Q;
  projectCost : option Q;
  ownerOccupancy : option Q
}.

(** [{}]. *)
Definition no_info : businessInfo :=
  mkBusinessInfo None None None None None None None.

(** A destructuring default. *)
Definition default {A : Type} (d : A) (o : option A) : A :=
  match o with Some x => x | None => d end.

(** [a > b] on numbers. *)
Definition Qgt_bool (a b : Q) : bool := negb (Qle_bool a b).

(** [a >= b] on numbers. *)
Definition Qge_bool (a b : Q) : bool := Qle_bool b a.

(** One row of [sizeStandards]: the two limits, [None] for [null]. *)
Record standard : Type := mkStandard {
  employees : option Q;
  receipts : option Q
}.

Definition other_standard : standard := mkStandard (Some 500) (Some 8000000).

Definition sizeStandards : list (string * standard) :=
  [ ("retail", mkStandard (Some 500) (Some 8000000));
    ("manufacturing", mkStandard (Some 1500) None);
    ("construction", mkStandard None (Some 42000000));
    ("professional_services", mkStandard None (Some 8500000));
    ("real_estate", mkStandard None (Some 8000000));
    ("hospitality", mkStandard None (Some 8500000));
    ("other", other_standard) ]%string.

Fixpoint find_standard (k : string) (t : list (string * standard))
    : option standard :=
  match t with
  | [] => None
  | (k', s) :: r => if String.eqb k k' then Some s else find_standard k r
  end.

(** The property names that every object literal inherits from
    [Object.prototype]: under them the lookup finds a function (or the
    prototype itself), which is truthy and has neither [employees] nor
    [receipts]. *)
Definition inherited_names : list string :=
  ["constructor"; "hasOwnProperty"; "isPrototypeOf"; "propertyIsEnumerable";
   "toLocaleString"; "toString"; "valueOf"; "__proto__";
   "__defineGetter__"; "__defineSetter__"; "__lookupGetter__";
   "__lookupSetter__"]%string.

(** [sizeStandards[industry] || sizeStandards['other']]. *)
Definition standard_of (industry : string) : standard :=
  match find_standard industry sizeStandards with
  | Some s => s
  | None =>
      if existsb (String.eqb industry) inherited_names
      then mkStandard None None
      else other_standard
  end.

(** [limit && x > limit]. *)
Definition exceeds (limit : option Q) (x : Q) : bool :=
  match limit with Some l => Qgt_bool x l | None => false end.

(** [checkSizeStandards(employees, receipts, industry)]. *)
Definition checkSizeStandards (emp rec : Q) (ind : string) : bool :=
  let std := standard_of ind in
  if exceeds (employees std) emp then false
  else if exceeds (receipts std) rec then false
  else true.

(** [eligibilityChecks]. *)
Record eligibilityChecks : Type := mkChecks {
  chk_sizeStandards : bool;
  chk_businessAge : bool;
  chk_ownerEquity : bool;
  chk_ownerOccupancy : bool;
  chk_creditworthiness : bool;
  chk_jobCreation : bool
}.

(** [Object.values(eligibilityChecks)]. *)
Definition values (c : eligibilityChecks) : list bool :=
  [ chk_sizeStandards c; chk_businessAge c; chk_ownerEquity c;
    chk_ownerOccupancy c; chk_creditworthiness c; chk_jobCreation c ].

(** [getEligibilityRecommendations(checks, businessInfo)]. *)
Definition getEligibilityRecommendations (c : eligibilityChecks)
    : list string :=
  let r :=
    ((if chk_sizeStandards c then []
      else ["Business exceeds SBA size standards for this industry"%string])
     ++ (if chk_businessAge c then []
         else ["Business needs 2+ years operating history"%string])
     ++ (if chk_ownerEquity c then []
         else ["Increase owner equity to at least 10% of project cost"%string])
     ++ (if chk_ownerOccupancy c then []
         else ["Ensure owner will occupy at least 51% of property"%string]))%list
  in
  match r with
  | [] => ["Business appears to meet basic SBA 504 eligibility criteria"%string]
  | _ => r
  end.

(** The object returned by [assessSBA504Eligibility]; its [details]
    repeat [checks] and are left out. *)
Record assessment : Type := mkAssessment {
  eligible : bool;
  checks : eligibilityChecks;
  recommendations : list string
}.

(** [assessSBA504Eligibility(businessInfo)].  The product
    [projectCost * 0.10] is the rounded one: whether the equity reaches it
    can depend on the rounding. *)
Definition assessSBA504Eligibility (b : businessInfo) : assessment :=
  let employeeCount := default 0 (employeeCount b) in
  let averageAnnualReceipts := default 0 (averageAnnualReceipts b) in
  let industry := default "other"%string (industry b) in
  let businessAge := default 0 (businessAge b) in
  let ownerEquity := default 0 (ownerEquity b) in
  let projectCost := default 0 (projectCost b) in
  let ownerOccupancy := default 51 (ownerOccupancy b) in
  let eligibilityChecks :=
    mkChecks (checkSizeStandards employeeCount averageAnnualReceipts industry)
             (Qge_bool businessAge 2)
             (Qge_bool ownerEquity (Binary64.mul projectCost Binary64.tenth))
             (Qge_bool ownerOccupancy 51)
             true
             true in
  let eligible := forallb (fun check => Bool.eqb check true)
                          (values eligibilityChecks) in
  mkAssessment eligible eligibilityChecks
               (getEligibilityRecommendations eligibilityChecks).

(** What [checkSBA504Eligibility] returns, without the fixed lists of
    lenders, requirements and process steps; [has_benefits] is
    [benefits !== null]. *)
Record sbaResult (coordinates : Type) : Type := mkSbaResult {
  r_address : Validation.jsstring;
  r_coordinates : coordinates;
  r_state : string;
  r_eligible : bool;
  eligibilityDetails : assessment;
  has_benefits : bool
}.

Section Service.
Import Errors Validation BaseAPIService.
Variable coordinates : Type.
(** The network collaborators; [determineState] answers ['Unknown'] when
    its request fails. *)
Variable geocodeAddress : jsstring -> option coordinates.
Variable determineState : coordinates -> string.

(** [checkSBA504Eligibility(address, businessInfo = {})]. *)
Definition checkSBA504Eligibility (address : jsstring) (b : businessInfo)
    : settled (sbaResult coordinates) :=
  evaluate geocodeAddress
    (fun normalized coords =>
       let state := determineState coords in
       let eligibility := assessSBA504Eligibility b in
       Fulfilled (mkSbaResult normalized coords state
                    (eligible eligibility) eligibility
                    (eligible eligibility)))
    address.

End Service.

(** The number of the four computed checks that fail. *)
Definition failed_checks (c : eligibilityChecks) : nat :=
  List.length (filter negb [ chk_sizeStandards c; chk_businessAge c;
                             chk_ownerEquity c; chk_ownerOccupancy c ]).

(** *** The payments of a 504 project *)

(** [Math.round]. *)
Definition round (x : Q) : Z := Qfloor (x + (1 # 2)).

(** The object returned by [calculateSBA504Payments], without the
    formatted rates. *)
Record payments : Type := mkPayments {
  pay_projectCost : Q;
  pay_ownerEquity : Q;
  bankLoan : Q;
  sbaLoan : Q;
  bankPayment : Z;
  sbaPayment : Z;
  totalMonthlyPayment : Z;
  totalAnnualPayment : Z
}.

(** [calculateSBA504Payments(projectCost, bankRate = 0.065,
    sbaRate = 0.055)].  The three shares are the rounded products; the
    payments are the exact values of their formulas, from which those of
    the source differ by the rounding of each operation. *)
Definition calculateSBA504Payments (projectCost : Q)
    (bankRate sbaRate : option Q) : payments :=
  let bankRate := default (65 # 1000) bankRate in
  let sbaRate := default (55 # 1000) sbaRate in
  let ownerEquity := Binary64.mul projectCost Binary64.tenth in
  let bankLoan := Binary64.mul projectCost (50 # 100) in
  let sbaLoan := Binary64.mul projectCost Binary64.two_fifths in
  let bankMonthlyRate := bankRate / 12 in
  let bankPayments := (10 * 12)%Z in
  let bankPayment :=
    bankLoan * (bankMonthlyRate * (1 + bankMonthlyRate) ^ bankPayments)
    / ((1 + bankMonthlyRate) ^ bankPayments - 1) in
  let sbaMonthlyRate := sbaRate / 12 in
  let sbaPayments := (20 * 12)%Z in
  let sbaPayment :=
    sbaLoan * (sbaMonthlyRate * (1 + sbaMonthlyRate) ^ sbaPayments)
    / ((1 + sbaMonthlyRate) ^ sbaPayments - 1) in
  let totalMonthlyPayment := bankPayment + sbaPayment in
  let totalAnnualPayment := totalMonthlyPayment * 12 in
  mkPayments projectCost ownerEquity bankLoan sbaLoan
             (round bankPayment) (round sbaPayment)
             (round totalMonthlyPayment) (round totalAnnualPayment).

(** A business of which only the equity and the project cost are
    known. *)
Definition equity_only (ownerEquity projectCost : Q) : businessInfo :=
  mkBusinessInfo None None None None (Some ownerEquity) (Some projectCost)
                 None.

End SBA.

(* ================================================================== *)
(** ** src/services/utils/validation.js: [validateBusinessInfo] *)
(* ================================================================== *)

Module BusinessInput.
Import SBA.
Local Open Scope Q_scope.

(** [validIndustries]. *)
Definition validIndustries : list string :=
  ["retail"; "manufacturing"; "construction"; "professional_services";
   "real_estate"; "hospitality"; "healthcare"; "technology";
   "other"]%string.

(** [validIndustries.includes(industry)]; an absent [industry] is
    [undefined], which the list does not hold. *)
Definition is_valid_industry (industry : option string) : bool :=
  match industry with
  | Some i => existsb (String.eqb i) validIndustries
  | None => false
  end.

(** The truth value of a string-valued property. *)
Definition truthy_string (s : option string) : bool :=
  match s with
  | Some i => negb (String.eqb i "")
  | None => false
  end.

(** [x || d] on a number-valued property. *)
Definition or_default (d : Q) (x : option Q) : Q :=
  match x with
  | Some v => if Qeq_bool v 0 then d else v
  | None => d
  end.

(** [a < b] on numbers. *)
Definition Qlt_bool (a b : Q) : bool := negb (Qle_bool b a).

(** The [if (x !== undefined) { ... }] blocks: the messages pushed for a
    property that is there. *)
Definition when_present (x : option Q) (f : Q -> list string) : list string :=
  match x with Some v => f v | None => [] end.

Definition message_if (b : bool) (msg : string) : list string :=
  if b then [msg] else [].

(** The double quote character, as a string. *)
Definition quote : string := String (Ascii.ascii_of_nat 34) EmptyString.

(** The template of the warning about an unknown industry. *)
Definition industry_warning (industry : string) : string :=
  ("Industry " ++ quote ++ industry ++ quote ++ " not recognized, using "
   ++ quote ++ "other" ++ quote)%string.

(** [normalized] of [validateBusinessInfo]. *)
Record normalizedInfo : Type := mkNormalized {
  n_employeeCount : Q;
  n_averageAnnualReceipts : Q;
  n_industry : string;
  n_businessAge : Q;
  n_ownerEquity : Q;
  n_projectCost : Q;
  n_ownerOccupancy : Q
}.

Record businessValidation : Type := mkBusinessValidation {
  bv_isValid : bool;
  bv_errors : list string;
  bv_warnings : list string;
  bv_normalized : normalizedInfo
}.

(** [validateBusinessInfo(businessInfo)] for an object whose numeric
    properties, where present, are numbers. *)
Definition validateBusinessInfo (b : businessInfo) : businessValidation :=
  let errors :=
    (when_present (employeeCount b) (fun v =>
       message_if (Qlt_bool v 0)
         "Employee count must be a non-negative number")
     ++ when_present (averageAnnualReceipts b) (fun v =>
          message_if (Qlt_bool v 0)
            "Average annual receipts must be a non-negative number")
     ++ when_present (businessAge b) (fun v =>
          message_if (Qlt_bool v 0)
            "Business age must be a non-negative number")
     ++ when_present (ownerEquity b) (fun v =>
          message_if (Qlt_bool v 0)
            "Owner equity must be a non-negative number")
     ++ when_present (projectCost b) (fun v =>
          message_if (Qle_bool v 0)
            "Project cost must be a positive number")
     ++ when_present (ownerOccupancy b) (fun v =>
          message_if (Qlt_bool v 0 || Qlt_bool 100 v)
            "Owner occupancy must be a percentage between 0 and 100"))%list in
  let warnings :=
    (when_present (businessAge b) (fun v =>
       message_if (Qlt_bool v 2)
         "Many programs require 2+ years of business history")
     ++ when_present (ownerOccupancy b) (fun v =>
          message_if (Qlt_bool v 51)
            "Many programs require 51%+ owner occupancy")
     ++ message_if (truthy_string (industry b)
                    && negb (is_valid_industry (industry b)))
          (industry_warning (default ""%string (industry b)))
     ++ match ownerEquity b, projectCost b with
        | Some e, Some c =>
            message_if (negb (Qeq_bool e 0) && negb (Qeq_bool c 0)
                        && Qlt_bool (e / c * 100) 10)
              "Owner equity below 10% may limit financing options"
        | _, _ => []
        end)%list in
  mkBusinessValidation
    (match errors with [] => true | _ => false end)
    errors warnings
    (mkNormalized
       (or_default 0 (employeeCount b))
       (or_default 0 (averageAnnualReceipts b))
       (if is_valid_industry (industry b)
        then default "other"%string (industry b) else "other"%string)
       (or_default 0 (businessAge b))
       (or_default 0 (ownerEquity b))
       (or_default 0 (projectCost b))
       (or_default 51 (ownerOccupancy b))).

(** Every numeric property that is there lies in its range. *)
Definition in_ranges (b : businessInfo) : Prop :=
  (forall v, employeeCount b = Some v -> 0 <= v)
  /\ (forall v, averageAnnualReceipts b = Some v -> 0 <= v)
  /\ (forall v, businessAge b = Some v -> 0 <= v)
  /\ (forall v, ownerEquity b = Some v -> 0 <= v)
  /\ (forall v, projectCost b = Some v -> 0 < v)
  /\ (forall v, ownerOccupancy b = Some v -> 0 <= v /\ v <= 100).

End BusinessInput.

(* ================================================================== *)
(** ** src/services/api/NMTCService.js *)
(* ================================================================== *)

Module NMTC.
Import Validation.

(** The object returned by [getCensusTract].  [geoid] is [None] when the
    census answer has no [GEOID]. *)
Record censusData : Type := mkCensus {
  tract : jsstring;
  county : jsstring;
  state : jsstring;
  geoid : option jsstring
}.

(** [ToInt32]: what [<<] and [&] make of an integer-valued number. *)
Definition toInt32 (z : Z) : Z := ((z + 2 ^ 31) mod 2 ^ 32 - 2 ^ 31)%Z.

(** One turn of the loop of [seededRandom]:
    [hash = ((hash << 5) - hash) + char; hash = hash & hash;] *)
Definition hash_step (hash : Z) (char : N) : Z :=
  toInt32 (toInt32 (hash * 32) - hash + Z.of_N char)%Z.

(** The value of [hash] when [seededRandom(seed)] returns its closure. *)
Definition seed_hash (seed : jsstring) : Z := fold_left hash_step seed 0%Z.

(** A computation that calls the closure: it reads and writes the
    closure's variable [hash]. *)
Definition rng (A : Type) : Type := Z -> A * Z.

Definition ret {A : Type} (a : A) : rng A := fun h => (a, h).

Definition bind {A B : Type} (m : rng A) (f : A -> rng B) : rng B :=
  fun h => let (a, h') := m h in f a h'.

Notation "x <- m ;; k" := (bind m (fun x => k))
  (at level 61, m at next level, right associativity).

(** The closure: [hash = (hash * 9301 + 49297) % 233280;
    return hash / 233280;].  [%] takes the sign of the dividend. *)
Definition random : rng Q :=
  fun hash =>
    let hash' := Z.rem (hash * 9301 + 49297) 233280 in
    (Qmake hash' 233280, hash').

(** The object returned by [simulateCensusDemographics]. *)
Record demographics : Type := mkDemographics {
  povertyRate : Q;
  medianIncomeRatio : Q;
  inEmpowermentZone : bool;
  population : Z;
  medianIncome : Z
}.

Local Open Scope Q_scope.

Definition Qlt_bool (a b : Q) : bool := negb (Qle_bool b a).

(** The body of [simulateCensusDemographics] once the closure exists; the
    properties of the object literal are evaluated in source order. *)
Definition draw_demographics : rng demographics :=
  r1 <- random ;;
  r2 <- random ;;
  r3 <- random ;;
  r4 <- random ;;
  r5 <- random ;;
  ret (mkDemographics (5 + r1 * 35)
                      ((4 # 10) + r2 * (6 # 10))
                      (Qlt_bool r3 (1 # 10))
                      (Qfloor (1000 + r4 * 9000))
                      (Qfloor (25000 + r5 * 75000))).

(** [simulateCensusDemographics(geoid)]: a fresh closure per call. *)
Definition simulateCensusDemographics (geoid : jsstring) : demographics :=
  fst (draw_demographics (seed_hash geoid)).

(** The parts of [reasons], before they are joined into one string. *)
Inductive reason_item : Type :=
| ByPoverty (rate : Q)
| ByIncome (percent : Z)
| ByDesignation.

Inductive reason : Type :=
| Reasons (items : list reason_item)
| DoesNotMeet
| UnableToVerify.

Record qualifications : Type := mkQualifications {
  poverty : bool;
  income : bool;
  designation : bool
}.

Record criteria : Type := mkCriteria {
  c_povertyRate : Q;
  c_medianIncomeRatio : Q;
  c_inEmpowermentZone : bool;
  c_qualifications : qualifications
}.

(** The object returned by [checkLowIncomeEligibility]. *)
Record eligibility : Type := mkEligibility {
  eligible : bool;
  e_reason : reason;
  e_criteria : option criteria
}.

(** [Math.round]. *)
Definition Qround_half_up (x : Q) : Z := Qfloor (x + (1 # 2)).

(** [checkLowIncomeEligibility(censusData)].  Without a [geoid] the read
    of [seed.length] throws and the [catch] branch answers. *)
Definition checkLowIncomeEligibility (c : censusData) : eligibility :=
  match geoid c with
  | None => mkEligibility false UnableToVerify None
  | Some g =>
      let d := simulateCensusDemographics g in
      let qualifiesByPoverty := Qle_bool 20 (povertyRate d) in
      let qualifiesByIncome := Qle_bool (medianIncomeRatio d) (8 # 10) in
      let qualifiesByDesignation := inEmpowermentZone d in
      let eligible :=
        qualifiesByPoverty || qualifiesByIncome || qualifiesByDesignation in
      let reasons :=
        ((if qualifiesByPoverty then [ByPoverty (povertyRate d)] else [])
         ++ (if qualifiesByIncome
             then [ByIncome (Qround_half_up (medianIncomeRatio d * 100))]
             else [])
         ++ (if qualifiesByDesignation then [ByDesignation] else []))%list in
      mkEligibility eligible
        (if eligible then Reasons reasons else DoesNotMeet)
        (Some (mkCriteria (povertyRate d) (medianIncomeRatio d)
                 (inEmpowermentZone d)
                 (mkQualifications qualifiesByPoverty qualifiesByIncome
                    qualifiesByDesignation)))
  end.

(** What [checkNMTCEligibility] returns, without the fixed lists of
    benefits and nearby entities; [has_benefits] is [benefits !== null]. *)
Record nmtcResult (coordinates : Type) : Type := mkNmtcResult {
  r_address : jsstring;
  r_coordinates : coordinates;
  r_censusData : censusData;
  nmtcEligible : bool;
  eligibilityReason : reason;
  qualificationCriteria : option criteria;
  has_benefits : bool
}.



(** *** The closures of [seededRandom] as objects *)

(** The next value of a closure's [hash]. *)
Definition next (hash : Z) : Z := Z.rem (hash * 9301 + 49297) 233280.

Module Stateful.

(** The variables [hash] of the closures that exist, oldest first: a
    closure is known by its position. *)
Definition closures : Type := list Z.

(** A computation that creates or calls closures. *)
Definition effect (A : Type) : Type := closures -> A * closures.

(** The assignment to the [hash] of the closure at position [p]. *)
Fixpoint assign (p : nat) (hash : Z) (H : closures) : closures :=
  match H, p with
  | [], _ => []
  | _ :: r, O => hash :: r
  | x :: r, S p' => x :: assign p' hash r
  end.

(** [seededRandom(seed)]: a new closure, whose [hash] is the hash of the
    seed. *)
Definition seededRandom (seed : jsstring) : effect nat :=
  fun H => (List.length H, (H ++ [seed_hash seed])%list).

(** A call of the closure at position [p]. *)
Definition call (p : nat) : effect Q :=
  fun H =>
    let hash' := Z.rem (nth p H 0%Z * 9301 + 49297) 233280 in
    (Qmake hash' 233280, assign p hash' H).

(** [simulateCensusDemographics(geoid)]. *)
Definition simulateCensusDemographics (geoid : jsstring)
    : effect demographics :=
  fun H =>
    let (random, H0) := seededRandom geoid H in
    let (r1, H1) := call random H0 in
    let (r2, H2) := call random H1 in
    let (r3, H3) := call random H2 in
    let (r4, H4) := call random H3 in
    let (r5, H5) := call random H4 in
    (mkDemographics (5 + r1 * 35)
                    ((4 # 10) + r2 * (6 # 10))
                    (Qlt_bool r3 (1 # 10))
                    (Qfloor (1000 + r4 * 9000))
                    (Qfloor (25000 + r5 * 75000)),
     H5).

(** [checkLowIncomeEligibility(censusData)]. *)
Definition checkLowIncomeEligibility (c : censusData) : effect eligibility :=
  fun H =>
    match geoid c with
    | None => (mkEligibility false UnableToVerify None, H)
    | Some g =>
        let (d, H') := simulateCensusDemographics g H in
        let qualifiesByPoverty := Qle_bool 20 (povertyRate d) in
        let qualifiesByIncome := Qle_bool (medianIncomeRatio d) (8 # 10) in
        let qualifiesByDesignation := inEmpowermentZone d in
        let eligible :=
          qualifiesByPoverty || qualifiesByIncome || qualifiesByDesignation in
        let reasons :=
          ((if qualifiesByPoverty then [ByPoverty (povertyRate d)] else [])
           ++ (if qualifiesByIncome
               then [ByIncome (Qround_half_up (medianIncomeRatio d * 100))]
               else [])
           ++ (if qualifiesByDesignation then [ByDesignation] else []))%list in
        (mkEligibility eligible
           (if eligible then Reasons reasons else DoesNotMeet)
           (Some (mkCriteria (povertyRate d) (medianIncomeRatio d)
                    (inEmpowermentZone d)
                    (mkQualifications qualifiesByPoverty qualifiesByIncome
                       qualifiesByDesignation))),
         H')
    end.

End Stateful.

Section Service.
Import Errors BaseAPIService.
Variable coordinates : Type.
(** The two network collaborators. *)
Variable geocodeAddress : jsstring -> option coordinates.
Variable getCensusTract : coordinates -> option censusData.

(** [checkNMTCEligibility(address)]. *)
Definition checkNMTCEligibility (address : jsstring)
    : settled (nmtcResult coordinates) :=
  evaluate geocodeAddress
    (fun normalized coords =>
       match getCensusTract coords with
       | None => Rejected (PlainError "Unable to determine census tract")
       | Some census =>
           let eligibilityData := checkLowIncomeEligibility census in
           Fulfilled (mkNmtcResult normalized coords census
                        (eligible eligibilityData)
                        (e_reason eligibilityData)
                        (e_criteria eligibilityData)
                        (eligible eligibilityData))
       end)
    address.

End Service.

End NMTC.

(* ================================================================== *)
(** ** src/services/api/OpportunityZonesService.js *)
(* ================================================================== *)

Module OpportunityZones.
Import Errors Validation Cache.

(** [loadOZTracts()]. *)
Definition loadOZTracts : list jsstring :=
  map str [ "06037206002"; "06037206100"; "06037207300";
            "36061000100"; "36061000200"; "36061000300";
            "17031081800"; "17031081900"; "17031082000" ]%string.

(** [CACHE_TTL.LONG]. *)
Definition LONG : Z := 24 * 60 * 60 * 1000.

(** [list.includes(geoid)]; [None] is a [geoid] that is [undefined]. *)
Definition includes (l : list jsstring) (geoid : option jsstring) : bool :=
  match geoid with
  | Some g => existsb (jsstring_eqb g) l
  | None => false
  end.

Definition ReferenceError (msg : string) : JsError :=
  mkError "ReferenceError" msg.

(** What the identifier [cache] stands for where the methods run: the
    module imports [BaseAPIService] and [CACHE_TTL] only, so it is not
    bound ([None]) unless the environment binds it. *)
Definition scope : Type := option (CacheManager (list jsstring)).

(** [getOpportunityZoneList()]: the list or the thrown error, and the
    cache afterwards.  [now] is the clock reading of [cache.get], [now']
    that of [cache.set]. *)
Definition getOpportunityZoneList (sc : scope) (now now' : Z)
    : (JsError + list jsstring) * scope :=
  match sc with
  | None => (inl (ReferenceError "cache is not defined"), None)
  | Some c =>
      let cacheKey := "oz_list_all"%string in
      let (cached, c1) := get c cacheKey now in
      match cached with
      | JVal l => (inr l, Some c1)
      | JNull =>
          let ozTracts := loadOZTracts in
          (inr ozTracts,
           Some (set c1 cacheKey (JVal ozTracts) (Some LONG) now'))
      end
  end.

(** The object that [lookupOpportunityZone] and [fallbackOZCheck]
    return; [designation] is [details.designation], [None] when
    [details] is [null]. *)
Record ozData : Type := mkOzData {
  isOpportunityZone : bool;
  designation : option string
}.

(** [fallbackOZCheck(geoid)]. *)
Definition fallbackOZCheck (geoid : option jsstring) : ozData :=
  let knownOZs := loadOZTracts in
  let isOZ := includes knownOZs geoid in
  mkOzData isOZ
    (if isOZ
     then Some "Qualified Opportunity Zone (Verified via Census Data)"%string
     else None).

(** [lookupOpportunityZone(geoid)]. *)
Definition lookupOpportunityZone (sc : scope) (geoid : option jsstring)
    (now now' : Z) : ozData * scope :=
  match getOpportunityZoneList sc now now' with
  | (inr ozList, sc') =>
      let isOZ := includes ozList geoid in
      (mkOzData isOZ
         (if isOZ then Some "Qualified Opportunity Zone"%string else None),
       sc')
  | (inl _, sc') => (fallbackOZCheck geoid, sc')
  end.

(** What [checkOpportunityZone] returns, without the fixed benefits;
    [has_benefits] is [benefits !== null]. *)
Record ozResult (coordinates : Type) : Type := mkOzResult {
  r_address : jsstring;
  r_coordinates : coordinates;
  r_censusData : NMTC.censusData;
  r_isOpportunityZone : bool;
  ozDetails : option string;
  has_benefits : bool
}.

Section Service.
Import BaseAPIService.
Variable coordinates : Type.
(** The two network collaborators. *)
Variable geocodeAddress : jsstring -> option coordinates.
Variable getCensusTract : coordinates -> option NMTC.censusData.

(** [checkOpportunityZone(address)], with the binding of [cache] and the
    clock readings of the lookup. *)
Definition checkOpportunityZone (sc : scope) (now now' : Z)
    (address : jsstring) : settled (ozResult coordinates) :=
  evaluate geocodeAddress
    (fun normalized coords =>
       match getCensusTract coords with
       | None => Rejected (PlainError "Unable to determine census tract")
       | Some census =>
           let ozData :=
             fst (lookupOpportunityZone sc (NMTC.geoid census) now now') in
           Fulfilled (mkOzResult normalized coords census
                        (isOpportunityZone ozData) (designation ozData)
                        (isOpportunityZone ozData))
       end)
    address.

End Service.

(** Under the key of the list the cache holds nothing but the list. *)
Definition holds_tracts (sc : scope) : Prop :=
  forall c it,
    sc = Some c ->
    map_get "oz_list_all" (cache c) = Some it ->
    value it = JVal loadOZTracts.

End OpportunityZones.

(* ================================================================== *)
(** ** src/services/api/CPACEService.js *)
(* ================================================================== *)

Module CPACE.
Import Errors Validation BaseAPIService.

(** What the evaluator reads of a program object: [available] and
    [program]; [None] is a property that the object does not have. *)
Record paceProgram : Type := mkProgram {
  p_available : bool;
  p_program : option string
}.

(** [statePrograms]. *)
Definition statePrograms : list (string * paceProgram) :=
  [ ("California", mkProgram true (Some "HERO Program & CaliforniaFIRST"));
    ("New York", mkProgram true (Some "Energize NY"));
    ("Texas", mkProgram true (Some "Multiple local programs"));
    ("Florida", mkProgram true (Some "Florida PACE"));
    ("Colorado", mkProgram true (Some "C-PACE programs")) ]%string.

Fixpoint find_program (k : string) (t : list (string * paceProgram))
    : option paceProgram :=
  match t with
  | [] => None
  | (k', p) :: r => if String.eqb k k' then Some p else find_program k r
  end.

(** [getStatePACEProgram(state)]: under a name that every object
    inherits the lookup finds a function, which is truthy and has
    neither property, read as not available. *)
Definition getStatePACEProgram (state : string) : paceProgram :=
  match find_program state statePrograms with
  | Some p => p
  | None =>
      if existsb (String.eqb state) SBA.inherited_names
      then mkProgram false None
      else mkProgram false (Some "Not available"%string)
  end.

(** [getLocalPACEProgram(state, county)], with the number that
    [Math.random()] returns. *)
Definition getLocalPACEProgram (county : string) (random : Q)
    : paceProgram :=
  let hasLocalProgram := negb (Qle_bool random (7 # 10)) in
  if negb hasLocalProgram
  then mkProgram false (Some "No local program"%string)
  else mkProgram true (Some (county ++ " C-PACE Program")%string).

(** What [checkCPACEAvailability] returns, without the fixed lists;
    [has_benefits] is [benefits !== null] and [has_improvements] is
    [eligibleImprovements !== null]. *)
Record cpaceResult (coordinates : Type) : Type := mkCpaceResult {
  r_address : jsstring;
  r_coordinates : coordinates;
  r_state : string;
  r_county : string;
  cpaceAvailable : bool;
  stateProgram : paceProgram;
  localProgram : paceProgram;
  has_benefits : bool;
  has_improvements : bool
}.

Section Service.
Variable coordinates : Type.
(** The network collaborators; [determineState] answers ['Unknown'] and
    [determineCounty] ['Unknown County'] when the request fails. *)
Variable geocodeAddress : jsstring -> option coordinates.
Variable determineState : coordinates -> string.
Variable determineCounty : coordinates -> string.

(** [checkCPACEAvailability(address)], with the number that
    [Math.random()] returns in the call. *)
Definition checkCPACEAvailability (random : Q) (address : jsstring)
    : settled (cpaceResult coordinates) :=
  evaluate geocodeAddress
    (fun normalized coords =>
       let state := determineState coords in
       let county := determineCounty coords in
       let stateProgram := getStatePACEProgram state in
       let localProgram := getLocalPACEProgram county random in
       let available := p_available stateProgram || p_available localProgram in
       Fulfilled (mkCpaceResult normalized coords state county available
                    stateProgram localProgram available available))
    address.

End Service.

(** The states of [statePrograms]. *)
Definition program_states : list string := map fst statePrograms.

End CPACE.

(* ================================================================== *)
(** ** src/services/api/HistoricTaxCreditsService.js *)
(* ================================================================== *)

Module HistoricTaxCredits.
Import Errors Validation BaseAPIService.
Local Open Scope Q_scope.

(** [array[index]] for an integer index: [None] is [undefined]. *)
Definition at_index {T : Type} (l : list T) (i : Z) : option T :=
  if (i <? 0)%Z then None else nth_error l (Z.to_nat i).

(** An element of the list of [findNearbyHistoricProperties], without
    the identifier and the formatted distance; [number] is the number in
    its name. *)
Record historicProperty : Type := mkProperty {
  number : nat;
  p_type : option string;
  yearListed : Z
}.

(** [checkHistoricDistrict(coordinates)], with the number that
    [Math.random()] returns. *)
Definition checkHistoricDistrict (random : Q) : bool :=
  negb (Qle_bool random (85 # 100)).

(** The three numbers that [Math.random()] returns in one turn of the
    loop: for the distance, the type and the year. *)
Definition turn : Type := (Q * Q * Q)%type.

(** [findNearbyHistoricProperties(coordinates)], with the number that
    [Math.random()] returns for the count and those of each turn of the
    loop. *)
Definition findNearbyHistoricProperties (random : Q) (turns : nat -> turn)
    : list historicProperty :=
  let propertyCount := Qfloor (random * 3) in
  map (fun i =>
         let '(_, type, year) := turns i in
         mkProperty (i + 1)
           (at_index ["Building"; "District"; "Site"]%string
                     (Qfloor (type * 3)))
           (1980 + Qfloor (year * 40))%Z)
      (seq 0 (Z.to_nat propertyCount)).

(** What the evaluator reads of the object of [checkHistoricProperties];
    [has_benefits] is [benefits !== null]. *)
Record federalHTC : Type := mkFederal {
  eligible : bool;
  f_type : string;
  inHistoricDistrict : bool;
  nearbyProperties : list historicProperty;
  has_benefits : bool
}.

(** [checkHistoricProperties(coordinates)]; nothing in its [try] block
    throws. *)
Definition checkHistoricProperties (district count : Q)
    (turns : nat -> turn) : federalHTC :=
  let isInHistoricDistrict := checkHistoricDistrict district in
  let nearbyHistoricProperties := findNearbyHistoricProperties count turns in
  mkFederal
    (isInHistoricDistrict || (0 <? List.length nearbyHistoricProperties)%nat)
    (if isInHistoricDistrict then "Historic District"
     else "Individual Property")%string
    isInHistoricDistrict nearbyHistoricProperties
    (isInHistoricDistrict || (0 <? List.length nearbyHistoricProperties)%nat).

(** [creditRate] in [statePrograms]. *)
Definition creditRates : list (string * string) :=
  [ ("California", "N/A (property tax benefit)");
    ("New York", "20%");
    ("Texas", "25%");
    ("Florida", "N/A (assessment benefit)") ]%string.

Fixpoint find_rate (k : string) (t : list (string * string))
    : option string :=
  match t with
  | [] => None
  | (k', r) :: t' => if String.eqb k k' then Some r else find_rate k t'
  end.

(** [getStateHTCPrograms(state).creditRate]: [None] is [undefined], under
    a name that every object inherits. *)
Definition state_creditRate (state : string) : option string :=
  match find_rate state creditRates with
  | Some r => Some r
  | None =>
      if existsb (String.eqb state) SBA.inherited_names then None
      else Some "Varies by state"%string
  end.

(** The object returned by [calculateCombinedBenefits]: [totalCredits]
    is the number in front of the percent sign. *)
Record combinedBenefits : Type := mkCombined {
  totalCredits : Z;
  stackable : bool
}.

Definition is_rate (creditRate : option string) (r : string) : bool :=
  match creditRate with Some c => String.eqb c r | None => false end.

(** [calculateCombinedBenefits(federalHTC, statePrograms)]. *)
Definition calculateCombinedBenefits (federal : federalHTC)
    (creditRate : option string) : combinedBenefits :=
  if negb (eligible federal) then mkCombined 0 false
  else
    let federalRate := 20%Z in
    let stateRate :=
      if is_rate creditRate "20%" then 20%Z
      else if is_rate creditRate "25%" then 25%Z else 0%Z in
    mkCombined (federalRate + stateRate)%Z (0 <? stateRate)%Z.

(** What [checkHistoricTaxCredits] returns. *)
Record htcResult (coordinates : Type) : Type := mkHtcResult {
  r_address : jsstring;
  r_coordinates : coordinates;
  r_federalHTC : federalHTC;
  r_creditRate : option string;
  combined : combinedBenefits
}.

Section Service.
Variable coordinates : Type.
(** The network collaborators; [determineState] answers ['Unknown'] when
    its request fails. *)
Variable geocodeAddress : jsstring -> option coordinates.
Variable determineState : coordinates -> string.

(** [checkHistoricTaxCredits(address)], with the numbers that
    [Math.random()] returns in the call. *)
Definition checkHistoricTaxCredits (district count : Q)
    (turns : nat -> turn) (address : jsstring)
    : settled (htcResult coordinates) :=
  evaluate geocodeAddress
    (fun normalized coords =>
       let historicData := checkHistoricProperties district count turns in
       let statePrograms := state_creditRate (determineState coords) in
       Fulfilled (mkHtcResult normalized coords historicData statePrograms
                    (calculateCombinedBenefits historicData statePrograms)))
    address.

End Service.

(** A number that [Math.random()] can return. *)
Definition unit_interval (x : Q) : Prop := 0 <= x /\ x < 1.

End HistoricTaxCredits.

(* ================================================================== *)
(** ** src/services/CREIncentivesService.js (the five-program class) *)
(* ================================================================== *)

Module Incentives.
Import Errors Validation BaseAPIService.

(** What the orchestrator reads of an evaluator's returned object: the
    five properties behind availability.  [None] is a property that the
    object does not have; [federalHTC_eligible] is
    [data.federalHTC.eligible]. *)
Record payload : Type := mkPayload {
  isOpportunityZone : option bool;
  federalHTC_eligible : option bool;
  nmtcEligible : option bool;
  cpaceAvailable : option bool;
  eligible : option bool
}.

(** [x || false]. *)
Definition or_false (x : option bool) : bool :=
  match x with Some b => b | None => false end.

(** [determineAvailability(data, programName)]. *)
Definition determineAvailability (data : payload) (programName : string)
    : bool :=
  if String.eqb programName "Opportunity Zones"
  then or_false (isOpportunityZone data)
  else if String.eqb programName "Historic Tax Credits"
  then or_false (federalHTC_eligible data)
  else if String.eqb programName "New Markets Tax Credits"
  then or_false (nmtcEligible data)
  else if String.eqb programName "C-PACE Financing"
  then or_false (cpaceAvailable data)
  else if String.eqb programName "SBA 504 Loans"
  then or_false (eligible data)
  else false.

Inductive Status : Type := success | error.

(** An entry of [incentives]. *)
Record ProgramResult : Type := mkResult {
  status : Status;
  data : option payload;
  available : bool;
  error_message : option string
}.

(** [processResult(result, programName)]. *)
Definition processResult (result : settled payload) (programName : string)
    : ProgramResult :=
  match result with
  | Fulfilled value =>
      mkResult success (Some value)
               (determineAvailability value programName) None
  | Rejected reason =>
      mkResult error None false (Some (message reason))
  end.

(** [projectDetails]. *)
Record projectDetails : Type := mkDetails {
  business : option SBA.businessInfo;
  projectCost : option Q
}.

(** The five evaluators the constructor creates, each as the outcome of
    its promise for the given arguments. *)
Record services : Type := mkServices {
  checkOpportunityZone : jsstring -> settled payload;
  checkHistoricTaxCredits : jsstring -> settled payload;
  checkNMTCEligibility : jsstring -> settled payload;
  checkCPACEAvailability : jsstring -> settled payload;
  checkSBA504Eligibility : jsstring -> SBA.businessInfo -> settled payload
}.

(** An object with string keys, in property order. *)
Definition object (A : Type) : Type := list (string * A).

Inductive Priority : Type := High | Medium | Low.

(** [priorityOrder]. *)
Definition priorityOrder (p : Priority) : Z :=
  match p with High => 3 | Medium => 2 | Low => 1 end%Z.

Record Recommendation : Type := mkRec {
  priority : Priority;
  program : string;
  action : string;
  timeline : string;
  benefit : string;
  requirements : list string
}.

Definition rec_opportunityZones : Recommendation :=
  mkRec High "Opportunity Zones"
    "Structure investment through Qualified Opportunity Fund"
    "Must invest within 180 days of capital gain"
    "Up to 15% reduction in deferred gains + tax-free appreciation"
    ["Substantial improvement of existing buildings";
     "Hold investment for 10+ years"]%string.

Definition rec_historicTaxCredits : Recommendation :=
  mkRec High "Historic Tax Credits"
    "Apply for Part 1 certification before starting work"
    "Begin application process immediately"
    "20% federal tax credit on qualified rehabilitation costs"
    ["Meet Secretary of Interior Standards";
     "Substantial rehabilitation required"]%string.

Definition rec_newMarketsTC : Recommendation :=
  mkRec Medium "New Markets Tax Credits"
    "Contact local CDEs for funding availability"
    "6-12 months for structuring and closing"
    "39% tax credit over 7 years"
    ["Located in Low-Income Community";
     "Meet CDE investment criteria"]%string.

Definition rec_sba504 : Recommendation :=
  mkRec Medium "SBA 504 Loans"
    "Contact Certified Development Company"
    "3-6 months for approval and closing"
    "Fixed-rate financing with only 10% down payment"
    ["Owner occupancy"; "Job creation/retention";
     "2+ years in business"]%string.

Definition rec_cpace : Recommendation :=
  mkRec Low "C-PACE Financing"
    "Conduct energy audit to identify eligible improvements"
    "2-4 months for approval and implementation"
    "100% financing for energy improvements"
    ["Energy savings analysis";
     "Permanently affixed improvements"]%string.

Definition rec_alternative : Recommendation :=
  mkRec Medium "Alternative Financing"
    "Explore conventional financing and local incentives"
    "Ongoing"
    "Market-rate financing options"
    ["Standard underwriting criteria"]%string.

(** [Array.prototype.sort] with a comparator: the sort is stable, so an
    element goes in front of the first one it does not have to follow. *)
Section Sort.
Context {T : Type}.
Variable compare : T -> T -> Z.

Fixpoint insert (x : T) (l : list T) : list T :=
  match l with
  | [] => [x]
  | y :: r => if (compare x y <=? 0)%Z then x :: l else y :: insert x r
  end.

Fixpoint sort (l : list T) : list T :=
  match l with
  | [] => []
  | x :: r => insert x (sort r)
  end.

End Sort.

(** The comparator of [generateRecommendations]. *)
Definition by_priority (a b : Recommendation) : Z :=
  (priorityOrder (priority b) - priorityOrder (priority a))%Z.

(** A comparator of the shape [(a, b) => weight[b] - weight[a]]. *)
Definition by_weight {T : Type} (weight : T -> Z) (a b : T) : Z :=
  (weight b - weight a)%Z.

(** [Object.entries(incentives).filter(([, program]) => program.available)
      .map(([key]) => key)]. *)
Definition available_keys (incentives : object ProgramResult) : list string :=
  map fst (filter (fun e => available (snd e)) incentives).

(** [array.includes(key)]. *)
Definition includes (l : list string) (k : string) : bool :=
  existsb (String.eqb k) l.

(** The [push] guarded by an [if]. *)
Definition push_if (b : bool) (r : Recommendation)
    (l : list Recommendation) : list Recommendation :=
  if b then (l ++ [r])%list else l.

(** [generateRecommendations(incentives, projectDetails)]. *)
Definition generateRecommendations (incentives : object ProgramResult)
    : list Recommendation :=
  let availableIncentives := available_keys incentives in
  let r0 := [] in
  let r1 := push_if (includes availableIncentives "opportunityZones")
                    rec_opportunityZones r0 in
  let r2 := push_if (includes availableIncentives "historicTaxCredits")
                    rec_historicTaxCredits r1 in
  let r3 := push_if (includes availableIncentives "newMarketsTC")
                    rec_newMarketsTC r2 in
  let r4 := push_if (includes availableIncentives "sba504") rec_sba504 r3 in
  let r5 := push_if (includes availableIncentives "cpace") rec_cpace r4 in
  let r6 := match r5 with [] => [rec_alternative] | _ => r5 end in
  sort by_priority r6.

(** The part of the analysis object that the properties below are about;
    [location], [summary] and [stackingOpportunities] are further total
    functions of the same outcomes. *)
Record Analysis : Type := mkAnalysis {
  address : jsstring;
  incentives : object ProgramResult;
  recommendations : list Recommendation
}.

(** [analyzeProperty(address, projectDetails = {})] for a string
    [address]: [inl] is the error the call throws. *)
Definition analyzeProperty (svc : services) (address : jsstring)
    (details : projectDetails) : JsError + Analysis :=
  match address with
  | [] => inl (ValidationError "Valid address is required")
  | _ =>
      let ozResults := checkOpportunityZone svc address in
      let htcResults := checkHistoricTaxCredits svc address in
      let nmtcResults := checkNMTCEligibility svc address in
      let cpaceResults := checkCPACEAvailability svc address in
      let sbaResults :=
        checkSBA504Eligibility svc address
          (SBA.default SBA.no_info (business details)) in
      let incentives :=
        [ ("opportunityZones", processResult ozResults "Opportunity Zones");
          ("historicTaxCredits",
             processResult htcResults "Historic Tax Credits");
          ("newMarketsTC",
             processResult nmtcResults "New Markets Tax Credits");
          ("cpace", processResult cpaceResults "C-PACE Financing");
          ("sba504", processResult sbaResults "SBA 504 Loans") ]%string in
      inr (mkAnalysis address incentives (generateRecommendations incentives))
  end.

(** *** The financial projections of the report *)

Local Open Scope Q_scope.

(** [Math.round]. *)
Definition round (x : Q) : Z := Qfloor (x + (1 # 2)).

(** The object returned by [calculateBaseCase]. *)
Record baseCase : Type := mkBase {
  b_projectCost : Q;
  downPayment : Q;
  loanAmount : Q;
  monthlyPayment : Z;
  totalInterest : Z;
  totalCost : Z
}.

(** [calculateBaseCase(projectCost)]. *)
Definition calculateBaseCase (projectCost : Q) : baseCase :=
  let downPayment := projectCost * (25 # 100) in
  let loanAmount := projectCost * (75 # 100) in
  let interestRate := 7 # 100 in
  let term := 20%Z in
  let monthlyRate := interestRate / 12 in
  let payments := (term * 12)%Z in
  let monthlyPayment :=
    loanAmount * (monthlyRate * (1 + monthlyRate) ^ payments)
    / ((1 + monthlyRate) ^ payments - 1) in
  mkBase projectCost downPayment loanAmount
         (round monthlyPayment)
         (round (monthlyPayment * inject_Z payments - loanAmount))
         (round (downPayment + monthlyPayment * inject_Z payments)).






Definition Qgt_bool (a b : Q) : bool := negb (Qle_bool a b).





(** *** Vocabulary of the properties *)

(** The keys of [incentives], in property order. *)
Definition program_keys : list string :=
  ["opportunityZones"; "historicTaxCredits"; "newMarketsTC"; "cpace";
   "sba504"]%string.

(** The property of an object under a key. *)
Fixpoint entry {T : Type} (key : string) (o : object T) : option T :=
  match o with
  | [] => None
  | (k, v) :: r => if String.eqb key k then Some v else entry key r
  end.

(** The evaluator behind a key of [incentives]: its display name and the
    outcome of its promise in a call of [analyzeProperty]. *)
Definition evaluator_of (svc : services) (address : jsstring)
    (details : projectDetails) : object (string * settled payload) :=
  [ ("opportunityZones",
       ("Opportunity Zones", checkOpportunityZone svc address));
    ("historicTaxCredits",
       ("Historic Tax Credits", checkHistoricTaxCredits svc address));
    ("newMarketsTC",
       ("New Markets Tax Credits", checkNMTCEligibility svc address));
    ("cpace", ("C-PACE Financing", checkCPACEAvailability svc address));
    ("sba504",
       ("SBA 504 Loans",
        checkSBA504Eligibility svc address
          (SBA.default SBA.no_info (business details)))) ]%string.

(** The recommendation of each program, in the order of the [if]s of
    [generateRecommendations]. *)
Definition program_recommendations : object Recommendation :=
  [ ("opportunityZones", rec_opportunityZones);
    ("historicTaxCredits", rec_historicTaxCredits);
    ("newMarketsTC", rec_newMarketsTC);
    ("sba504", rec_sba504);
    ("cpace", rec_cpace) ]%string.

(** One recommendation per available program, in that order. *)
Definition recommended (incentives : object ProgramResult)
    : list Recommendation :=
  map snd (filter (fun e => includes (available_keys incentives) (fst e))
                  program_recommendations).

(** [a] may stand in front of [b]: its weight is not smaller. *)
Definition not_below (a b : Recommendation) : Prop :=
  (priorityOrder (priority b) <= priorityOrder (priority a))%Z.

Definition has_weight (w : Z) (r : Recommendation) : bool :=
  (priorityOrder (priority r) =? w)%Z.


(** An [incentives] object with the five keys and the given
    availabilities, every evaluator having succeeded. *)
Definition incentives_with (oz htc nmtc cpace sba : bool)
    : object ProgramResult :=
  let p := mkPayload (Some oz) (Some htc) (Some nmtc) (Some cpace) (Some sba) in
  [ ("opportunityZones", mkResult success (Some p) oz None);
    ("historicTaxCredits", mkResult success (Some p) htc None);
    ("newMarketsTC", mkResult success (Some p) nmtc None);
    ("cpace", mkResult success (Some p) cpace None);
    ("sba504", mkResult success (Some p) sba None) ]%string.

(** *** The summary, the stacking table and the report's estimates *)

Local Open Scope Z_scope.

(** A value of [programMap]. *)
Record programInfo : Type := mkInfo {
  info_name : string;
  shortDescription : string;
  estimatedValue : Z;
  timeframe : string;
  complexity : string
}.

(** [programMap]. *)
Definition programMap : object programInfo :=
  [ ("opportunityZones",
       mkInfo "Opportunity Zones"
              "Tax deferral and elimination on capital gains"
              150000 "10 years for maximum benefit" "Medium");
    ("historicTaxCredits",
       mkInfo "Historic Tax Credits"
              "20% federal tax credit on rehabilitation costs"
              200000 "5 years to claim credits" "High");
    ("newMarketsTC",
       mkInfo "New Markets Tax Credits" "39% tax credit over 7 years"
              390000 "7 years" "High");
    ("cpace",
       mkInfo "C-PACE Financing" "100% financing for energy improvements"
              50000 "Up to 25 years" "Low");
    ("sba504",
       mkInfo "SBA 504 Loans" "Low down payment, fixed-rate financing"
              75000 "10-20 years" "Medium") ]%string.

(** [getProgramSummaryInfo(key, data)], for a key that is one of the map
    or that no object has. *)
Definition getProgramSummaryInfo (key : string) : programInfo :=
  match entry key programMap with
  | Some info => info
  | None => mkInfo "Unknown Program" "Program details not available" 0
                   "Unknown" "Unknown"
  end.

Inductive Risk : Type := HighRisk | MediumRisk | LowRisk.

(** [assessRiskLevel(availablePrograms)]. *)
Definition assessRiskLevel (availablePrograms : list programInfo) : Risk :=
  if (List.length availablePrograms =? 0)%nat then HighRisk
  else if (3 <=? List.length availablePrograms)%nat then LowRisk
  else MediumRisk.

Definition is_success (s : Status) : bool :=
  match s with success => true | error => false end.

(** The object returned by [generateSummary]. *)
Record Summary : Type := mkSummary {
  totalProgramsAvailable : nat;
  availablePrograms : list programInfo;
  potentialPrograms : list programInfo;
  estimatedTotalValue : Z;
  primaryRecommendation : string;
  riskLevel : Risk
}.

(** The callback of the [forEach] of [generateSummary], on
    [(availablePrograms, potentialPrograms, totalEstimatedValue)]. *)
Definition summarize (acc : list programInfo * list programInfo * Z)
    (e : string * ProgramResult)
    : list programInfo * list programInfo * Z :=
  let '(avail, potential, total) := acc in
  let (key, program) := e in
  if is_success (status program) && available program
  then let info := getProgramSummaryInfo key in
       ((avail ++ [info])%list, potential, total + estimatedValue info)
  else if is_success (status program) && negb (available program)
  then (avail, (potential ++ [getProgramSummaryInfo key])%list, total)
  else acc.

(** [generateSummary(incentives)]. *)
Definition generateSummary (incentives : object ProgramResult) : Summary :=
  let '(avail, potential, total) := fold_left summarize incentives ([], [], 0) in
  mkSummary (List.length avail) avail potential total
            (match avail with
             | first :: _ => info_name first
             | [] => "Explore alternative financing options"%string
             end)
            (assessRiskLevel avail).

(** [getProgramName(key)], for a key that is one of the map or that no
    object has. *)
Definition getProgramName (key : string) : string :=
  if String.eqb key "opportunityZones" then "Opportunity Zones"
  else if String.eqb key "historicTaxCredits" then "Historic Tax Credits"
  else if String.eqb key "newMarketsTC" then "New Markets Tax Credits"
  else if String.eqb key "cpace" then "C-PACE"
  else if String.eqb key "sba504" then "SBA 504"
  else key.

(** An element of [stackingOpportunities]; [stack_value] is its
    [estimatedValue]. *)
Record StackingPair : Type := mkStack {
  programs : list string;
  compatibility : Priority;
  combinedBenefit : string;
  considerations : list string;
  stack_value : string
}.

(** [available.filter(p => p !== key)]. *)
Definition others (key : string) (available : list string) : list string :=
  filter (fun p => negb (String.eqb p key)) available.

(** [identifyStackingOpportunities(incentives)]. *)
Definition identifyStackingOpportunities (incentives : object ProgramResult)
    : list StackingPair :=
  let available := available_keys incentives in
  let s0 := [] in
  let s1 :=
    if includes available "historicTaxCredits"
       && includes available "opportunityZones"
    then (s0 ++ [mkStack ["Historic Tax Credits"; "Opportunity Zones"] High
                   "Federal HTC + OZ capital gains benefits"
                   ["Ensure OZ compliance with historic standards";
                    "Timing coordination required"]
                   "Very High"])%list%string
    else s0 in
  let s2 :=
    if includes available "newMarketsTC"
       && includes available "historicTaxCredits"
    then (s1 ++ [mkStack ["New Markets Tax Credits"; "Historic Tax Credits"]
                   Medium "NMTC + HTC can exceed 50% of project cost"
                   ["Complex structuring required";
                    "Professional expertise essential"]
                   "Very High"])%list%string
    else s1 in
  let s3 :=
    if includes available "sba504"
    then let otherPrograms := others "sba504" available in
         if (0 <? List.length otherPrograms)%nat
         then (s2 ++ [mkStack ("SBA 504" :: map getProgramName otherPrograms)
                        High "Low-cost debt + tax credit benefits"
                        ["SBA approval of other incentives may be required"]
                        "High"])%list%string
         else s2
    else s2 in
  if includes available "cpace" && (1 <? List.length available)%nat
  then (s3 ++ [mkStack ("C-PACE" :: map getProgramName (others "cpace" available))
                 High "Energy financing + tax benefits"
                 ["C-PACE generally compatible with other programs"]
                 "Medium"])%list%string
  else s3.

(** [timeframes[p] || 6], for a key that is one of the table or that no
    object has. *)
Definition timeframe_months (p : string) : Z :=
  if String.eqb p "opportunityZones" then 12
  else if String.eqb p "historicTaxCredits" then 18
  else if String.eqb p "newMarketsTC" then 12
  else if String.eqb p "cpace" then 6
  else if String.eqb p "sba504" then 6
  else 6.

(** [Math.max(...list)]: [None] is [-Infinity], the maximum of nothing. *)
Definition max_of (l : list Z) : option Z :=
  fold_left (fun m x => match m with
                        | None => Some x
                        | Some y => Some (Z.max y x)
                        end) l None.

Inductive Horizon : Type :=
| Months18plus
| Months12to18
| Months6to12
| Months3to6.

(** [estimateTimeToRealization(analysis)], on the [incentives] of the
    analysis. *)
Definition estimateTimeToRealization (incentives : object ProgramResult)
    : Horizon :=
  match max_of (map timeframe_months (available_keys incentives)) with
  | None => Months3to6
  | Some maxTime =>
      if 18 <=? maxTime then Months18plus
      else if 12 <=? maxTime then Months12to18
      else if 6 <=? maxTime then Months6to12
      else Months3to6
  end.

(** [assessImplementationComplexity(analysis)], on the [incentives] of
    the analysis. *)
Definition assessImplementationComplexity
    (incentives : object ProgramResult) : Priority :=
  let complexPrograms := ["historicTaxCredits"; "newMarketsTC"]%string in
  let availablePrograms := available_keys incentives in
  let hasComplexPrograms :=
    existsb (fun p => includes complexPrograms p) availablePrograms in
  if hasComplexPrograms && (2 <? List.length availablePrograms)%nat then High
  else if hasComplexPrograms || (1 <? List.length availablePrograms)%nat
  then Medium
  else Low.

(** An element of [nextSteps]. *)
Record NextStep : Type := mkStep {
  step : nat;
  step_priority : Priority;
  step_action : string;
  step_timeline : string;
  responsible : string;
  dependencies : list string
}.

(** The [forEach((rec, index) => ...)] of [generateNextSteps], from a
    given index on. *)
Fixpoint next_steps_from (index : nat) (recs : list Recommendation)
    : list NextStep :=
  match recs with
  | [] => []
  | rec :: rest =>
      mkStep (index + 1) (priority rec) (action rec) (timeline rec)
             "Property Owner/Development Team" (requirements rec)
      :: next_steps_from (S index) rest
  end.

(** [generateNextSteps(analysis)], on the recommendations of the
    analysis. *)
Definition generateNextSteps (recs : list Recommendation) : list NextStep :=
  next_steps_from 0 recs.

(** [criticalPath] of [generateImplementationPlan]:
    [analysis.recommendations.slice(0, 3)]. *)
Definition criticalPath (recs : list Recommendation) : list Recommendation :=
  firstn 3 recs.

(** *** The evaluators as the orchestrator sees them *)

(** A promise's outcome with its value transformed. *)
Definition settled_map {X Y : Type} (f : X -> Y) (s : settled X) : settled Y :=
  match s with
  | Fulfilled v => Fulfilled (f v)
  | Rejected e => Rejected e
  end.

(** The object of the SBA service through the five properties that the
    orchestrator reads: it has [eligible] and none of the others. *)
Definition sba_view {C : Type} (r : SBA.sbaResult C) : payload :=
  mkPayload None None None None (Some (SBA.r_eligible r)).

(** The object of the NMTC service, which has [nmtcEligible]. *)
Definition nmtc_view {C : Type} (r : NMTC.nmtcResult C) : payload :=
  mkPayload None None (Some (NMTC.nmtcEligible r)) None None.

(** The object of the C-PACE service, which has [cpaceAvailable]. *)
Definition cpace_view {C : Type} (r : CPACE.cpaceResult C) : payload :=
  mkPayload None None None (Some (CPACE.cpaceAvailable r)) None.

(** The entries of [incentives] that are errors. *)
Definition failed_entries (incentives : object ProgramResult)
    : object ProgramResult :=
  filter (fun e => negb (is_success (status (snd e)))) incentives.

(** [calculateProgramValue(key, data)], for a key that is one of the
    table or that no object has. *)
Definition calculateProgramValue (key : string) : Z :=
  if String.eqb key "opportunityZones" then 150000
  else if String.eqb key "historicTaxCredits" then 200000
  else if String.eqb key "newMarketsTC" then 390000
  else if String.eqb key "cpace" then 50000
  else if String.eqb key "sba504" then 75000
  else 0.

(** The sum of a list of numbers. *)
Definition total (l : list Z) : Z := fold_right Z.add 0 l.

(** An entry as [processResult] makes it: the program of a failed
    evaluator is not available. *)
Definition coherent (r : ProgramResult) : Prop :=
  status r = error -> available r = false.


End Incentives.

(* ================================================================== *)
(** * Properties *)
(* ================================================================== *)

(** ** The cache *)

Section CacheFacts.
Import Cache.
Context {A : Type}.
Implicit Types (m : store A) (c : CacheManager A) (it : item A).
Local Open Scope Z_scope.

Lemma map_get_set_same k it m : map_get k (map_set k it m) = Some it.
Proof.
  induction m as [|[k' it'] r IH]; simpl.
  - now rewrite String.eqb_refl.
  - destruct (String.eqb k k') eqn:E; simpl.
    + now rewrite String.eqb_refl.
    + now rewrite E.
Qed.

Lemma map_get_delete_same k m : map_get k (map_delete k m) = None.
Proof.
  induction m as [|[k' it'] r IH]; simpl; trivial.
  destruct (String.eqb k k') eqn:E; simpl; trivial.
  now rewrite E.
Qed.

Lemma map_get_In k it m : map_get k m = Some it -> In (k, it) m.
Proof.
  induction m as [|[k' it'] r IH]; simpl; [discriminate|].
  destruct (String.eqb k k') eqn:E.
  - apply String.eqb_eq in E. intros [= ->]. subst. now left.
  - intros H. right. now apply IH.
Qed.

Lemma map_delete_absent k m : map_get k m = None -> map_delete k m = m.
Proof.
  induction m as [|[k' it'] r IH]; simpl; trivial.
  destruct (String.eqb k k'); [discriminate|].
  intros H. now rewrite IH.
Qed.

Lemma map_get_delete_none k k0 m :
  map_get k m = None -> map_get k (map_delete k0 m) = None.
Proof.
  induction m as [|[k' it'] r IH]; simpl; trivial.
  destruct (String.eqb k k') eqn:E; [discriminate|].
  intros H. destruct (String.eqb k0 k'); simpl; auto.
  rewrite E. auto.
Qed.

Lemma map_set_absent k it m :
  map_get k m = None -> map_set k it m = (m ++ [(k, it)])%list.
Proof.
  induction m as [|[k' it'] r IH]; simpl; trivial.
  destruct (String.eqb k k'); [discriminate|].
  intros H. now rewrite IH.
Qed.

Lemma Forall_map_delete (P : string * item A -> Prop) k m :
  Forall P m -> Forall P (map_delete k m).
Proof.
  induction 1 as [|[k' it'] r Hx Hr IH]; simpl; [constructor|].
  destruct (String.eqb k k'); auto.
Qed.

Lemma Forall_map_set (P : string * item A -> Prop) k it m :
  Forall P m -> P (k, it) -> Forall P (map_set k it m).
Proof.
  induction 1 as [|[k' it'] r Hx Hr IH]; simpl; intros Hk.
  - auto.
  - destruct (String.eqb k k'); auto.
Qed.

Lemma Forall_evict_first (P : string * item A -> Prop) m :
  Forall P m -> Forall P (evict_first m).
Proof.
  destruct m as [|[k it] r]; simpl; [auto|].
  intros H. rewrite String.eqb_refl.
  inversion H; subst. now apply Forall_map_delete.
Qed.

Lemma Forall_delete_all (P : string * item A -> Prop) ks m :
  Forall P m -> Forall P (fold_left (fun m k => map_delete k m) ks m).
Proof.
  revert m. induction ks as [|k ks IH]; simpl; intros m H; trivial.
  apply IH. now apply Forall_map_delete.
Qed.

(** [get] answers from the binding of the key, and only while the clock
    has not passed its expiry. *)
Lemma get_value_inv c k now v c' :
  get c k now = (v, c') -> v <> JNull ->
  exists it, map_get k (cache c) = Some it /\ value it = v
             /\ now <= expiresAt it.
Proof.
  unfold get. destruct (map_get k (cache c)) as [it|] eqn:E.
  - destruct (expiresAt it <? now) eqn:L.
    + intros [= <- _] H. now elim H.
    + intros [= <- _] _. exists it. repeat split; trivial.
      apply Z.ltb_ge in L. lia.
  - intros [= <- _] H. now elim H.
Qed.

(** An expired binding is answered with [null] and removed. *)
Lemma get_expired c k now it :
  map_get k (cache c) = Some it -> expiresAt it < now ->
  get c k now = (JNull, with_cache c (map_delete k (cache c))).
Proof.
  intros E L. unfold get. rewrite E.
  apply Z.ltb_lt in L. now rewrite L.
Qed.

(** What [set] leaves under its key. *)
Lemma get_after_set c k v ttl now :
  map_get k (cache (set c k v (Some ttl) now))
  = Some (mkItem v (now + ttl) now).
Proof. unfold set; simpl. apply map_get_set_same. Qed.

Lemma justified_mono dflt (h h' : list (Z * op A)) e :
  incl h h' -> justified dflt h e -> justified dflt h' e.
Proof. intros I (ts & ttl & H & E). exists ts, ttl. split; auto. Qed.

Lemma step_defaultTTL c e : defaultTTL (step c e) = defaultTTL c.
Proof.
  destruct e as [now o]. destruct o; simpl; trivial.
  - unfold get. destruct (map_get key (cache c)); trivial.
    destruct (_ <? _); trivial.
  - unfold has, get. destruct (map_get key (cache c)); trivial.
    destruct (_ <? _); trivial.
Qed.

Lemma get_preserves (P : string * item A -> Prop) c k now :
  Forall P (cache c) -> Forall P (cache (snd (get c k now))).
Proof.
  intros H. unfold get.
  destruct (map_get k (cache c)) as [it|] eqn:E; simpl; trivial.
  destruct (_ <? _); simpl.
  - now apply Forall_map_delete.
  - apply Forall_map_set.
    + now apply Forall_map_delete.
    + apply map_get_In in E. rewrite Forall_forall in H. now apply H.
Qed.

Lemma step_justified c hist e :
  Forall (justified (defaultTTL c) hist) (cache c) ->
  Forall (justified (defaultTTL c) (hist ++ [e])) (cache (step c e)).
Proof.
  intros H.
  assert (H' : Forall (justified (defaultTTL c) (hist ++ [e])) (cache c)).
  { eapply Forall_impl; [|exact H]. intros x.
    apply justified_mono. now apply incl_appl. }
  clear H. destruct e as [now o]. destruct o; simpl.
  - apply Forall_map_set.
    + destruct (_ <=? _)%nat; trivial. now apply Forall_evict_first.
    + exists now, ttl. simpl. split; trivial.
      apply in_or_app. right. now left.
  - now apply get_preserves.
  - unfold has. pose proof (get_preserves c key now H') as G.
    destruct (get c key now); exact G.
  - now apply Forall_map_delete.
  - constructor.
  - now apply Forall_delete_all.
Qed.

Lemma run_justified tr : forall c hist,
  Forall (justified (defaultTTL c) hist) (cache c) ->
  Forall (justified (defaultTTL c) (hist ++ tr)) (cache (run c tr))
  /\ defaultTTL (run c tr) = defaultTTL c.
Proof.
  induction tr as [|e tr IH]; intros c hist H; simpl.
  - now rewrite app_nil_r.
  - pose proof (@step_justified c hist e H) as S.
    rewrite <- (step_defaultTTL c e) in S.
    destruct (IH _ _ S) as [I D].
    rewrite <- app_assoc in I. simpl in I.
    rewrite step_defaultTTL in I, D. now split.
Qed.

(** *** A key is bound at most once *)

Lemma keys_map_delete k k' m :
  In k' (keys (map_delete k m)) -> In k' (keys m).
Proof.
  induction m as [|[k0 it0] r IH]; simpl; trivial.
  destruct (String.eqb k k0); simpl; intuition.
Qed.

Lemma keys_map_set k it k' m :
  In k' (keys (map_set k it m)) -> k' = k \/ In k' (keys m).
Proof.
  induction m as [|[k0 it0] r IH]; simpl.
  - intuition.
  - destruct (String.eqb k k0) eqn:E; simpl.
    + apply String.eqb_eq in E. subst. intuition.
    + intuition.
Qed.

Lemma NoDup_map_delete k m : NoDup (keys m) -> NoDup (keys (map_delete k m)).
Proof.
  induction m as [|[k0 it0] r IH]; simpl; trivial.
  intros H. inversion H; subst.
  destruct (String.eqb k k0); simpl; auto.
  constructor; auto. intros I. now apply keys_map_delete in I.
Qed.

Lemma NoDup_map_set k it m : NoDup (keys m) -> NoDup (keys (map_set k it m)).
Proof.
  induction m as [|[k0 it0] r IH]; simpl.
  - intros _. repeat constructor. intros [].
  - intros H. inversion H; subst.
    destruct (String.eqb k k0) eqn:E; simpl.
    + apply String.eqb_eq in E. subst. now constructor.
    + constructor; auto. intros I.
      apply keys_map_set in I. destruct I as [->|I]; auto.
      now rewrite String.eqb_refl in E.
Qed.

Lemma NoDup_evict_first m : NoDup (keys m) -> NoDup (keys (evict_first m)).
Proof.
  destruct m as [|[k it] r]; trivial.
  intros H. now apply NoDup_map_delete.
Qed.

Lemma NoDup_delete_all ks : forall m,
  NoDup (keys m) ->
  NoDup (keys (fold_left (fun m k => map_delete k m) ks m)).
Proof.
  induction ks as [|k ks IH]; simpl; intros m H; trivial.
  apply IH. now apply NoDup_map_delete.
Qed.

(** Every method keeps the keys of the store distinct, as a [Map] does. *)
Lemma step_NoDup c e : NoDup (keys (cache c)) -> NoDup (keys (cache (step c e))).
Proof.
  intros H. destruct e as [now o]. destruct o; simpl.
  - apply NoDup_map_set. destruct (_ <=? _)%nat; trivial.
    now apply NoDup_evict_first.
  - unfold get. destruct (map_get key (cache c)); simpl; trivial.
    destruct (_ <? _); simpl.
    + now apply NoDup_map_delete.
    + now apply NoDup_map_set, NoDup_map_delete.
  - unfold has, get. destruct (map_get key (cache c)); simpl; trivial.
    destruct (_ <? _); simpl.
    + now apply NoDup_map_delete.
    + now apply NoDup_map_set, NoDup_map_delete.
  - now apply NoDup_map_delete.
  - constructor.
  - now apply NoDup_delete_all.
Qed.

Lemma run_NoDup tr : forall c,
  NoDup (keys (cache c)) -> NoDup (keys (cache (run c tr))).
Proof.
  induction tr as [|e tr IH]; intros c H; simpl; trivial.
  apply IH. now apply step_NoDup.
Qed.

(** A key that is not yet bound is appended: it becomes the most recently
    used one. *)
Lemma set_new_key_last c k v ttl now :
  map_get k (cache c) = None ->
  exists m, cache (set c k v ttl now)
            = (m ++ [(k, mkItem v (now + effective_ttl (defaultTTL c) ttl) now)])%list
            /\ m = (if (maxSize c <=? List.length (cache c))%nat
                    then evict_first (cache c) else cache c).
Proof.
  intros H. eexists. split; [|reflexivity].
  unfold set; simpl. apply map_set_absent.
  destruct (_ <=? _)%nat; trivial.
  destruct (cache c) as [|[k0 it0] r]; simpl in *; trivial.
  rewrite String.eqb_refl.
  destruct (String.eqb k k0); [discriminate|].
  now apply map_get_delete_none.
Qed.

(** On a full store whose keys are distinct, the eviction of [set] takes
    the binding at the front and nothing else. *)
Lemma evict_first_front k it (r : store A) :
  ~ In k (keys r) -> evict_first ((k, it) :: r) = r.
Proof.
  intros H. simpl. rewrite String.eqb_refl.
  apply map_delete_absent.
  induction r as [|[k' it'] r IH]; simpl in *; trivial.
  destruct (String.eqb k k') eqn:E.
  - apply String.eqb_eq in E. subst. elim H. now left.
  - apply IH. intros I. apply H. now right.
Qed.

Lemma keys_app (m1 m2 : store A) : keys (m1 ++ m2) = (keys m1 ++ keys m2)%list.
Proof. unfold keys. apply map_app. Qed.

Lemma map_get_not_in k m : ~ In k (keys m) -> map_get k m = None.
Proof.
  induction m as [|[k' it'] r IH]; simpl; trivial.
  intros H. destruct (String.eqb k k') eqn:E.
  - apply String.eqb_eq in E. subst. elim H. now left.
  - apply IH. intros I. apply H. now right.
Qed.

(** On a full store of distinct keys, [set] of a new key evicts exactly
    the key at the front, the least recently used one, and appends the
    new key. *)
Lemma set_at_capacity_evicts_front c k v ttl now :
  NoDup (keys (cache c)) -> List.length (cache c) = maxSize c ->
  (0 < maxSize c)%nat -> ~ In k (keys (cache c)) ->
  keys (cache (set c k v ttl now)) = (tl (keys (cache c)) ++ [k])%list.
Proof.
  intros Hnd Hlen Hpos Hk.
  destruct (@set_new_key_last c k v ttl now (@map_get_not_in k _ Hk))
    as (m & E & Em).
  rewrite E, keys_app. simpl. f_equal. subst m.
  rewrite Hlen, Nat.leb_refl.
  destruct (cache c) as [|[k0 it0] r]; [simpl in Hlen; lia|].
  simpl in Hnd. inversion Hnd; subst.
  now rewrite evict_first_front.
Qed.

(** C1 (amended).  For every key, value and [ttl > 0]: [get(k)] at the
    clock reading of [set(k, v, ttl)] returns [v], and so it does as long
    as no more than [ttl] has elapsed since the [set], also when exactly
    [ttl] has elapsed; once MORE than [ttl] has elapsed, [get(k)] returns
    a miss and the entry is deleted; and under any access pattern on a
    fresh cache, a value that [get] returns was stored by a [set] of that
    key whose expiry (its clock reading plus its time to live) the clock
    has not passed. *)
Theorem cache_get_never_past_expiry
    (c : CacheManager A) (k : string) (v : jsval A) (ttl now : Z) :
  0 < ttl ->
  fst (get (set c k v (Some ttl) now) k now) = v
  /\ fst (get (set c k v (Some ttl) now) k (now + ttl)) = v
  /\ (forall elapsed, 0 <= elapsed <= ttl ->
        fst (get (set c k v (Some ttl) now) k (now + elapsed)) = v)
  /\ (forall elapsed, ttl < elapsed ->
        let r := get (set c k v (Some ttl) now) k (now + elapsed) in
        fst r = JNull /\ map_get k (cache (snd r)) = None)
  /\ (forall (tr : list (Z * op A)) k' t a,
        fst (get (run new_CacheManager tr) k' t) = JVal a ->
        exists ts ttl',
          In (ts, OpSet k' (JVal a) ttl') tr
          /\ t <= ts + effective_ttl (defaultTTL (@new_CacheManager A)) ttl').
Proof.
  intros Httl.
  assert (Live : forall elapsed, 0 <= elapsed <= ttl ->
            fst (get (set c k v (Some ttl) now) k (now + elapsed)) = v).
  { intros elapsed He. unfold get. rewrite get_after_set. simpl.
    assert (L : (now + ttl <? now + elapsed) = false)
      by (apply Z.ltb_ge; lia).
    now rewrite L. }
  split; [|split; [|split; [|split]]].
  - rewrite <- (Z.add_0_r now) at 2. apply Live. lia.
  - apply Live. lia.
  - exact Live.
  - intros elapsed He r. subst r.
    rewrite (@get_expired (set c k v (Some ttl) now) k (now + elapsed)
               (mkItem v (now + ttl) now)).
    + simpl. split; trivial. apply map_get_delete_same.
    + apply get_after_set.
    + simpl. lia.
  - intros tr k' t a G.
    destruct (get (run new_CacheManager tr) k' t) as [r c'] eqn:E.
    simpl in G. subst r.
    destruct (get_value_inv _ _ _ E) as (it & M & V & L); [discriminate|].
    destruct (@run_justified tr new_CacheManager []) as [I _];
      [constructor|].
    rewrite app_nil_l, Forall_forall in I.
    destruct (I _ (map_get_In _ _ M)) as (ts & ttl' & H1 & H2).
    cbn [fst snd] in H1, H2. rewrite V in H1.
    exists ts, ttl'. split; trivial. lia.
Qed.

(** C3.  [Map.prototype.set] leaves an existing key where it is: when the
    key is already bound and the store is below capacity, [set] changes
    the value and the expiry but not the recency order, so the key does
    not move to the most-recently-used position. *)
Theorem cache_set_existing_key_keeps_position
    (c : CacheManager A) (k : string) (v : jsval A) (ttl : option Z)
    (now : Z) :
  (List.length (cache c) < maxSize c)%nat ->
  map_has k (cache c) = true ->
  keys (cache (set c k v ttl now)) = keys (cache c).
Proof.
  intros Hcap Hk. unfold set; simpl.
  assert (E : (maxSize c <=? List.length (cache c))%nat = false)
    by (apply Nat.leb_gt; lia).
  rewrite E. clear E Hcap. unfold map_has in Hk.
  induction (cache c) as [|[k' it'] r IH]; simpl in *; [discriminate|].
  destruct (String.eqb k k') eqn:Ek; simpl.
  - apply String.eqb_eq in Ek. now subst.
  - f_equal. now apply IH.
Qed.

(** C9 (amended).  [delete(key)] and [clear()] act on the underlying
    store only; [has(key)] is [get(key) !== null] and changes the cache
    as [get] does: nothing when the key is not bound, the binding removed
    when it has expired, the binding moved to the most-recently-used end
    when it is live. *)
Theorem cache_has_delete_clear (c : CacheManager A) (k : string) (now : Z) :
  delete c k = (map_has k (cache c), with_cache c (map_delete k (cache c)))
  /\ cache (clear c) = []
  /\ has c k now = (negb (is_null (fst (get c k now))), snd (get c k now))
  /\ has c k now =
     match map_get k (cache c) with
     | None => (false, c)
     | Some it =>
         if expiresAt it <? now
         then (false, with_cache c (map_delete k (cache c)))
         else (negb (is_null (value it)),
               with_cache c (map_delete k (cache c) ++ [(k, it)])%list)
     end.
Proof.
  repeat split.
  - unfold has. now destruct (get c k now).
  - unfold has, get. destruct (map_get k (cache c)) as [it|]; trivial.
    destruct (_ <? _); trivial. simpl.
    now rewrite map_set_absent by apply map_get_delete_same.
Qed.

End CacheFacts.

(** C1: the witness, on a fresh cache of numbers. *)
Lemma cache_get_never_past_expiry_witness :
  (0 < 1000)%Z
  /\ fst (Cache.get (Cache.set Cache.new_CacheManager "k" (Cache.JVal 7%nat)
                       (Some 1000%Z) 0%Z) "k" 0%Z) = Cache.JVal 7%nat
  /\ fst (Cache.get (Cache.set Cache.new_CacheManager "k" (Cache.JVal 7%nat)
                       (Some 1000%Z) 0%Z) "k" (0 + 1001)%Z) = Cache.JNull.
Proof.
  assert (H : (0 < 1000)%Z) by lia.
  destruct (@cache_get_never_past_expiry nat Cache.new_CacheManager "k"
              (Cache.JVal 7%nat) 1000%Z 0%Z H) as (H1 & _ & _ & H2 & _).
  split; [exact H|]. split; [exact H1|].
  apply (H2 1001%Z). lia.
Defined.

(** C1: when exactly [ttl] has elapsed, [get] still returns the value. *)
Lemma cache_get_at_expiry_counterexample :
  let ttl := 1000%Z in
  let elapsed := 1000%Z in
  (0 < ttl)%Z /\ (ttl <= elapsed)%Z
  /\ fst (Cache.get
            (Cache.set Cache.new_CacheManager "k" (Cache.JVal 7%nat)
               (Some ttl) 0%Z)
            "k" (0 + elapsed)%Z)
     = Cache.JVal 7%nat
  /\ fst (Cache.get
            (Cache.set Cache.new_CacheManager "k" (Cache.JVal 7%nat)
               (Some ttl) 0%Z)
            "k" (0 + elapsed)%Z)
     <> Cache.JNull.
Proof. simpl. repeat split; try lia. discriminate. Qed.

(** C3: the witness: [set('a')], [set('b')], then [set('a')] again. *)
Lemma cache_set_existing_key_keeps_position_witness :
  let c := Cache.set (Cache.set Cache.new_CacheManager "a" (Cache.JVal 1%nat)
                        (Some 1000%Z) 0%Z)
                     "b" (Cache.JVal 2%nat) (Some 1000%Z) 1%Z in
  Cache.keys (Cache.cache c) = ["a"; "b"]%string
  /\ Cache.keys (Cache.cache (Cache.set c "a" (Cache.JVal 3%nat)
                                (Some 1000%Z) 2%Z))
     = Cache.keys (Cache.cache c).
Proof.
  split; [reflexivity|].
  apply (@cache_set_existing_key_keeps_position nat); simpl.
  - lia.
  - reflexivity.
Defined.

(** With room for three entries: ['a'] is set, then ['b'], then ['a']
    again, then ['c'] and ['d'].  The eviction for ['d'] takes ['a'], the
    key set after ['b'], and keeps ['b']. *)
Example cache_evicts_updated_key :
  let c0 := Cache.mkCache ([] : Cache.store nat) 300000%Z 3 in
  let c1 := Cache.set c0 "a" (Cache.JVal 1%nat) (Some 1000%Z) 0%Z in
  let c2 := Cache.set c1 "b" (Cache.JVal 2%nat) (Some 1000%Z) 1%Z in
  let c3 := Cache.set c2 "a" (Cache.JVal 3%nat) (Some 1000%Z) 2%Z in
  let c4 := Cache.set c3 "c" (Cache.JVal 4%nat) (Some 1000%Z) 3%Z in
  let c5 := Cache.set c4 "d" (Cache.JVal 5%nat) (Some 1000%Z) 4%Z in
  Cache.keys (Cache.cache c4) = ["a"; "b"; "c"]%string
  /\ Cache.keys (Cache.cache c5) = ["b"; "c"; "d"]%string.
Proof. split; reflexivity. Qed.

(** C9: [has] on a live key moves it behind the others, and [has] on an
    expired key removes it. *)
Lemma cache_has_mutates_counterexample :
  let c := Cache.set (Cache.set Cache.new_CacheManager "a" (Cache.JVal 1%nat)
                        (Some 1000%Z) 0%Z)
                     "b" (Cache.JVal 2%nat) (Some 5000%Z) 1%Z in
  Cache.keys (Cache.cache c) = ["a"; "b"]%string
  /\ Cache.keys (Cache.cache (snd (Cache.has c "a" 5%Z))) = ["b"; "a"]%string
  /\ Cache.keys (Cache.cache (snd (Cache.has c "a" 2000%Z))) = ["b"]%string
  /\ snd (Cache.has c "a" 5%Z) <> c.
Proof. simpl. repeat split. discriminate. Qed.

(** ** The orchestrator *)

Section SortFacts.
Import Incentives.
Context {T : Type}.
Variable weight : T -> Z.

Lemma insert_perm x l : Permutation (insert (by_weight weight) x l) (x :: l).
Proof.
  induction l as [|y r IH]; simpl; [reflexivity|].
  destruct (by_weight weight x y <=? 0)%Z; [reflexivity|].
  rewrite IH. apply perm_swap.
Qed.

Lemma sort_perm l : Permutation (sort (by_weight weight) l) l.
Proof.
  induction l as [|x r IH]; simpl; [constructor|].
  rewrite insert_perm. now constructor.
Qed.

Lemma insert_sorted x l :
  StronglySorted (fun a b => (weight b <= weight a)%Z) l ->
  StronglySorted (fun a b => (weight b <= weight a)%Z) (insert (by_weight weight) x l).
Proof.
  induction 1 as [|y r Hr IH Hy]; simpl.
  - repeat constructor.
  - unfold by_weight at 1. destruct (weight y - weight x <=? 0)%Z eqn:E.
    + apply Z.leb_le in E. constructor; [now constructor|].
      constructor; [lia|].
      rewrite Forall_forall in *. intros z Hz. specialize (Hy z Hz). lia.
    + apply Z.leb_gt in E. constructor; trivial.
      rewrite Forall_forall in *. intros z Hz.
      apply (Permutation_in _ (insert_perm x r)) in Hz.
      destruct Hz as [<-|Hz]; [lia|auto].
Qed.

Lemma sort_sorted l :
  StronglySorted (fun a b => (weight b <= weight a)%Z) (sort (by_weight weight) l).
Proof.
  induction l as [|x r IH]; simpl; [constructor|].
  now apply insert_sorted.
Qed.

Lemma insert_stable w x l :
  filter (fun y => (weight y =? w)%Z) (insert (by_weight weight) x l)
  = filter (fun y => (weight y =? w)%Z) (x :: l).
Proof.
  induction l as [|y r IH]; simpl; trivial.
  unfold by_weight at 1. destruct (weight y - weight x <=? 0)%Z eqn:E; trivial.
  apply Z.leb_gt in E. simpl in *. rewrite IH.
  destruct (weight x =? w)%Z eqn:Ex; trivial.
  destruct (weight y =? w)%Z eqn:Ey; trivial.
  apply Z.eqb_eq in Ex, Ey. lia.
Qed.

(** Elements of equal weight keep their order. *)
Lemma sort_stable w l :
  filter (fun y => (weight y =? w)%Z) (sort (by_weight weight) l)
  = filter (fun y => (weight y =? w)%Z) l.
Proof.
  induction l as [|x r IH]; simpl; trivial.
  rewrite insert_stable. simpl. now rewrite IH.
Qed.

End SortFacts.

(** ** The rounding of binary64 *)

Section Binary64Facts.
Local Open Scope Q_scope.

(** The nearest integer is within one half. *)
Lemma nearest_even_near (x : Q) :
  x - (1 # 2) <= inject_Z (Binary64.nearest_even x)
  /\ inject_Z (Binary64.nearest_even x) <= x + (1 # 2).
Proof.
  unfold Binary64.nearest_even.
  pose proof (Qfloor_le x) as L. pose proof (Qlt_floor x) as U.
  rewrite inject_Z_plus in U. change (inject_Z 1) with 1 in U.
  destruct (Qcompare _ _) eqn:C.
  - apply Qeq_alt in C.
    destruct (Z.even _); rewrite ?inject_Z_plus;
      change (inject_Z 1) with 1; lra.
  - apply Qlt_alt in C. lra.
  - apply Qgt_alt in C. rewrite inject_Z_plus.
    change (inject_Z 1) with 1. lra.
Qed.

Lemma two_power_positive (e : Z) : 0 < 2 ^ e.
Proof. apply Qpower_0_lt. reflexivity. Qed.

(** [ilog2] gives a power of two that is not above its argument. *)
Lemma ilog2_below (a : Q) : 0 < a -> 2 ^ Binary64.ilog2 a <= a.
Proof.
  intros H. unfold Binary64.ilog2.
  set (k := (Z.log2 (Qnum a) - Z.log2 (Z.pos (Qden a)))%Z).
  destruct (Qle_bool (2 ^ k) a) eqn:E; [now apply Qle_bool_iff|].
  destruct a as [n d]. cbn [Qnum Qden] in k.
  assert (N : (0 < n)%Z).
  { unfold Qlt in H. cbn in H. lia. }
  destruct (Z.log2_spec n N) as (N1 & _).
  destruct (Z.log2_spec (Z.pos d) (Pos2Z.is_pos d)) as (_ & D2).
  assert (Ln : (0 <= Z.log2 n)%Z) by apply Z.log2_nonneg.
  assert (Ld : (0 <= Z.log2 (Z.pos d))%Z) by apply Z.log2_nonneg.
  replace (k - 1)%Z with (Z.log2 n + - (Z.succ (Z.log2 (Z.pos d))))%Z
    by (subst k; lia).
  rewrite Qpower_plus by discriminate. rewrite Qpower_opp.
  change 2 with (inject_Z 2).
  rewrite <- !Zpower_Qpower by lia.
  set (p := (2 ^ Z.log2 n)%Z) in *.
  set (q := (2 ^ Z.succ (Z.log2 (Z.pos d)))%Z) in *.
  assert (Q0 : (0 < q)%Z) by lia.
  assert (P0 : (0 < p)%Z) by (subst p; apply Z.pow_pos_nonneg; lia).
  apply Qle_shift_div_r; [rewrite <- (Zlt_Qlt 0); exact Q0|].
  unfold Qle, Qmult, inject_Z. cbn [Qnum Qden].
  rewrite Z.mul_1_r, Pos.mul_1_r.
  nia.
Qed.

(** The grid of the format around [a] is at most [a * 2 ^ -52] wide, or
    [2 ^ emin] among the smallest numbers. *)
Lemma grid_width (a : Q) :
  0 < a ->
  2 ^ Z.max (Binary64.ilog2 a - 52) Binary64.emin
  <= a * (1 # 4503599627370496) + 2 ^ Binary64.emin.
Proof.
  intros H. pose proof (ilog2_below H) as B.
  pose proof (two_power_positive Binary64.emin) as E.
  destruct (Z.max_spec (Binary64.ilog2 a - 52) Binary64.emin)
    as [(_ & ->)|(_ & ->)]; [lra|].
  replace (Binary64.ilog2 a - 52)%Z with (Binary64.ilog2 a + -52)%Z by lia.
  rewrite Qpower_plus by discriminate.
  change (2 ^ (-52)) with (1 # 4503599627370496).
  lra.
Qed.

(** Rounding moves a positive number by at most half the width of the
    grid around it. *)
Lemma round_positive_near (a : Q) :
  0 < a ->
  let w := a * (1 # 9007199254740992) + 2 ^ (-1075) in
  a - w <= Binary64.round_positive a /\ Binary64.round_positive a <= a + w.
Proof.
  intros H w. subst w. unfold Binary64.round_positive.
  pose proof (grid_width H) as G.
  set (e := Z.max _ _) in *.
  pose proof (two_power_positive e) as P.
  destruct (nearest_even_near (a / 2 ^ e)) as (L & U).
  set (m := inject_Z (Binary64.nearest_even (a / 2 ^ e))) in *.
  assert (A : a / 2 ^ e * 2 ^ e == a) by (field; lra).
  assert (T : 2 ^ Binary64.emin == 2 * 2 ^ (-1075)).
  { change Binary64.emin with (1 + -1075)%Z.
    rewrite Qpower_plus by discriminate. reflexivity. }
  revert L U A G. generalize (a / 2 ^ e). intros y L U A G.
  revert P G L U A. generalize (2 ^ e). intros t P G L U A.
  rewrite T in G. revert G. generalize (2 ^ (-1075)). intros v G.
  split; nra.
Qed.

Lemma nearest_even_nonnegative (x : Q) :
  0 <= x -> (0 <= Binary64.nearest_even x)%Z.
Proof.
  intros H. unfold Binary64.nearest_even.
  assert (F : (0 <= Qfloor x)%Z).
  { change 0%Z with (Qfloor 0). now apply Qfloor_resp_le. }
  destruct (Qcompare _ _); [destruct (Z.even _)| |]; lia.
Qed.

Lemma round_positive_nonnegative (a : Q) :
  0 <= a -> 0 <= Binary64.round_positive a.
Proof.
  intros H. unfold Binary64.round_positive. set (e := Z.max _ _).
  pose proof (two_power_positive e) as P.
  apply Qmult_le_0_compat; [|lra].
  change 0 with (inject_Z 0). rewrite <- Zle_Qle.
  apply nearest_even_nonnegative.
  apply Qle_shift_div_l; [exact P|]. lra.
Qed.

(** Rounding to binary64 keeps a value that is not negative so. *)
Lemma binary64_round_nonnegative (x : Q) : 0 <= x -> 0 <= Binary64.round x.
Proof.
  intros H. unfold Binary64.round.
  destruct (Qcompare x 0) eqn:C.
  - apply Qle_refl.
  - apply Qlt_alt in C. lra.
  - now apply round_positive_nonnegative.
Qed.

(** The relative error of rounding is at most [2 ^ -53], apart from an
    absolute error of at most [2 ^ -1075] among the smallest numbers. *)
Lemma binary64_round_near (x : Q) :
  0 <= x ->
  x * (1 - (1 # 9007199254740992)) - (1 # 1000000000000000000000000000000)
  <= Binary64.round x
  /\ Binary64.round x
     <= x * (1 + (1 # 9007199254740992))
        + (1 # 1000000000000000000000000000000).
Proof.
  intros H. unfold Binary64.round.
  assert (V : 2 ^ (-1075) <= 1 # 1000000000000000000000000000000)
    by (apply Qle_bool_iff; vm_compute; reflexivity).
  destruct (Qcompare x 0) eqn:C.
  - apply Qeq_alt in C. split; lra.
  - apply Qlt_alt in C. lra.
  - apply Qgt_alt in C. destruct (round_positive_near C) as (L & U).
    revert V L U. generalize (2 ^ (-1075)). intros v V L U. split; lra.
Qed.

(** Rounding does not lift a value above a bound by more than the
    rounding error of the bound. *)
Lemma binary64_round_below (x c : Q) :
  x <= c -> 0 <= c ->
  Binary64.round x
  <= c * (1 + (1 # 9007199254740992))
     + (1 # 1000000000000000000000000000000).
Proof.
  intros H Hc. destruct (Qlt_le_dec x 0) as [N|P].
  - unfold Binary64.round.
    destruct (Qcompare x 0) eqn:C.
    + lra.
    + assert (0 <= Binary64.round_positive (- x))
        by (apply round_positive_nonnegative; lra).
      lra.
    + apply Qgt_alt in C. lra.
  - destruct (binary64_round_near P) as (_ & U). lra.
Qed.

End Binary64Facts.

Section Binary64Kernel.
Import PrimFloat.

(** The credits of a project with Historic and New Markets Tax Credits,
    as the kernel's floats compute them and as the model does. *)
Example credits_agree_with_the_kernel :
  option_map Qred (Binary64.value 0.2%float) = Some (Qred Binary64.fifth)
  /\ option_map Qred (Binary64.value 0.39%float)
     = Some (Qred Binary64.thirty_nine_hundredths)
  /\ forallb (fun x => Binary64.agrees_on x 0.2%float
                       && Binary64.agrees_on (x * 0.25) 0.39%float
                       && Binary64.add_agrees_on 0 (x * 0.2)
                       && Binary64.add_agrees_on (x * 0.2)
                            (x * 0.25 * 0.39)
                       && Binary64.sub_agrees_on (x * 0.25)
                            (x * 0.25 * 0.39))
       [ 1003; 12754196.22; 3000003; 1000000; 2000000; 155000; 1; 0.3;
         154909.70; 1e12; 1e-320 ]%float
     = true
  /\ (0 + 1003 * 0.2 + 1003 * 0.25 * 0.39 =? 298.39250000000004)%float
     = true
  /\ option_map Qred (Binary64.value 298.39250000000004%float)
     = Some (Qred (Binary64.add
                     (Binary64.add 0 (Binary64.mul 1003 Binary64.fifth))
                     (Binary64.mul (Binary64.mul 1003 (25 # 100))
                                   Binary64.thirty_nine_hundredths))).
Proof. vm_compute. repeat split. Qed.

End Binary64Kernel.

Section OrchestratorFacts.
Import Errors Validation BaseAPIService Incentives.

Lemma by_priority_weight :
  by_priority = by_weight (fun r => priorityOrder (priority r)).
Proof. reflexivity. Qed.

(** C2.  For every call of [analyzeProperty] with a non-empty string
    address the call returns, [incentives] has exactly the five program
    keys, and the entry of each key is made from the outcome of that
    key's own evaluator alone: a normalized error record (status
    ['error'], not available, no data, the failure's message) when it
    failed, its success record when it succeeded.  So two calls whose
    evaluators agree on one key agree on that key's entry, whatever the
    other evaluators did. *)
Theorem analyzeProperty_isolates_evaluators
    (svc : services) (address : jsstring) (details : projectDetails) :
  address <> [] ->
  exists an,
    analyzeProperty svc address details = inr an
    /\ map fst (incentives an) = program_keys
    /\ (forall key name outcome,
          entry key (evaluator_of svc address details) = Some (name, outcome) ->
          entry key (incentives an)
          = Some (match outcome with
                  | Fulfilled v =>
                      mkResult success (Some v)
                               (determineAvailability v name) None
                  | Rejected e => mkResult error None false (Some (message e))
                  end))
    /\ (forall svc' an' key,
          analyzeProperty svc' address details = inr an' ->
          entry key (evaluator_of svc address details)
          = entry key (evaluator_of svc' address details) ->
          entry key (incentives an) = entry key (incentives an')).
Proof.
  intros Hne. destruct address as [|c0 rest]; [now elim Hne|].
  eexists. split; [reflexivity|]. split; [reflexivity|]. split.
  - intros key name outcome H. simpl in *.
    repeat (destruct (String.eqb key _);
            [injection H as <- <-; unfold processResult; reflexivity|]).
    discriminate.
  - intros svc' an' key E H. simpl in E. injection E as <-. simpl in *.
    repeat (destruct (String.eqb key _);
            [injection H as ->; reflexivity|]).
    reflexivity.
Qed.

(** C4.  For every [incentives] object, [generateRecommendations] returns
    one recommendation per available program, each with the fixed
    priority of its program (Opportunity Zones and Historic Tax Credits
    High, New Markets TC and SBA 504 Medium, C-PACE Low), or the single
    alternative-financing recommendation when no program is available;
    the list is sorted by descending weight (High 3, Medium 2, Low 1),
    and the sort keeps the order of equal priorities.  With C-PACE,
    SBA 504 and Opportunity Zones available, the order is Opportunity
    Zones, SBA 504, C-PACE. *)
Theorem generateRecommendations_ranked (inc : object ProgramResult) :
  generateRecommendations inc
  = match recommended inc with
    | [] => [rec_alternative]
    | l => l
    end
  /\ StronglySorted not_below (generateRecommendations inc)
  /\ map (fun e => priority (snd e)) program_recommendations
     = [High; High; Medium; Medium; Low]
  /\ (forall l : list Recommendation,
        Permutation (sort by_priority l) l
        /\ StronglySorted not_below (sort by_priority l)
        /\ forall w, filter (has_weight w) (sort by_priority l)
                     = filter (has_weight w) l)
  /\ generateRecommendations (incentives_with true false false true true)
     = [rec_opportunityZones; rec_sba504; rec_cpace].
Proof.
  assert (S : forall l : list Recommendation,
             Permutation (sort by_priority l) l
             /\ StronglySorted not_below (sort by_priority l)
             /\ forall w, filter (has_weight w) (sort by_priority l)
                          = filter (has_weight w) l).
  { intros l. rewrite by_priority_weight. split; [|split].
    - apply (sort_perm (fun r => priorityOrder (priority r))).
    - apply (sort_sorted (fun r => priorityOrder (priority r))).
    - intros w. apply (sort_stable (fun r => priorityOrder (priority r))). }
  split; [|split; [|split; [|split]]]; trivial.
  - unfold generateRecommendations, recommended. simpl.
    destruct (includes (available_keys inc) "opportunityZones");
    destruct (includes (available_keys inc) "historicTaxCredits");
    destruct (includes (available_keys inc) "newMarketsTC");
    destruct (includes (available_keys inc) "sba504");
    destruct (includes (available_keys inc) "cpace"); reflexivity.
  - unfold generateRecommendations. apply S.
Qed.

Local Open Scope Q_scope.





(** The conventional scenario of a 2,000,000 project. *)
Example calculateBaseCase_example :
  let b := calculateBaseCase 2000000 in
  monthlyPayment b = 11629%Z /\ totalInterest b = 1291076%Z
  /\ totalCost b = 3291076%Z.
Proof. vm_compute. repeat split. Qed.


End OrchestratorFacts.

(** C2: the witness: the Opportunity Zones evaluator fails, the other four
    succeed. *)
Lemma analyzeProperty_isolates_evaluators_witness :
  let ok := Incentives.mkPayload (Some true) (Some true) (Some false)
                                 (Some true) (Some false) in
  let svc :=
    Incentives.mkServices
      (fun _ => BaseAPIService.Rejected
                  (Errors.PlainError "Unable to geocode address"))
      (fun _ => BaseAPIService.Fulfilled ok)
      (fun _ => BaseAPIService.Fulfilled ok)
      (fun _ => BaseAPIService.Fulfilled ok)
      (fun _ _ => BaseAPIService.Fulfilled ok) in
  let address := Validation.str "12 Main Street" in
  address <> []
  /\ exists an,
       Incentives.analyzeProperty svc address (Incentives.mkDetails None None)
       = inr an
       /\ map fst (Incentives.incentives an) = Incentives.program_keys
       /\ Incentives.entry "opportunityZones" (Incentives.incentives an)
          = Some (Incentives.mkResult Incentives.error None false
                    (Some "Unable to geocode address"%string))
       /\ Incentives.entry "cpace" (Incentives.incentives an)
          = Some (Incentives.mkResult Incentives.success (Some ok) true None).
Proof.
  intros ok svc address.
  assert (H : address <> []) by discriminate.
  split; [exact H|].
  destruct (@analyzeProperty_isolates_evaluators svc address
              (Incentives.mkDetails None None) H) as (an & E & K & P & _).
  exists an. split; [exact E|]. split; [exact K|]. split.
  - apply (P "opportunityZones"%string "Opportunity Zones"%string
             (BaseAPIService.Rejected
                (Errors.PlainError "Unable to geocode address"))).
    reflexivity.
  - apply (P "cpace"%string "C-PACE Financing"%string
             (BaseAPIService.Fulfilled ok)).
    reflexivity.
Defined.



(** ** SBA 504 eligibility *)

Section SBAFacts.
Import PrimFloat SBA.
Local Open Scope Q_scope.

(** The rounding on the products that the kernel's floats compute the
    same: project costs times [0.10], among them the smallest numbers of
    the format and a tie. *)
Example round_agrees_with_the_kernel :
  option_map Qred (Binary64.value 0.1%float) = Some (Qred Binary64.tenth)
  /\ option_map Qred (Binary64.value 0.4%float)
     = Some (Qred Binary64.two_fifths)
  /\ forallb (fun x => Binary64.agrees_on x 0.1%float)
       [ 43; 3000003; 1234567; 0.11; 4178825.68; 1003; 2000000; 1e300;
         -43; 3; 0.1; 123456789.123; 1e-310;
         0x1p-1074; 0x3p-1074; 0x5p-1074; 0x1p-1022;
         0x1.fffffffffffffp1023 ]%float
     = true
  /\ forallb (fun x => Binary64.agrees_on x 0.5%float)
       [ 0x1p-1074; 0x3p-1074; 0x5p-1074; 0x7p-1074; 0.11; 43 ]%float
     = true.
Proof. vm_compute. repeat split. Qed.

(** C5 (amended).  For every [businessInfo], [assessSBA504Eligibility]
    answers eligible exactly when all six of its checks pass: the size
    standard, at least two years of business age, owner equity of at
    least the product of the project cost and [0.10] as binary64 rounds
    it, owner occupancy of at least 51, and the two checks that are
    always true (creditworthiness and job creation).  Business age and
    owner occupancy are blocking checks like the others.  The rounding
    counts: an equity of 4.3 passes for a project cost of 43, although
    the number that 4.3 denotes is below a tenth of 43. *)
Theorem sba504_eligible_iff_all_checks (b : businessInfo) :
  let a := assessSBA504Eligibility b in
  eligible a
  = checkSizeStandards (default 0 (employeeCount b))
                       (default 0 (averageAnnualReceipts b))
                       (default "other"%string (industry b))
    && Qle_bool 2 (default 0 (businessAge b))
    && Qle_bool (Binary64.round (default 0 (projectCost b) * Binary64.tenth))
                (default 0 (ownerEquity b))
    && Qle_bool 51 (default 51 (ownerOccupancy b))
  /\ chk_creditworthiness (checks a) = true
  /\ chk_jobCreation (checks a) = true
  /\ (eligible a = true <-> Forall (fun check => check = true) (values (checks a)))
  /\ (forall equity,
        Binary64.value 4.3%float = Some equity ->
        equity < 43 * (1 # 10)
        /\ chk_ownerEquity
             (checks (assessSBA504Eligibility (equity_only equity 43)))
           = true).
Proof.
  intros a. subst a. unfold assessSBA504Eligibility.
  cbn [eligible checks values chk_sizeStandards chk_businessAge
       chk_ownerEquity chk_ownerOccupancy chk_creditworthiness
       chk_jobCreation forallb].
  unfold Qge_bool, Binary64.mul.
  set (s := checkSizeStandards _ _ _).
  set (g := Qle_bool 2 _). set (e := Qle_bool (Binary64.round _) _).
  set (o := Qle_bool 51 _).
  split; [|split; [|split; [|split]]]; trivial.
  - destruct s, g, e, o; reflexivity.
  - split.
    + intros H. destruct s, g, e, o; try discriminate.
      repeat constructor.
    + intros H. rewrite Forall_forall in H.
      assert (Hs : s = true) by (apply H; simpl; tauto).
      assert (Hg : g = true) by (apply H; simpl; tauto).
      assert (He : e = true) by (apply H; simpl; tauto).
      assert (Ho : o = true) by (apply H; simpl; tauto).
      now rewrite Hs, Hg, He, Ho.
  - intros equity E. vm_compute in E. injection E as <-.
    split; [reflexivity|]. vm_compute. reflexivity.
Qed.

End SBAFacts.

(** C5: a business that passes the size standard, the equity minimum and
    job creation, and is one year old, is not eligible; neither is a
    five-year-old one with 50% owner occupancy; and neither is the empty
    [businessInfo] that the orchestrator passes by default. *)
Lemma sba504_age_and_occupancy_block_counterexample :
  let young := SBA.mkBusinessInfo (Some 10%Q) (Some 1000000%Q)
                 (Some "retail"%string) (Some 1%Q) (Some 200000%Q)
                 (Some 1000000%Q) (Some 100%Q) in
  let tenant := SBA.mkBusinessInfo (Some 10%Q) (Some 1000000%Q)
                  (Some "retail"%string) (Some 5%Q) (Some 200000%Q)
                  (Some 1000000%Q) (Some 50%Q) in
  (SBA.chk_sizeStandards (SBA.checks (SBA.assessSBA504Eligibility young)) = true
   /\ SBA.chk_ownerEquity (SBA.checks (SBA.assessSBA504Eligibility young)) = true
   /\ SBA.chk_jobCreation (SBA.checks (SBA.assessSBA504Eligibility young)) = true
   /\ SBA.chk_ownerOccupancy (SBA.checks (SBA.assessSBA504Eligibility young)) = true
   /\ SBA.eligible (SBA.assessSBA504Eligibility young) = false)
  /\ (SBA.chk_sizeStandards (SBA.checks (SBA.assessSBA504Eligibility tenant)) = true
      /\ SBA.chk_ownerEquity (SBA.checks (SBA.assessSBA504Eligibility tenant)) = true
      /\ SBA.chk_jobCreation (SBA.checks (SBA.assessSBA504Eligibility tenant)) = true
      /\ SBA.chk_businessAge (SBA.checks (SBA.assessSBA504Eligibility tenant)) = true
      /\ SBA.eligible (SBA.assessSBA504Eligibility tenant) = false)
  /\ SBA.eligible (SBA.assessSBA504Eligibility SBA.no_info) = false.
Proof. vm_compute. repeat split. Qed.

(** ** NMTC low-income determination *)

Section NMTCFacts.
Import Validation NMTC.

(** The closure's state stays strictly inside the modulus. *)
Lemma random_state_bounded (h : Z) :
  (-233280 < snd (random h) < 233280)%Z.
Proof.
  unfold random. cbn [snd].
  pose proof (Z.rem_bound_abs (h * 9301 + 49297) 233280) as B.
  assert (N : (233280 <> 0)%Z) by lia. specialize (B N). lia.
Qed.

(** The demographics are the first five draws of the generator seeded by
    the hash of the geoid. *)
Lemma simulateCensusDemographics_draws (g : jsstring) :
  let h0 := seed_hash g in
  let h1 := snd (random h0) in
  let h2 := snd (random h1) in
  let h3 := snd (random h2) in
  let h4 := snd (random h3) in
  let h5 := snd (random h4) in
  simulateCensusDemographics g
  = mkDemographics (5 + Qmake h1 233280 * 35)%Q
                   ((4 # 10) + Qmake h2 233280 * (6 # 10))%Q
                   (Qlt_bool (Qmake h3 233280) (1 # 10))
                   (Qfloor (1000 + Qmake h4 233280 * 9000))
                   (Qfloor (25000 + Qmake h5 233280 * 75000)).
Proof. reflexivity. Qed.

Example seed_hash_example :
  seed_hash (str "ab") = 3105%Z
  /\ seed_hash (str "11001006202") = (-40254705)%Z.
Proof. split; reflexivity. Qed.

(** The hash is a signed 32-bit integer, and [%] keeps its sign: for this
    geoid the first draw is negative. *)
Example simulateCensusDemographics_example :
  let d := simulateCensusDemographics (str "11001006202") in
  (povertyRate d == -222779 # 11664)%Q
  /\ (medianIncomeRatio d == 128909 # 388800)%Q
  /\ inEmpowermentZone d = true
  /\ eligible (checkLowIncomeEligibility
                 (mkCensus (str "006202") (str "001") (str "11")
                           (Some (str "11001006202")))) = true.
Proof. vm_compute. repeat split. Qed.

(** An address without a letter never reaches the collaborators. *)
Example checkNMTCEligibility_rejects_digits :
  forall (C : Type) (geocode : jsstring -> option C)
         (tract : C -> option censusData),
    checkNMTCEligibility geocode tract (str "20500")
    = BaseAPIService.Rejected
        (Errors.ValidationError
           "Invalid address: Address should include a street name").
Proof. reflexivity. Qed.

Local Open Scope Z_scope.

(** Assigning to the newest closure. *)
Lemma assign_last (H : Stateful.closures) (x y : Z) :
  Stateful.assign (List.length H) y (H ++ [x]) = (H ++ [y])%list.
Proof. induction H as [|h r IH]; cbn; [reflexivity|now rewrite IH]. Qed.

(** A call of the newest closure. *)
Lemma call_newest (H : Stateful.closures) (hash : Z) :
  Stateful.call (List.length H) (H ++ [hash])
  = (fst (random hash), (H ++ [next hash])%list).
Proof.
  unfold Stateful.call. rewrite nth_middle, assign_last. reflexivity.
Qed.

(** A run creates one closure, leaves the others alone and returns what
    the function of the geoid returns. *)
Lemma stateful_simulate (g : jsstring) (H : Stateful.closures) :
  Stateful.simulateCensusDemographics g H
  = (simulateCensusDemographics g,
     (H ++ [next (next (next (next (next (seed_hash g)))))])%list).
Proof.
  unfold Stateful.simulateCensusDemographics, Stateful.seededRandom.
  rewrite !call_newest. reflexivity.
Qed.

(** The verdict of a run does not depend on the closures it finds. *)
Lemma stateful_check (c : censusData) (H : Stateful.closures) :
  fst (Stateful.checkLowIncomeEligibility c H) = checkLowIncomeEligibility c.
Proof.
  unfold Stateful.checkLowIncomeEligibility, checkLowIncomeEligibility.
  destruct (geoid c) as [g|]; [|reflexivity].
  rewrite stateful_simulate. reflexivity.
Qed.

Local Open Scope Q_scope.

(** The three qualification tests, as tests on the generator's state. *)
Lemma poverty_threshold (h : Z) :
  Qle_bool 20 (5 + Qmake h 233280 * 35) = true <-> (99978 <= h)%Z.
Proof.
  rewrite Qle_bool_iff. unfold Qle, Qplus, Qmult. cbn [Qnum Qden].
  rewrite ?Pos2Z.inj_mul. lia.
Qed.

Lemma income_threshold (h : Z) :
  Qle_bool ((4 # 10) + Qmake h 233280 * (6 # 10)) (8 # 10) = true
  <-> (h <= 155520)%Z.
Proof.
  rewrite Qle_bool_iff. unfold Qle, Qplus, Qmult. cbn [Qnum Qden].
  rewrite ?Pos2Z.inj_mul. lia.
Qed.

Lemma zone_threshold (h : Z) :
  Qlt_bool (Qmake h 233280) (1 # 10) = true <-> (h < 23328)%Z.
Proof.
  unfold Qlt_bool. rewrite negb_true_iff. split.
  - intros H. destruct (Z_lt_ge_dec h 23328) as [L|G]; [exact L|].
    assert (X : Qle_bool (1 # 10) (Qmake h 233280) = true).
    { apply Qle_bool_iff. unfold Qle. cbn [Qnum Qden]. lia. }
    congruence.
  - intros L. destruct (Qle_bool (1 # 10) (Qmake h 233280)) eqn:X; trivial.
    apply Qle_bool_iff in X. unfold Qle in X. cbn [Qnum Qden] in X. lia.
Qed.

(** C10.  Two census records with the same geoid, whatever their other
    fields and whatever closures earlier runs have left behind, get the
    same simulated demographics and the same eligibility verdict with
    the same reasons and criteria.  A record without a geoid is not
    eligible and creates no closure.  With a geoid, a run creates one
    closure of its own and leaves the earlier ones as they were; with
    [h1], [h2], [h3] the first three states of the generator seeded by
    the hash of the geoid, the poverty rate is at least 20 exactly when
    [99978 <= h1], the median-income ratio at most 0.8 exactly when
    [h2 <= 155520], the empowerment-zone flag is [h3 < 23328], and the
    record is eligible exactly when one of the three holds. *)
Theorem nmtc_determination_depends_on_geoid_only
    (c1 c2 : censusData) (H1 H2 : Stateful.closures) :
  geoid c1 = geoid c2 ->
  fst (Stateful.checkLowIncomeEligibility c1 H1)
  = fst (Stateful.checkLowIncomeEligibility c2 H2)
  /\ (geoid c1 = None ->
      eligible (fst (Stateful.checkLowIncomeEligibility c1 H1)) = false
      /\ snd (Stateful.checkLowIncomeEligibility c1 H1) = H1)
  /\ (forall g, geoid c1 = Some g ->
        let h1 := next (seed_hash g) in
        let h2 := next h1 in
        let h3 := next h2 in
        let d := fst (Stateful.simulateCensusDemographics g H1) in
        d = fst (Stateful.simulateCensusDemographics g H2)
        /\ firstn (List.length H1)
                  (snd (Stateful.simulateCensusDemographics g H1)) = H1
        /\ List.length (snd (Stateful.simulateCensusDemographics g H1))
           = S (List.length H1)
        /\ (Qle_bool 20 (povertyRate d) = true <-> (99978 <= h1)%Z)
        /\ (Qle_bool (medianIncomeRatio d) (8 # 10) = true
            <-> (h2 <= 155520)%Z)
        /\ (inEmpowermentZone d = true <-> (h3 < 23328)%Z)
        /\ (eligible (fst (Stateful.checkLowIncomeEligibility c1 H1)) = true
            <-> (99978 <= h1)%Z \/ (h2 <= 155520)%Z \/ (h3 < 23328)%Z)
        /\ e_criteria (fst (Stateful.checkLowIncomeEligibility c2 H2))
           = Some (mkCriteria (povertyRate d) (medianIncomeRatio d)
                     (inEmpowermentZone d)
                     (mkQualifications
                        (Qle_bool 20 (povertyRate d))
                        (Qle_bool (medianIncomeRatio d) (8 # 10))
                        (inEmpowermentZone d)))).
Proof.
  intros E. split; [|split].
  - rewrite !stateful_check. unfold checkLowIncomeEligibility.
    now rewrite E.
  - intros N. unfold Stateful.checkLowIncomeEligibility. rewrite N.
    split; reflexivity.
  - intros g G h1 h2 h3 d. subst d.
    rewrite !stateful_simulate. cbn [fst snd].
    split; [reflexivity|].
    split; [now rewrite firstn_app, Nat.sub_diag, firstn_all, app_nil_r|].
    split; [rewrite length_app; cbn; lia|].
    split; [exact (poverty_threshold h1)|].
    split; [exact (income_threshold h2)|].
    split; [exact (zone_threshold h3)|].
    split.
    + rewrite stateful_check. unfold checkLowIncomeEligibility. rewrite G.
      cbn [eligible]. rewrite !orb_true_iff.
      change (povertyRate (simulateCensusDemographics g))
        with (5 + Qmake h1 233280 * 35).
      change (medianIncomeRatio (simulateCensusDemographics g))
        with ((4 # 10) + Qmake h2 233280 * (6 # 10)).
      change (inEmpowermentZone (simulateCensusDemographics g))
        with (Qlt_bool (Qmake h3 233280) (1 # 10)).
      rewrite poverty_threshold, income_threshold, zone_threshold. tauto.
    + rewrite stateful_check. unfold checkLowIncomeEligibility.
      rewrite <- E, G. reflexivity.
Qed.

End NMTCFacts.

(** C10: the witness: two records of different tracts and counties with
    the geoid 11001006202, the first checked before any other run, the
    second after two runs have left their closures. *)
Lemma nmtc_determination_depends_on_geoid_only_witness :
  let g := Validation.str "11001006202" in
  let c1 := NMTC.mkCensus (Validation.str "006202") (Validation.str "001")
              (Validation.str "11") (Some g) in
  let c2 := NMTC.mkCensus (Validation.str "000100") (Validation.str "999")
              (Validation.str "48") (Some g) in
  let H1 : NMTC.Stateful.closures := [] in
  let H2 : NMTC.Stateful.closures := [86434; -10559]%Z in
  NMTC.geoid c1 = NMTC.geoid c2
  /\ fst (NMTC.Stateful.checkLowIncomeEligibility c1 H1)
     = fst (NMTC.Stateful.checkLowIncomeEligibility c2 H2)
  /\ (NMTC.eligible (fst (NMTC.Stateful.checkLowIncomeEligibility c1 H1))
      = true
      <-> (99978 <= NMTC.next (NMTC.seed_hash g))%Z
          \/ (NMTC.next (NMTC.next (NMTC.seed_hash g)) <= 155520)%Z
          \/ (NMTC.next (NMTC.next (NMTC.next (NMTC.seed_hash g)))
              < 23328)%Z).
Proof.
  intros g c1 c2 H1 H2.
  assert (H : NMTC.geoid c1 = NMTC.geoid c2) by reflexivity.
  split; [exact H|].
  destruct (@nmtc_determination_depends_on_geoid_only c1 c2 H1 H2 H)
    as (K1 & _ & K3).
  split; [exact K1|].
  destruct (K3 g eq_refl) as (_ & _ & _ & _ & _ & _ & K & _).
  exact K.
Defined.

(** ** Address validation and normalization *)

Section ValidationFacts.
Import Errors Validation.
Local Open Scope N_scope.

(** Case analysis on the comparisons of code units in the goal, one at a
    time, dropping the impossible cases as they come. *)
Ltac code_unit_cases :=
  repeat (match goal with
          | |- context [(?a <=? ?b)] => destruct (N.leb_spec a b)
          | |- context [(?a =? ?b)] => destruct (N.eqb_spec a b)
          end; try lia);
  simpl; try reflexivity; try discriminate; try lia.

Lemma word_bounds c : is_word c = true -> 48 <= c <= 122.
Proof.
  unfold is_word, is_alpha, is_digit.
  code_unit_cases; intros; try discriminate; lia.
Qed.

Lemma word_not_space c : is_word c = true -> is_space c = false.
Proof.
  intros H. apply word_bounds in H. unfold is_space. code_unit_cases.
Qed.

Lemma space_32 : is_space 32 = true.
Proof. reflexivity. Qed.

(** A code unit that folds to the same as a letter is a word character. *)
Lemma canonicalize_letter c x :
  is_alpha x = true -> (canonicalize c =? canonicalize x) = true ->
  is_word c = true.
Proof.
  intros H E. apply N.eqb_eq in E.
  assert (B : (65 <= x <= 90) \/ (97 <= x <= 122)).
  { revert H. unfold is_alpha. code_unit_cases; intros; try discriminate; lia. }
  clear H. revert E. unfold is_word, is_alpha, is_digit, canonicalize.
  code_unit_cases; intros; lia.
Qed.

Lemma alternatives_letters :
  Forall (fun a => letters a /\ a <> []) alternatives.
Proof.
  unfold alternatives.
  repeat (constructor; [split; [repeat constructor|discriminate]|]).
  constructor.
Qed.

(** One alternative against a word followed by a separator: it matches up
    to a word boundary exactly when it is the whole word. *)
Lemma match_literal_word rest :
  starts_nonword rest = true ->
  forall a, letters a ->
  forall w pw, (a = [] -> pw = true) -> wordy w ->
  match match_literal a (pw, (w ++ rest)%list) with
  | Some (m, q) =>
      if at_boundary q
      then m = w /\ q = (true, rest) /\ ci_eqb a w = true
      else ci_eqb a w = false
  | None => ci_eqb a w = false
  end.
Proof.
  intros Hrest a Ha. induction Ha as [|x a' Hx Ha' IH]; intros w pw Hpw Hw.
  - rewrite (Hpw eq_refl). simpl. unfold at_boundary. simpl.
    destruct w as [|c w']; simpl.
    + destruct rest as [|d r]; simpl in *; [auto|].
      apply negb_true_iff in Hrest. rewrite Hrest. simpl. auto.
    + inversion Hw; subst. now rewrite H1.
  - destruct w as [|c w']; simpl.
    + destruct rest as [|d r]; simpl in *; trivial.
      destruct (canonicalize d =? canonicalize x) eqn:E; trivial.
      apply negb_true_iff in Hrest.
      rewrite (canonicalize_letter d x Hx E) in Hrest. discriminate.
    + inversion Hw as [|? ? Hc Hw']; subst.
      destruct (canonicalize c =? canonicalize x) eqn:E; simpl; trivial.
      rewrite Hc.
      assert (Hp : a' = [] -> true = true) by trivial.
      specialize (IH w' true Hp Hw').
      destruct (match_literal a' (true, (w' ++ rest)%list)) as [[m q]|];
        trivial.
      destruct (at_boundary q); trivial.
      destruct IH as (-> & -> & ->). auto.
Qed.

(** The alternation against a word followed by a separator. *)
Lemma first_alternative_word alts w rest pw :
  Forall (fun a => letters a /\ a <> []) alts ->
  wordy w -> starts_nonword rest = true ->
  first_alternative alts (pw, (w ++ rest)%list)
  = if existsb (fun a => ci_eqb a w) alts
    then Some (w, (true, rest)) else None.
Proof.
  intros Ha Hw Hrest. induction Ha as [|a alts' [Hl Hn] Ha' IH]; simpl; trivial.
  assert (Hp : a = [] -> pw = true) by (intros E; now elim Hn).
  pose proof (@match_literal_word rest Hrest a Hl w pw Hp Hw) as M.
  destruct (match_literal a (pw, (w ++ rest)%list)) as [[m q]|].
  - destruct (at_boundary q).
    + destruct M as (-> & -> & ->). reflexivity.
    + rewrite M. exact IH.
  - rewrite M. exact IH.
Qed.

(** The pattern at the start of a word. *)
Lemma match_at_word_start w rest :
  w <> [] -> wordy w -> starts_nonword rest = true ->
  match_at (false, (w ++ rest)%list)
  = if is_alternative w then Some (w, (true, rest)) else None.
Proof.
  intros Hn Hw Hrest. unfold match_at.
  destruct w as [|c w']; [now elim Hn|].
  assert (B : at_boundary (false, ((c :: w') ++ rest)%list) = true).
  { unfold at_boundary. simpl. inversion Hw; subst. now rewrite H1. }
  rewrite B. now apply first_alternative_word; [apply alternatives_letters| |].
Qed.

(** The pattern does not match inside a word. *)
Lemma match_at_in_word c r :
  is_word c = true -> match_at (true, c :: r) = None.
Proof.
  intros H. unfold match_at, at_boundary. cbn [fst snd]. now rewrite H.
Qed.

(** The pattern does not match at a separator. *)
Lemma match_at_separator pw d r :
  is_word d = false -> match_at (pw, d :: r) = None.
Proof.
  intros H. unfold match_at. destruct (at_boundary (pw, d :: r)); trivial.
  change (d :: r) with (([] : jsstring) ++ d :: r)%list.
  rewrite first_alternative_word.
  - reflexivity.
  - apply alternatives_letters.
  - constructor.
  - simpl. now rewrite H.
Qed.

(** *** The replace, step by step *)

Lemma replace_separator pw d r :
  is_word d = false ->
  replace_from pw 0 (d :: r) = d :: replace_from false 0 r.
Proof.
  intros H. cbn [replace_from]. rewrite match_at_separator by exact H.
  now rewrite H.
Qed.

Lemma replace_in_word u : wordy u ->
  forall rest,
    replace_from true 0 (u ++ rest)%list
    = (u ++ replace_from true 0 rest)%list.
Proof.
  induction 1 as [|c u' Hc Hu IH]; intros rest; trivial.
  cbn [app replace_from]. rewrite match_at_in_word by exact Hc. rewrite Hc.
  now rewrite IH.
Qed.

(** Passing over the rest of a match. *)
Lemma replace_skip u : wordy u ->
  forall rest,
    replace_from true (List.length u) (u ++ rest)%list
    = replace_from true 0 rest.
Proof.
  induction 1 as [|c u' Hc Hu IH]; intros rest; trivial.
  cbn [app List.length replace_from]. rewrite Hc. apply IH.
Qed.

Lemma replace_word_start w rest :
  w <> [] -> wordy w -> starts_nonword rest = true ->
  replace_from false 0 (w ++ rest)%list
  = (abbreviate_word w ++ replace_from true 0 rest)%list.
Proof.
  intros Hn Hw Hrest.
  pose proof (@match_at_word_start w rest Hn Hw Hrest) as M.
  destruct w as [|c w']; [now elim Hn|].
  inversion Hw as [|? ? Hc Hw']; subst.
  unfold abbreviate_word.
  cbn [app replace_from]. cbn [app] in M.
  unfold jsstring in *. rewrite M.
  destruct (is_alternative (c :: w')).
  - rewrite Hc. cbn [List.length]. rewrite Nat.sub_1_r. cbn [Nat.pred].
    now rewrite replace_skip.
  - rewrite Hc. cbn [app]. now rewrite replace_in_word.
Qed.

(** Every text splits into its leading word and what follows it. *)
Lemma word_split s :
  exists w rest, s = (w ++ rest)%list /\ wordy w /\ starts_nonword rest = true.
Proof.
  induction s as [|c r (w & rest & E & Hw & Hr)].
  - exists [], []. repeat split. constructor.
  - destruct (is_word c) eqn:Hc.
    + exists (c :: w), rest. subst r. repeat split; trivial.
      now constructor.
    + exists [], (c :: r). repeat split; [constructor|].
      simpl. now rewrite Hc.
Qed.

(** The replace follows the word-by-word description. *)
Lemma replace_rewrites n : forall s pw,
  (List.length s <= n)%nat -> rewrites pw s (replace_from pw 0 s).
Proof.
  induction n as [|n IH]; intros s pw L.
  - destruct s; [constructor | simpl in L; lia].
  - destruct s as [|c r]; [constructor|].
    destruct (is_word c) eqn:Hc.
    + destruct pw.
      * cbn [replace_from]. rewrite match_at_in_word by exact Hc. rewrite Hc.
        apply rw_in; trivial. apply IH. simpl in L. lia.
      * destruct (word_split (c :: r)) as (w & rest & E & Hw & Hr).
        assert (Hn : w <> []).
        { intros ->. simpl in E. subst rest. simpl in Hr.
          rewrite Hc in Hr. discriminate. }
        rewrite E, (@replace_word_start w rest Hn Hw Hr).
        apply rw_word; trivial. apply IH.
        assert (L' : List.length (c :: r) = List.length (w ++ rest)%list)
          by now rewrite E.
        rewrite length_app in L'. simpl in L, L'.
        destruct w; [now elim Hn|]. simpl in L'. lia.
    + rewrite replace_separator by exact Hc. apply rw_sep; trivial.
      apply IH. simpl in L. lia.
Qed.

(** *** Abbreviating a word twice *)

Lemma lookup_value k m v : lookup k m = Some v -> In v (map snd m).
Proof.
  induction m as [|[k' v'] r IH]; simpl; [discriminate|].
  destruct (jsstring_eqb k k').
  - intros [= ->]. now left.
  - intros H. right. now apply IH.
Qed.

Lemma abbreviations_fixed :
  Forall (fun v => abbreviate_word v = v /\ wordy v /\ v <> [])
         (map snd abbrevMap).
Proof.
  repeat (constructor;
          [split; [reflexivity|split; [repeat constructor|discriminate]]|]).
  constructor.
Qed.

Lemma abbreviate_word_idempotent w :
  abbreviate_word (abbreviate_word w) = abbreviate_word w.
Proof.
  unfold abbreviate_word at 2 3.
  destruct (is_alternative w) eqn:E.
  - unfold abbreviate.
    destruct (lookup (toLowerCase w) abbrevMap) as [v|] eqn:K.
    + apply lookup_value in K.
      pose proof abbreviations_fixed as F. rewrite Forall_forall in F.
      now apply F.
    + unfold abbreviate_word. rewrite E. unfold abbreviate. now rewrite K.
  - unfold abbreviate_word. now rewrite E.
Qed.

Lemma abbreviate_word_wordy w :
  w <> [] -> wordy w -> abbreviate_word w <> [] /\ wordy (abbreviate_word w).
Proof.
  intros Hn Hw. unfold abbreviate_word.
  destruct (is_alternative w); [|now split].
  unfold abbreviate.
  destruct (lookup (toLowerCase w) abbrevMap) as [v|] eqn:K; [|now split].
  apply lookup_value in K.
  pose proof abbreviations_fixed as F. rewrite Forall_forall in F.
  destruct (F _ K) as (_ & Hv & Hv'). now split.
Qed.

(** *** The replace is idempotent and keeps the white space *)

Lemma rewrites_starts_nonword pw s out :
  rewrites pw s out -> starts_nonword s = true -> starts_nonword out = true.
Proof.
  destruct 1 as [pw|pw d r out Hd _|c r out Hc _|w rest out Hn Hw _ _];
    simpl; trivial.
  destruct w as [|c w']; [now elim Hn|].
  inversion Hw; subst. simpl. rewrite H1. discriminate.
Qed.

Lemma rewrites_fixed pw s out :
  rewrites pw s out -> replace_from pw 0 out = out.
Proof.
  induction 1 as [pw|pw d r out Hd _ IH|c r out Hc _ IH
                  |w rest out Hn Hw Hr H IH].
  - reflexivity.
  - rewrite replace_separator by exact Hd. now rewrite IH.
  - change (c :: out) with ([c] ++ out)%list.
    rewrite replace_in_word by (now repeat constructor). now rewrite IH.
  - destruct (abbreviate_word_wordy Hn Hw) as [Hn' Hw'].
    rewrite (@replace_word_start _ out Hn' Hw' (rewrites_starts_nonword H Hr)).
    now rewrite abbreviate_word_idempotent, IH.
Qed.

Lemma tidy_from_word_prefix u : wordy u -> u <> [] ->
  forall ps r, tidy_from ps (u ++ r)%list = tidy_from false r.
Proof.
  induction 1 as [|c u' Hc Hu IH]; intros Hn ps r; [now elim Hn|].
  cbn [app tidy_from]. rewrite word_not_space by exact Hc.
  destruct u' as [|c' u'']; [reflexivity|].
  apply IH. discriminate.
Qed.

Lemma rewrites_tidy_from pw s out :
  rewrites pw s out -> forall ps, tidy_from ps out = tidy_from ps s.
Proof.
  induction 1 as [pw|pw d r out Hd _ IH|c r out Hc _ IH
                  |w rest out Hn Hw Hr H IH]; intros ps.
  - reflexivity.
  - cbn [tidy_from]. now rewrite !IH.
  - cbn [tidy_from]. now rewrite !IH.
  - destruct (abbreviate_word_wordy Hn Hw) as [Hn' Hw'].
    now rewrite !tidy_from_word_prefix, IH.
Qed.

Lemma rewrites_tidy pw s out : rewrites pw s out -> tidy out = tidy s.
Proof.
  intros H. pose proof (rewrites_tidy_from H true) as T.
  destruct H as [pw|pw d r out Hd _|c r out Hc _|w rest out Hn Hw _ _];
    trivial.
  destruct (abbreviate_word_wordy Hn Hw) as [Hn' _].
  unfold tidy.
  destruct (abbreviate_word w ++ out)%list eqn:E1.
  - apply app_eq_nil in E1. now elim Hn'.
  - destruct (w ++ rest)%list eqn:E2; trivial.
    apply app_eq_nil in E2. now elim Hn.
Qed.

(** *** Trimming and collapsing *)

Lemma trimStart_starts_nonspace s : starts_nonspace (trimStart s) = true.
Proof.
  induction s as [|c r IH]; simpl; trivial.
  destruct (is_space c) eqn:E; trivial. simpl. now rewrite E.
Qed.

Lemma trimStart_fixed s : starts_nonspace s = true -> trimStart s = s.
Proof.
  destruct s as [|c r]; simpl; trivial.
  intros H. apply negb_true_iff in H. now rewrite H.
Qed.

Lemma trimStart_before_nonspace l c l' :
  is_space c = false ->
  trimStart (l ++ c :: l')%list = (trimStart l ++ c :: l')%list.
Proof.
  intros H. induction l as [|d l IH]; simpl.
  - now rewrite H.
  - destruct (is_space d); trivial.
Qed.

Lemma trimEnd_cons c r :
  is_space c = false -> trimEnd (c :: r) = c :: trimEnd r.
Proof.
  intros H. unfold trimEnd. simpl.
  rewrite trimStart_before_nonspace by exact H.
  rewrite rev_app_distr. reflexivity.
Qed.

(** A trimmed text has no white space at either end. *)
Lemma trim_ends s :
  starts_nonspace (trim s) = true /\ starts_nonspace (rev (trim s)) = true.
Proof.
  unfold trim. split.
  - pose proof (trimStart_starts_nonspace s) as H.
    destruct (trimStart s) as [|c r]; trivial.
    simpl in H. apply negb_true_iff in H.
    rewrite trimEnd_cons by exact H. simpl. now rewrite H.
  - unfold trimEnd. rewrite rev_involutive. apply trimStart_starts_nonspace.
Qed.

Lemma starts_nonspace_app l c :
  l <> [] -> starts_nonspace (l ++ [c])%list = starts_nonspace l.
Proof. destruct l; [intros H; now elim H | reflexivity]. Qed.

Lemma rev_not_nil (l : jsstring) : l <> [] -> rev l <> [].
Proof.
  destruct l; [intros H; now elim H|]. simpl. intros _ E.
  apply app_eq_nil in E. destruct E; discriminate.
Qed.

Lemma collapse_tidy_from s : forall ps,
  s <> [] -> starts_nonspace (rev s) = true ->
  tidy_from ps (collapse_from ps s) = true.
Proof.
  induction s as [|c r IH]; intros ps Hn He; [now elim Hn|].
  destruct r as [|c' r'].
  - simpl in He. apply negb_true_iff in He. simpl. rewrite He. simpl.
    now rewrite He.
  - assert (Hr : c' :: r' <> []) by discriminate.
    assert (He' : starts_nonspace (rev (c' :: r')) = true).
    { change (rev (c :: c' :: r')) with (rev (c' :: r') ++ [c])%list in He.
      rewrite starts_nonspace_app in He by (apply rev_not_nil; exact Hr).
      exact He. }
    cbn [collapse_from]. fold (collapse_from true (c' :: r')).
    fold (collapse_from false (c' :: r')).
    destruct (is_space c) eqn:Ec.
    + destruct ps.
      * now apply IH.
      * cbn [tidy_from]. rewrite space_32. simpl. now apply IH.
    + cbn [tidy_from]. rewrite Ec. now apply IH.
Qed.

Lemma collapse_trim_tidy s : tidy (collapse (trim s)) = true.
Proof.
  destruct (trim_ends s) as [H1 H2].
  destruct (trim s) as [|c r] eqn:E; [reflexivity|].
  simpl in H1. apply negb_true_iff in H1.
  assert (Hn : c :: r <> []) by discriminate.
  pose proof (@collapse_tidy_from (c :: r) false Hn H2) as T.
  unfold collapse. cbn [collapse_from] in *. rewrite H1 in *.
  unfold tidy. cbn [tidy_from] in *. now rewrite H1 in *.
Qed.

Lemma tidy_from_collapse s : forall ps,
  tidy_from ps s = true -> collapse_from ps s = s.
Proof.
  induction s as [|c r IH]; intros ps H; trivial.
  cbn [tidy_from collapse_from] in *.
  destruct (is_space c).
  - apply andb_true_iff in H. destruct H as [H Hr].
    apply andb_true_iff in H. destruct H as [H32 Hps].
    apply N.eqb_eq in H32. apply negb_true_iff in Hps. subst.
    now rewrite (IH true Hr).
  - now rewrite (IH false H).
Qed.

Lemma tidy_starts_nonspace s : tidy s = true -> starts_nonspace s = true.
Proof.
  destruct s as [|c r]; trivial. unfold tidy. cbn [tidy_from]. simpl.
  destruct (is_space c); trivial. rewrite andb_false_r. trivial.
Qed.

Lemma tidy_collapse s : tidy s = true -> collapse s = s.
Proof.
  intros H. pose proof (tidy_starts_nonspace s H) as Hs.
  destruct s as [|c r]; trivial.
  simpl in Hs. apply negb_true_iff in Hs.
  unfold tidy in H. pose proof (tidy_from_collapse _ _ H) as C.
  unfold collapse. cbn [collapse_from] in *. now rewrite Hs in *.
Qed.

Lemma tidy_from_ends s : forall ps,
  tidy_from ps s = true -> s <> [] -> starts_nonspace (rev s) = true.
Proof.
  induction s as [|c r IH]; intros ps H Hn; [now elim Hn|].
  destruct r as [|c' r'].
  - cbn [tidy_from] in H. simpl. destruct (is_space c); trivial.
    simpl in H. now rewrite andb_false_r in H.
  - assert (Hr : c' :: r' <> []) by discriminate.
    change (rev (c :: c' :: r')) with (rev (c' :: r') ++ [c])%list.
    rewrite starts_nonspace_app by (apply rev_not_nil; exact Hr).
    cbn [tidy_from] in H. fold (tidy_from true (c' :: r')) in H.
    fold (tidy_from false (c' :: r')) in H.
    destruct (is_space c).
    + apply andb_true_iff in H. destruct H as [_ H]. now apply (IH true).
    + now apply (IH false).
Qed.

Lemma tidy_trim s : tidy s = true -> trim s = s.
Proof.
  intros H. unfold trim.
  rewrite (trimStart_fixed s (tidy_starts_nonspace s H)).
  unfold trimEnd. destruct s as [|c r]; trivial.
  unfold tidy in H.
  rewrite trimStart_fixed.
  - apply rev_involutive.
  - apply (@tidy_from_ends _ _ H). discriminate.
Qed.

(** The suffix replace leaves its own output alone. *)
Lemma replace_suffixes_idempotent s :
  replace_suffixes (replace_suffixes s) = replace_suffixes s.
Proof.
  unfold replace_suffixes.
  exact (rewrites_fixed (@replace_rewrites (List.length s) s false (le_n _))).
Qed.

Lemma replace_suffixes_tidy s : tidy (replace_suffixes s) = tidy s.
Proof.
  unfold replace_suffixes.
  exact (rewrites_tidy (@replace_rewrites (List.length s) s false (le_n _))).
Qed.

(** C7.  For every address string [a], normalizing twice gives the same
    as normalizing once, where normalizing trims, collapses every run of
    white space into one space, and replaces the street-suffix words by
    their abbreviations. *)
Theorem normalizeAddress_idempotent (a : jsstring) :
  normalizeAddress (normalizeAddress a) = normalizeAddress a.
Proof.
  unfold normalizeAddress at 1 3.
  set (t := collapse (trim a)).
  assert (T : tidy (replace_suffixes t) = true).
  { rewrite replace_suffixes_tidy. apply collapse_trim_tidy. }
  unfold normalizeAddress. fold t.
  rewrite (tidy_trim _ T), (tidy_collapse _ T).
  apply replace_suffixes_idempotent.
Qed.

Example normalizeAddress_example :
  normalizeAddress (str "  1600   Pennsylvania AVENUE,  Washington ")
  = str "1600 Pennsylvania Ave, Washington"
  /\ normalizeAddress (str "12 Main street rd") = str "12 Main St rd"
  /\ normalizeAddress (str "7 Streets Blvd.") = str "7 Streets Blvd.".
Proof. repeat split; reflexivity. Qed.

(** *** Validation *)

(** C6 (amended).  For every address string, the validation step that
    every evaluator starts with fails with a [ValidationError] exactly
    when the trimmed address has no alphabetic character (an empty or
    blank address included), and the evaluator then ends in that
    failure; an address with an alphabetic character passes with its
    normalized form even when it has no digit, which only adds the
    warning 'Address should include a street number'. *)
Theorem address_validation_fails_without_letter (address : jsstring) :
  (existsb is_alpha (trim address) = false ->
     exists msg,
       BaseAPIService.validateAddress address = inl (ValidationError msg)
       /\ forall (C P : Type) (geocode : jsstring -> option C)
                 (rules : jsstring -> C -> BaseAPIService.settled P),
            BaseAPIService.evaluate geocode rules address
            = BaseAPIService.Rejected (ValidationError msg))
  /\ (existsb is_alpha (trim address) = true ->
        BaseAPIService.validateAddress address
        = inr (normalizeAddress (trim address))
        /\ (existsb is_digit (trim address) = false ->
              In "Address should include a street number"%string
                 (warnings (validateAddress address)))).
Proof.
  unfold BaseAPIService.evaluate, BaseAPIService.validateAddress,
    validateAddress.
  destruct (trim address) as [|c r] eqn:E.
  - split; [|discriminate]. intros _. eexists. split; reflexivity.
  - set (t := c :: r). split; intros H.
    + rewrite H. cbn [isValid errors]. eexists. split; reflexivity.
    + rewrite H. cbn [isValid normalized warnings]. split; [reflexivity|].
      intros D. rewrite D. apply in_or_app. right. now left.
Qed.

End ValidationFacts.

(** C6: the witness: an address of digits only. *)
Lemma address_validation_fails_without_letter_witness :
  let address := Validation.str " 20500 " in
  existsb Validation.is_alpha (Validation.trim address) = false
  /\ exists msg,
       BaseAPIService.validateAddress address
       = inl (Errors.ValidationError msg).
Proof.
  intros address.
  assert (H : existsb Validation.is_alpha (Validation.trim address) = false)
    by reflexivity.
  split; [exact H|].
  destruct (proj1 (address_validation_fails_without_letter address) H)
    as (msg & E & _).
  exists msg. exact E.
Defined.

(** C6: an address without a digit passes validation. *)
Lemma address_without_digit_is_valid_counterexample :
  let address := Validation.str "Main Street" in
  existsb Validation.is_digit address = false
  /\ Validation.isValid (Validation.validateAddress address) = true
  /\ BaseAPIService.validateAddress address = inr (Validation.str "Main St")
  /\ (forall e, BaseAPIService.validateAddress address <> inl e).
Proof.
  vm_compute. repeat split. intros e. discriminate.
Qed.

(** C5: the witness: a five-year-old retail business that passes every
    check. *)
Lemma sba504_eligible_iff_all_checks_witness :
  let b := SBA.mkBusinessInfo (Some 10%Q) (Some 1000000%Q)
             (Some "retail"%string) (Some 5%Q) (Some 200000%Q)
             (Some 1000000%Q) (Some 60%Q) in
  Forall (fun check => check = true)
         (SBA.values (SBA.checks (SBA.assessSBA504Eligibility b)))
  /\ SBA.eligible (SBA.assessSBA504Eligibility b) = true.
Proof.
  intros b.
  assert (H : Forall (fun check => check = true)
                (SBA.values (SBA.checks (SBA.assessSBA504Eligibility b))))
    by (repeat constructor).
  split; [exact H|].
  destruct (sba504_eligible_iff_all_checks b) as (_ & _ & _ & I & _).
  exact (proj2 I H).
Defined.

(* ================================================================== *)
(** * Further properties of the code *)
(* ================================================================== *)

(** ** The cache: sweep, statistics, capacity, recency *)

Section CacheSweep.
Import Cache.
Context {A : Type}.
Implicit Types (m : store A) (c : CacheManager A) (it : item A).
Local Open Scope Z_scope.

Lemma map_delete_filter k m :
  map_delete k m = filter (fun e => negb (String.eqb k (fst e))) m.
Proof.
  induction m as [|[k' it'] r IH]; simpl; trivial.
  destruct (String.eqb k k'); simpl; now rewrite IH.
Qed.

Lemma delete_all_filter ks : forall m,
  fold_left (fun m k => map_delete k m) ks m
  = filter (fun e => negb (existsb (fun k => String.eqb k (fst e)) ks)) m.
Proof.
  induction ks as [|k ks IH]; intros m; simpl.
  - symmetry. apply forallb_filter_id. now apply forallb_forall.
  - rewrite IH, map_delete_filter. clear IH.
    induction m as [|e r IHr]; simpl; trivial.
    destruct (String.eqb k (fst e)); simpl; trivial.
    destruct (existsb _ ks); simpl; now rewrite IHr.
Qed.

Lemma In_keys k it m : In (k, it) m -> In k (keys m).
Proof. intros H. apply (in_map fst) in H. exact H. Qed.

Lemma NoDup_keys_unique k it it' m :
  NoDup (keys m) -> In (k, it) m -> In (k, it') m -> it = it'.
Proof.
  induction m as [|[k0 it0] r IH]; simpl; [intros _ []|].
  intros H. inversion H as [|? ? Hn Hr]; subst.
  intros [E|I] [E'|I'].
  - congruence.
  - injection E as -> ->. elim Hn. now apply In_keys in I'.
  - injection E' as -> ->. elim Hn. now apply In_keys in I.
  - now apply IH.
Qed.

(** Under distinct keys, a key is among the keys of the expired bindings
    exactly when its own binding is expired. *)
Lemma expired_keys_spec now m e :
  NoDup (keys m) -> In e m ->
  existsb (fun k => String.eqb k (fst e)) (keys (filter (expired now) m))
  = expired now e.
Proof.
  intros Hn He. destruct (expired now e) eqn:X.
  - apply existsb_exists. exists (fst e). split; [|apply String.eqb_refl].
    apply in_map. apply filter_In. now split.
  - apply not_true_is_false. intros H. apply existsb_exists in H.
    destruct H as (k & Hk & E). apply String.eqb_eq in E. subst k.
    apply in_map_iff in Hk. destruct Hk as ([k' it'] & Ek & Hf).
    apply filter_In in Hf. destruct Hf as [Hin Hx].
    destruct e as [k it]. simpl in Ek. subst k'.
    rewrite (@NoDup_keys_unique k it it' m Hn He Hin) in X. congruence.
Qed.

Lemma cleanup_store c now :
  NoDup (keys (cache c)) ->
  cache (snd (cleanup c now))
  = filter (fun e => negb (expired now e)) (cache c).
Proof.
  intros Hn. unfold cleanup. cbn [snd with_cache cache].
  rewrite delete_all_filter. apply filter_ext_in. intros e He.
  f_equal. now apply expired_keys_spec.
Qed.

Lemma filter_partition_length {T} (f : T -> bool) (l : list T) :
  (List.length (filter f l) + List.length (filter (fun x => negb (f x)) l)
   = List.length l)%nat.
Proof.
  induction l as [|x r IH]; simpl; trivial.
  destruct (f x); simpl; lia.
Qed.

(** X1.  On a store of distinct keys, [cleanup] removes exactly the
    bindings that are past their expiry: it keeps the others in their
    order, returns the number of bindings it removed, and leaves no
    expired binding behind. *)
Theorem cleanup_removes_exactly_expired c now :
  NoDup (keys (cache c)) ->
  cache (snd (cleanup c now))
  = filter (fun e => negb (expired now e)) (cache c)
  /\ (fst (cleanup c now) + size (snd (cleanup c now)) = size c)%nat
  /\ Forall (fun e => now <= expiresAt (snd e)) (cache (snd (cleanup c now)))
  /\ (forall e, In e (cache c) -> now <= expiresAt (snd e) ->
        In e (cache (snd (cleanup c now)))).
Proof.
  intros Hn. pose proof (@cleanup_store c now Hn) as E.
  split; [exact E|]. split; [|split].
  - unfold size. rewrite E. unfold cleanup. cbn [fst]. unfold keys.
    rewrite length_map. apply filter_partition_length.
  - rewrite E. apply Forall_forall. intros e He.
    apply filter_In in He. destruct He as [_ L].
    unfold expired in L. apply negb_true_iff, Z.ltb_ge in L. exact L.
  - intros e He L. rewrite E. apply filter_In. split; trivial.
    unfold expired. apply negb_true_iff, Z.ltb_ge. exact L.
Qed.

End CacheSweep.

Section CacheCapacity.
Import Cache.
Context {A : Type}.
Implicit Types (m : store A) (c : CacheManager A) (it : item A).
Local Open Scope Z_scope.

Lemma length_map_delete_le k m :
  (List.length (map_delete k m) <= List.length m)%nat.
Proof.
  induction m as [|[k' it'] r IH]; simpl; trivial.
  destruct (String.eqb k k'); simpl; lia.
Qed.

Lemma length_map_delete_present k it m :
  map_get k m = Some it ->
  (List.length (map_delete k m) < List.length m)%nat.
Proof.
  induction m as [|[k' it'] r IH]; simpl; [discriminate|].
  destruct (String.eqb k k'); simpl.
  - intros _. pose proof (length_map_delete_le k r). lia.
  - intros H. apply IH in H. lia.
Qed.

Lemma length_map_set_le k it m :
  (List.length (map_set k it m) <= S (List.length m))%nat.
Proof.
  induction m as [|[k' it'] r IH]; simpl; trivial.
  destruct (String.eqb k k'); simpl; lia.
Qed.

Lemma length_delete_all_le ks : forall m,
  (List.length (fold_left (fun m k => map_delete k m) ks m)
   <= List.length m)%nat.
Proof.
  induction ks as [|k ks IH]; simpl; intros m; trivial.
  specialize (IH (map_delete k m)).
  pose proof (length_map_delete_le k m). lia.
Qed.

Lemma step_maxSize c e : maxSize (step c e) = maxSize c.
Proof.
  destruct e as [now o]. destruct o; simpl; trivial.
  - unfold get. destruct (map_get key (cache c)); trivial.
    destruct (_ <? _); trivial.
  - unfold has, get. destruct (map_get key (cache c)); trivial.
    destruct (_ <? _); trivial.
Qed.

Lemma get_length c k now :
  (List.length (cache (snd (get c k now))) <= List.length (cache c))%nat.
Proof.
  unfold get. destruct (map_get k (cache c)) as [it|] eqn:E; simpl; trivial.
  destruct (_ <? _); simpl.
  - apply length_map_delete_le.
  - pose proof (length_map_set_le k it (map_delete k (cache c))).
    pose proof (length_map_delete_present _ _ E). lia.
Qed.

Lemma set_length c k v ttl now :
  (List.length (cache c) <= maxSize c)%nat -> (0 < maxSize c)%nat ->
  (List.length (cache (set c k v ttl now)) <= maxSize c)%nat.
Proof.
  intros L P. unfold set. cbn [cache with_cache].
  match goal with |- context [map_set k ?i ?s] =>
    pose proof (length_map_set_le k i s) as S end.
  destruct (maxSize c <=? List.length (cache c))%nat eqn:E.
  - apply Nat.leb_le in E.
    destruct (cache c) as [|[k0 it0] r] eqn:C; [simpl in *; lia|].
    assert (G : map_get k0 ((k0, it0) :: r) = Some it0)
      by (simpl; now rewrite String.eqb_refl).
    apply length_map_delete_present in G.
    change (evict_first ((k0, it0) :: r))
      with (map_delete k0 ((k0, it0) :: r)) in S.
    change (evict_first ((k0, it0) :: r))
      with (map_delete k0 ((k0, it0) :: r)).
    lia.
  - apply Nat.leb_gt in E. lia.
Qed.

Lemma step_within_capacity c e :
  within_capacity c -> within_capacity (step c e).
Proof.
  intros (Hn & Hl & Hp). split; [now apply step_NoDup|].
  rewrite step_maxSize. split; trivial.
  destruct e as [now o]. destruct o; simpl.
  - now apply set_length.
  - pose proof (get_length c key now). lia.
  - unfold has. pose proof (get_length c key now) as G.
    destruct (get c key now). simpl in *. lia.
  - pose proof (length_map_delete_le key (cache c)). lia.
  - lia.
  - pose proof (length_delete_all_le
                  (keys (filter (fun p => expiresAt (snd p) <? now) (cache c)))
                  (cache c)). lia.
Qed.

(** X2.  A cache that is within its capacity, with a positive capacity
    and distinct keys, stays so under every sequence of calls: it never
    holds more than [maxSize] entries.  A new cache never holds more
    than 1000. *)
Theorem cache_stays_within_capacity c (tr : list (Z * op A)) :
  within_capacity c ->
  within_capacity (run c tr)
  /\ (size (run c tr) <= maxSize c)%nat
  /\ (size (run (@new_CacheManager A) tr) <= 1000)%nat.
Proof.
  assert (G : forall tr c, within_capacity c ->
                within_capacity (run c tr) /\ maxSize (run c tr) = maxSize c).
  { clear. induction tr as [|e tr IH]; intros c H; simpl; [now split|].
    destruct (IH _ (step_within_capacity e H)) as [W M].
    split; trivial. now rewrite M, step_maxSize. }
  intros H. destruct (G tr c H) as [W M].
  split; [exact W|]. split.
  - destruct W as (_ & L & _). unfold size. lia.
  - assert (N : within_capacity (@new_CacheManager A)).
    { repeat split; simpl; try lia. constructor. }
    destruct (G tr _ N) as [(_ & L & _) M']. unfold size.
    rewrite M' in L. exact L.
Qed.

Lemma count_items now m : forall e a,
  fold_left (count_item now) m (e, a)
  = ((e + List.length (filter (expired now) m))%nat,
     (a + List.length (filter (fun x => negb (expired now x)) m))%nat).
Proof.
  induction m as [|x r IH]; intros e a.
  - simpl. f_equal; lia.
  - cbn [fold_left filter].
    assert (E : count_item now (e, a) x
                = if expired now x then (S e, a) else (e, S a))
      by reflexivity.
    rewrite E. destruct (expired now x); rewrite IH;
      cbn [negb List.length]; f_equal; lia.
Qed.

Lemma filter_twice {T} (f : T -> bool) (l : list T) :
  filter f (filter f l) = filter f l.
Proof.
  apply forallb_filter_id. apply forallb_forall. intros x Hx.
  now apply filter_In in Hx.
Qed.

Lemma filter_expired_of_live now m :
  filter (expired now) (filter (fun x => negb (expired now x)) m) = [].
Proof.
  induction m as [|x r IH]; trivial.
  cbn [filter]. destruct (expired now x) eqn:X; cbn [negb filter]; trivial.
  now rewrite X.
Qed.

(** X3.  [getStats] splits the entries into active and expired ones:
    the two counts add up to [totalItems]; the expired count is what a
    sweep at the same clock reading removes; and after that sweep the
    statistics show no expired entry and the same active count. *)
Theorem getStats_counts c now :
  NoDup (keys (cache c)) ->
  (activeItems (getStats c now) + expiredItems (getStats c now)
   = totalItems (getStats c now))%nat
  /\ expiredItems (getStats c now) = fst (cleanup c now)
  /\ expiredItems (getStats (snd (cleanup c now)) now) = 0%nat
  /\ activeItems (getStats (snd (cleanup c now)) now)
     = activeItems (getStats c now)
  /\ totalItems (getStats (snd (cleanup c now)) now)
     = activeItems (getStats c now).
Proof.
  intros Hn.
  assert (S : forall c', getStats c' now
              = mkStats (List.length (cache c'))
                  (List.length (filter (fun x => negb (expired now x)) (cache c')))
                  (List.length (filter (expired now) (cache c')))
                  0 (maxSize c')).
  { intros c'. unfold getStats. now rewrite count_items. }
  rewrite !S. cbn [activeItems expiredItems totalItems].
  rewrite (@cleanup_store A c now Hn).
  rewrite filter_twice, filter_expired_of_live. repeat split.
  - pose proof (filter_partition_length (expired now) (cache c)). lia.
  - unfold cleanup. cbn [fst]. unfold keys. now rewrite length_map.
Qed.

End CacheCapacity.

Section CacheRecency.
Import Cache.
Context {A : Type}.
Implicit Types (m : store A) (c : CacheManager A) (it : item A).
Local Open Scope Z_scope.

Lemma map_get_filter (P : string * item A -> bool) k m :
  NoDup (keys m) ->
  map_get k (filter P m)
  = match map_get k m with
    | Some it => if P (k, it) then Some it else None
    | None => None
    end.
Proof.
  induction m as [|[k0 it0] r IH]; simpl; trivial.
  intros H. inversion H as [|? ? Hn Hr]; subst.
  destruct (String.eqb k k0) eqn:E.
  - apply String.eqb_eq in E. subst k0.
    destruct (P (k, it0)); simpl.
    + now rewrite String.eqb_refl.
    + rewrite (IH Hr). now rewrite map_get_not_in.
  - destruct (P (k0, it0)); simpl; [rewrite E|]; now apply IH.
Qed.

Lemma map_get_delete_other k k0 m :
  k <> k0 -> map_get k (map_delete k0 m) = map_get k m.
Proof.
  intros N. induction m as [|[k' it'] r IH]; simpl; trivial.
  destruct (String.eqb k0 k') eqn:E0.
  - apply String.eqb_eq in E0. subst k'.
    apply String.eqb_neq in N. now rewrite N.
  - simpl. now rewrite IH.
Qed.

Lemma map_get_set_other k k0 it0 m :
  k <> k0 -> map_get k (map_set k0 it0 m) = map_get k m.
Proof.
  intros N. apply String.eqb_neq in N.
  induction m as [|[k' it'] r IH]; simpl.
  - now rewrite N.
  - destruct (String.eqb k0 k') eqn:E0; simpl.
    + apply String.eqb_eq in E0. subst k'. now rewrite N.
    + now rewrite IH.
Qed.

(** X4.  A sweep is not visible through [get]: at the clock reading of
    the sweep or any later one, [get] returns for every key what it would
    have returned without the sweep. *)
Theorem cleanup_invisible_to_get c k now now' :
  NoDup (keys (cache c)) -> now <= now' ->
  fst (get (snd (cleanup c now)) k now') = fst (get c k now').
Proof.
  intros Hn L. unfold get at 1 2.
  rewrite (@cleanup_store A c now Hn). rewrite map_get_filter by exact Hn.
  destruct (map_get k (cache c)) as [it|]; trivial.
  unfold expired. cbn [snd].
  destruct (expiresAt it <? now) eqn:X; cbn [negb].
  - apply Z.ltb_lt in X.
    assert (X' : (expiresAt it <? now') = true) by (apply Z.ltb_lt; lia).
    now rewrite X'.
  - destruct (expiresAt it <? now'); reflexivity.
Qed.

Lemma length_map_delete_NoDup k it m :
  NoDup (keys m) -> map_get k m = Some it ->
  S (List.length (map_delete k m)) = List.length m.
Proof.
  induction m as [|[k' it'] r IH]; simpl; [discriminate|].
  intros H. inversion H as [|? ? Hn Hr]; subst.
  destruct (String.eqb k k') eqn:E.
  - intros _. apply String.eqb_eq in E. subst k'.
    now rewrite map_delete_absent by (now apply map_get_not_in).
  - intros G. simpl. f_equal. now apply IH.
Qed.

(** What a hit of [get] leaves in the store: the binding moved to the
    end. *)
Lemma get_hit_store c k now it :
  map_get k (cache c) = Some it -> now <= expiresAt it ->
  get c k now
  = (value it,
     with_cache c (map_delete k (cache c) ++ [(k, it)])%list).
Proof.
  intros G L. unfold get. rewrite G.
  assert (X : (expiresAt it <? now) = false) by (apply Z.ltb_ge; lia).
  rewrite X. now rewrite map_set_absent by apply map_get_delete_same.
Qed.

(** X5.  Reading protects from eviction: in a full cache of at least two
    distinct keys, a key that [get] has just returned is still stored
    after the next [set] of a new key, and the cache is full again. *)
Theorem get_protects_from_next_eviction c k it now k' v ttl now' :
  NoDup (keys (cache c)) -> List.length (cache c) = maxSize c ->
  (2 <= maxSize c)%nat ->
  map_get k (cache c) = Some it -> now <= expiresAt it ->
  ~ In k' (keys (cache c)) ->
  let c1 := snd (get c k now) in
  map_get k (cache (set c1 k' v ttl now')) = Some it
  /\ size (set c1 k' v ttl now') = maxSize c.
Proof.
  intros Hn Hl H2 G L Hk' c1.
  assert (Nk : k <> k').
  { intros ->. apply Hk'. now apply In_keys with it, map_get_In. }
  assert (C1 : cache c1 = (map_delete k (cache c) ++ [(k, it)])%list).
  { subst c1. now rewrite (@get_hit_store c k now it G L). }
  assert (M1 : maxSize c1 = maxSize c).
  { subst c1. now rewrite (@get_hit_store c k now it G L). }
  pose proof (@length_map_delete_NoDup k it (cache c) Hn G) as Ld.
  destruct (map_delete k (cache c)) as [|[k0 it0] r] eqn:D;
    [simpl in Ld; lia|].
  assert (N0 : k <> k0).
  { intros <-. pose proof (map_get_delete_same k (cache c)) as Z0.
    rewrite D in Z0. simpl in Z0. now rewrite String.eqb_refl in Z0. }
  assert (Hn1 : NoDup (keys (cache c1))).
  { subst c1. rewrite (@get_hit_store c k now it G L). cbn [snd cache with_cache].
    rewrite <- map_set_absent by apply map_get_delete_same.
    now apply NoDup_map_set, NoDup_map_delete. }
  assert (K' : ~ In k' (keys (cache c1))).
  { rewrite C1, keys_app. intros I. apply in_app_or in I.
    destruct I as [I|I]; [|simpl in I; destruct I as [I|[]]; congruence].
    apply Hk'. rewrite <- D in I. now apply keys_map_delete in I. }
  assert (F : List.length (cache c1) = maxSize c1).
  { rewrite M1, C1, length_app. simpl in *. lia. }
  split.
  - unfold set. cbn [cache with_cache].
    rewrite map_get_set_other by exact Nk.
    rewrite F, Nat.leb_refl, C1. cbn [app evict_first].
    rewrite map_get_delete_other by exact N0.
    simpl. apply String.eqb_neq in N0. rewrite N0.
    clear - Nk D. pose proof (map_get_delete_same k (cache c)) as Z0.
    rewrite D in Z0. simpl in Z0. destruct (String.eqb k k0); [discriminate|].
    clear D. induction r as [|[k1 it1] r IH]; simpl in *.
    + now rewrite String.eqb_refl.
    + destruct (String.eqb k k1); [discriminate|]. now apply IH.
  - unfold size.
    assert (P1 : (0 < maxSize c1)%nat) by lia.
    pose proof (@set_at_capacity_evicts_front A c1 k' v ttl now' Hn1 F P1 K')
      as E.
    apply (f_equal (@List.length string)) in E.
    unfold keys in E. rewrite length_map, length_app in E.
    rewrite E. simpl.
    destruct (cache c1) as [|e1 r1] eqn:Q; [simpl in F; lia|].
    simpl in *. rewrite length_map. lia.
Qed.

(** X6.  At capacity, [set] evicts even when its key is already stored:
    with distinct keys and the key stored behind the front entry, the
    front entry is dropped, the key keeps its place, and the cache ends
    one entry below capacity. *)
Theorem set_existing_key_at_capacity_drops_front
    c k0 it0 (r : store A) k v ttl now :
  cache c = (k0, it0) :: r -> NoDup (keys (cache c)) ->
  List.length (cache c) = maxSize c -> In k (keys r) ->
  keys (cache (set c k v ttl now)) = keys r
  /\ map_get k0 (cache (set c k v ttl now)) = None
  /\ S (size (set c k v ttl now)) = maxSize c.
Proof.
  intros C Hn Hl Hk. rewrite C in Hn, Hl. simpl in Hn, Hl.
  inversion Hn as [|? ? N0 Hr]; subst.
  assert (E : cache (set c k v ttl now)
              = map_set k (mkItem v (now + effective_ttl (defaultTTL c) ttl) now) r).
  { unfold set. cbn [cache with_cache]. rewrite C.
    simpl List.length. rewrite <- Hl, Nat.leb_refl.
    now rewrite evict_first_front. }
  assert (K : forall it, keys (map_set k it r) = keys r).
  { intros it. clear - Hk. induction r as [|[k1 it1] r IH]; simpl in *.
    - destruct Hk.
    - destruct (String.eqb k k1) eqn:Q; simpl.
      + apply String.eqb_eq in Q. now subst.
      + f_equal. apply IH. destruct Hk as [->|Hk]; trivial.
        now rewrite String.eqb_refl in Q. }
  rewrite E. split; [apply K|]. split.
  - apply map_get_not_in. now rewrite K.
  - unfold size. rewrite E.
    pose proof (f_equal (@List.length string) (K (mkItem v (now + effective_ttl (defaultTTL c) ttl) now))) as Lk.
    unfold keys in Lk. rewrite !length_map in Lk. lia.
Qed.

(** X7.  Calls on one key leave the bindings of every other key alone:
    [get], [has] and [delete] always, and [set] while the cache is below
    capacity. *)
Theorem calls_leave_other_keys_alone c k k' now :
  k <> k' ->
  map_get k' (cache (snd (get c k now))) = map_get k' (cache c)
  /\ map_get k' (cache (snd (has c k now))) = map_get k' (cache c)
  /\ map_get k' (cache (snd (delete c k))) = map_get k' (cache c)
  /\ (forall v ttl, (List.length (cache c) < maxSize c)%nat ->
        map_get k' (cache (set c k v ttl now)) = map_get k' (cache c)).
Proof.
  intros N. assert (N' : k' <> k) by congruence.
  assert (G : map_get k' (cache (snd (get c k now))) = map_get k' (cache c)).
  { unfold get. destruct (map_get k (cache c)) as [it|]; trivial.
    destruct (_ <? _); cbn [snd cache with_cache].
    - now apply map_get_delete_other.
    - rewrite map_get_set_other by exact N'.
      now apply map_get_delete_other. }
  split; [exact G|]. split; [|split].
  - unfold has. destruct (get c k now); exact G.
  - cbn [snd delete cache with_cache]. now apply map_get_delete_other.
  - intros v ttl L. unfold set. cbn [cache with_cache].
    assert (E : (maxSize c <=? List.length (cache c))%nat = false)
      by (apply Nat.leb_gt; lia).
    rewrite E. now apply map_get_set_other.
Qed.

End CacheRecency.

(** ** Validation: normal forms, sanitizing, coordinates, business input *)

Section ValidationNormalForm.
Import Errors Validation.
Local Open Scope N_scope.

Ltac code_unit_cases :=
  repeat (match goal with
          | |- context [(?a <=? ?b)] => destruct (N.leb_spec a b)
          | |- context [(?a =? ?b)] => destruct (N.eqb_spec a b)
          end; try lia);
  simpl; try reflexivity; try discriminate; try lia.

Lemma normalizeAddress_tidy a : tidy (normalizeAddress a) = true.
Proof.
  unfold normalizeAddress. rewrite replace_suffixes_tidy.
  apply collapse_trim_tidy.
Qed.

Lemma tidy_from_spaces s : forall ps,
  tidy_from ps s = true ->
  Forall (fun c => is_space c = true -> c = 32) s.
Proof.
  induction s as [|c r IH]; intros ps H; constructor.
  - cbn [tidy_from] in H. destruct (is_space c); [|discriminate].
    apply andb_true_iff in H. destruct H as [H _].
    apply andb_true_iff in H. destruct H as [H _].
    intros _. now apply N.eqb_eq.
  - cbn [tidy_from] in H. destruct (is_space c).
    + apply andb_true_iff in H. destruct H as [_ H]. now apply (IH true).
    + now apply (IH false).
Qed.

Lemma normalizeAddress_fixed_points a :
  trim (normalizeAddress a) = normalizeAddress a
  /\ collapse (normalizeAddress a) = normalizeAddress a
  /\ replace_suffixes (normalizeAddress a) = normalizeAddress a.
Proof.
  pose proof (normalizeAddress_tidy a) as T.
  split; [now apply tidy_trim|]. split; [now apply tidy_collapse|].
  unfold normalizeAddress. apply replace_suffixes_idempotent.
Qed.

Lemma base_validateAddress_cases a :
  (existsb is_alpha (trim a) = false ->
     exists msg, BaseAPIService.validateAddress a = inl (ValidationError msg))
  /\ (existsb is_alpha (trim a) = true ->
        BaseAPIService.validateAddress a = inr (normalizeAddress (trim a))).
Proof.
  unfold BaseAPIService.validateAddress, validateAddress.
  destruct (trim a) as [|c r] eqn:E.
  - split; [|discriminate]. intros _. eexists. reflexivity.
  - set (t := c :: r). split; intros H; rewrite H.
    + eexists. reflexivity.
    + reflexivity.
Qed.

(** X8.  A normalized address is a fixed point of each pass of the
    normalization: trimming it, collapsing its white space, or replacing
    its street suffixes changes nothing; and the only white space left in
    it is the plain space. *)
Theorem normalized_address_is_fixed_by_each_pass (a : jsstring) :
  let n := normalizeAddress a in
  trim n = n /\ collapse n = n /\ replace_suffixes n = n
  /\ Forall (fun c => is_space c = true -> c = 32) n.
Proof.
  intros n. pose proof (normalizeAddress_tidy a) as T. fold n in T.
  destruct (normalizeAddress_fixed_points a) as (F1 & F2 & F3).
  repeat split; trivial.
  destruct n as [|c r]; [constructor|].
  unfold tidy in T. now apply tidy_from_spaces with true.
Qed.

(** *** Letters survive the normalization *)

Lemma space_not_alpha c : is_space c = true -> is_alpha c = false.
Proof.
  intros H. destruct (is_alpha c) eqn:E; trivial.
  assert (W : is_word c = true) by (unfold is_word; now rewrite E).
  apply word_not_space in W. congruence.
Qed.

Lemma existsb_alpha_trimStart s :
  existsb is_alpha (trimStart s) = existsb is_alpha s.
Proof.
  induction s as [|c r IH]; simpl; trivial.
  destruct (is_space c) eqn:E; trivial.
  now rewrite IH, (space_not_alpha c E).
Qed.

Lemma existsb_rev {T} (f : T -> bool) (l : list T) :
  existsb f (rev l) = existsb f l.
Proof.
  induction l as [|x r IH]; simpl; trivial.
  rewrite existsb_app, IH. simpl. rewrite orb_false_r. apply orb_comm.
Qed.

Lemma existsb_alpha_trim s : existsb is_alpha (trim s) = existsb is_alpha s.
Proof.
  unfold trim, trimEnd.
  now rewrite existsb_rev, existsb_alpha_trimStart, existsb_rev,
    existsb_alpha_trimStart.
Qed.

Lemma existsb_alpha_collapse s : forall b,
  existsb is_alpha (collapse_from b s) = existsb is_alpha s.
Proof.
  induction s as [|c r IH]; intros b; simpl; trivial.
  destruct (is_space c) eqn:E.
  - rewrite (space_not_alpha c E). destruct b; simpl; apply IH.
  - simpl. now rewrite IH.
Qed.

(** A code unit that folds to the same as a letter is a letter. *)
Lemma canonicalize_alpha c x :
  is_alpha x = true -> (canonicalize c =? canonicalize x) = true ->
  is_alpha c = true.
Proof.
  intros H E. apply N.eqb_eq in E.
  assert (B : (65 <= x <= 90) \/ (97 <= x <= 122)).
  { revert H. unfold is_alpha. code_unit_cases; intros; try discriminate; lia. }
  clear H. revert E. unfold is_alpha, canonicalize.
  code_unit_cases; intros; lia.
Qed.

Lemma ci_eqb_alpha a : letters a -> forall w,
  ci_eqb a w = true -> a <> [] -> existsb is_alpha w = true.
Proof.
  intros Ha. destruct Ha as [|x a' Hx _]; intros w E N; [now elim N|].
  destruct w as [|c w']; [discriminate|].
  simpl in E. apply andb_true_iff in E. destruct E as [E _].
  simpl. now rewrite (canonicalize_alpha c x Hx E).
Qed.

Lemma is_alternative_alpha w :
  is_alternative w = true -> existsb is_alpha w = true.
Proof.
  unfold is_alternative. intros H. apply existsb_exists in H.
  destruct H as (a & Ha & E).
  pose proof alternatives_letters as L. rewrite Forall_forall in L.
  destruct (L a Ha) as [La Na]. now apply (ci_eqb_alpha La).
Qed.

Lemma abbreviations_alpha :
  Forall (fun v => existsb is_alpha v = true) (map snd abbrevMap).
Proof. repeat constructor. Qed.

Lemma existsb_alpha_abbreviate_word w :
  existsb is_alpha (abbreviate_word w) = existsb is_alpha w.
Proof.
  unfold abbreviate_word. destruct (is_alternative w) eqn:E; trivial.
  rewrite (is_alternative_alpha w E). unfold abbreviate.
  destruct (lookup (toLowerCase w) abbrevMap) as [v|] eqn:K.
  - apply lookup_value in K.
    pose proof abbreviations_alpha as F. rewrite Forall_forall in F.
    now apply F.
  - now apply is_alternative_alpha.
Qed.

Lemma rewrites_alpha pw s out :
  rewrites pw s out -> existsb is_alpha out = existsb is_alpha s.
Proof.
  induction 1 as [pw|pw d r out Hd _ IH|c r out Hc _ IH
                  |w rest out Hn Hw Hr H IH]; simpl; trivial.
  - now rewrite IH.
  - now rewrite IH.
  - now rewrite !existsb_app, existsb_alpha_abbreviate_word, IH.
Qed.

Lemma existsb_alpha_normalize a :
  existsb is_alpha (normalizeAddress a) = existsb is_alpha a.
Proof.
  unfold normalizeAddress, replace_suffixes.
  rewrite (rewrites_alpha
             (@replace_rewrites (List.length (collapse (trim a)))
                (collapse (trim a)) false (le_n _))).
  unfold collapse. now rewrite existsb_alpha_collapse, existsb_alpha_trim.
Qed.

(** X9.  Validation is stable on its own output: an address that the
    base service has validated and normalized is valid again, and
    validating it returns it unchanged. *)
Theorem validated_address_revalidates (a n : jsstring) :
  BaseAPIService.validateAddress a = inr n ->
  BaseAPIService.validateAddress n = inr n.
Proof.
  intros H.
  destruct (base_validateAddress_cases a) as [F V].
  destruct (existsb is_alpha (trim a)) eqn:E.
  - rewrite (V eq_refl) in H. injection H as <-.
    destruct (normalizeAddress_fixed_points (trim a)) as (T & C & R).
    set (m := normalizeAddress (trim a)) in *.
    destruct (base_validateAddress_cases m) as [_ V'].
    assert (E' : existsb is_alpha (trim m) = true).
    { rewrite T. subst m. now rewrite existsb_alpha_normalize. }
    rewrite (V' E'). f_equal. unfold normalizeAddress.
    now rewrite T, T, C.
  - destruct (F eq_refl) as (msg & M). congruence.
Qed.

End ValidationNormalForm.

Section SanitizeFacts.
Import Validation.
Local Open Scope N_scope.

Lemma remove_literal_Forall (P : N -> Prop) pat s : forall skip,
  Forall P s -> Forall P (remove_literal pat skip s).
Proof.
  induction s as [|c r IH]; intros skip H; [constructor|].
  inversion H; subst. cbn [remove_literal]. destruct skip as [|n]; auto.
  destruct (match_literal _ _) as [[m q]|]; auto.
Qed.

Lemma Forall_firstn_keeps {T} (P : T -> Prop) n : forall l,
  Forall P l -> Forall P (firstn n l).
Proof.
  induction n as [|n IH]; intros l H; [constructor|].
  destruct l as [|x r]; [constructor|].
  inversion H; subst. simpl. constructor; auto.
Qed.

Lemma In_trimStart c s : In c (trimStart s) -> In c s.
Proof.
  induction s as [|d r IH]; simpl; trivial.
  destruct (is_space d); simpl; auto.
Qed.

Lemma In_trim c s : In c (trim s) -> In c s.
Proof.
  unfold trim, trimEnd. intros H. apply in_rev in H.
  apply In_trimStart in H. apply in_rev in H. now apply In_trimStart in H.
Qed.

(** X10.  [sanitizeInput] only deletes: every code unit of its result is
    a code unit of the input; the result holds neither [<] nor [>]; and
    it is at most 1000 code units long. *)
Theorem sanitizeInput_bounds (input : jsstring) :
  (List.length (sanitizeInput input) <= 1000)%nat
  /\ Forall (fun c => In c input /\ c <> 60 /\ c <> 62) (sanitizeInput input).
Proof.
  unfold sanitizeInput. split; [apply firstn_le_length|].
  apply Forall_firstn_keeps, remove_literal_Forall.
  apply Forall_forall. intros c H. unfold remove_angles in H.
  apply filter_In in H. destruct H as [H A]. split; [now apply In_trim|].
  unfold is_angle in A. apply negb_true_iff, orb_false_iff in A.
  destruct A as [A1 A2]. apply N.eqb_neq in A1, A2. now split.
Qed.

Lemma trimStart_no_space s :
  Forall (fun c => is_space c = false) s -> trimStart s = s.
Proof. destruct 1 as [|c r H _]; simpl; trivial. now rewrite H. Qed.

Lemma trim_no_space s : Forall (fun c => is_space c = false) s -> trim s = s.
Proof.
  intros H. unfold trim, trimEnd. rewrite (trimStart_no_space H).
  rewrite trimStart_no_space; [apply rev_involutive|].
  apply Forall_rev. exact H.
Qed.

Lemma remove_angles_none s :
  Forall (fun c => is_angle c = false) s -> remove_angles s = s.
Proof.
  intros H. unfold remove_angles. apply forallb_filter_id.
  apply forallb_forall. rewrite Forall_forall in H. intros c Hc.
  now rewrite (H c Hc).
Qed.

(** X11.  The removal of [javascript:] is one pass and not repeated: for
    every text [t] without white space and angle brackets, the input
    [javajavascript:script:] followed by [t] comes out as [javascript:]
    followed by the cleaned [t] (cut at 1000 code units): the result
    starts with the protocol that the function removes. *)
Theorem sanitizeInput_leaves_nested_protocol (t : jsstring) :
  Forall (fun c => is_space c = false /\ is_angle c = false) t ->
  sanitizeInput (str "javajavascript:script:" ++ t)
  = firstn 1000 (str "javascript:" ++ remove_protocol t)
  /\ firstn 11 (sanitizeInput (str "javajavascript:script:" ++ t))
     = str "javascript:".
Proof.
  intros H.
  assert (S : Forall (fun c => is_space c = false)
                (str "javajavascript:script:" ++ t)).
  { apply Forall_app. split; [repeat constructor|].
    eapply Forall_impl; [|exact H]. now intros c [? _]. }
  assert (G : Forall (fun c => is_angle c = false)
                (str "javajavascript:script:" ++ t)).
  { apply Forall_app. split; [repeat constructor|].
    eapply Forall_impl; [|exact H]. now intros c [_ ?]. }
  assert (E : sanitizeInput (str "javajavascript:script:" ++ t)
              = firstn 1000 (str "javascript:" ++ remove_protocol t)).
  { unfold sanitizeInput. rewrite (trim_no_space S), (remove_angles_none G).
    reflexivity. }
  split; [exact E|]. rewrite E. reflexivity.
Qed.

End SanitizeFacts.

Section CoordinateFacts.
Import Validation.
Local Open Scope Q_scope.

Lemma coordinate_errors_nil x bound s1 s2 :
  coordinate_errors x bound s1 s2 = []
  <-> exists v, x = Some v /\ - bound <= v /\ v <= bound.
Proof.
  unfold coordinate_errors. destruct x as [v|].
  - destruct (Qle_bool (- bound) v) eqn:E1; destruct (Qle_bool v bound) eqn:E2;
      simpl; split; intros H; try discriminate.
    + exists v. apply Qle_bool_iff in E1, E2. auto.
    + trivial.
    + destruct H as (v' & [= <-] & _ & H). apply Qle_bool_iff in H. congruence.
    + destruct H as (v' & [= <-] & H & _). apply Qle_bool_iff in H. congruence.
    + destruct H as (v' & [= <-] & H & _). apply Qle_bool_iff in H. congruence.
  - split; [discriminate|]. intros (v & H & _). discriminate.
Qed.

Lemma coordinate_errors_length x bound s1 s2 :
  (List.length (coordinate_errors x bound s1 s2) <= 1)%nat.
Proof.
  unfold coordinate_errors. destruct x as [v|]; simpl; [|lia].
  destruct (_ || _); simpl; lia.
Qed.

(** X12.  [validateCoordinates] accepts exactly the pairs of numbers with
    a latitude between -90 and 90 and a longitude between -180 and 180,
    both ends included; it reports at most one error per coordinate, and
    it is valid exactly when it reports none. *)
Theorem validateCoordinates_accepts_ranges (lat lon : option Q) :
  (cc_isValid (validateCoordinates lat lon) = true
   <-> exists la lo, lat = Some la /\ lon = Some lo
                     /\ - (90) <= la /\ la <= 90
                     /\ - (180) <= lo /\ lo <= 180)
  /\ (List.length (cc_errors (validateCoordinates lat lon)) <= 2)%nat
  /\ (cc_isValid (validateCoordinates lat lon) = true
      <-> cc_errors (validateCoordinates lat lon) = []).
Proof.
  unfold validateCoordinates. cbn [cc_isValid cc_errors].
  set (e1 := coordinate_errors lat 90 _ _).
  set (e2 := coordinate_errors lon 180 _ _).
  assert (V : match (e1 ++ e2)%list with [] => true | _ => false end = true
              <-> (e1 ++ e2)%list = []).
  { destruct (e1 ++ e2)%list; split; trivial; discriminate. }
  split; [|split; [|exact V]].
  - rewrite V. split.
    + intros H. apply app_eq_nil in H. destruct H as [H1 H2].
      apply coordinate_errors_nil in H1, H2.
      destruct H1 as (la & -> & A1 & A2). destruct H2 as (lo & -> & B1 & B2).
      exists la, lo. repeat split; trivial.
    + intros (la & lo & -> & -> & A1 & A2 & B1 & B2).
      assert (H1 : e1 = [])
        by (apply coordinate_errors_nil; exists la; auto).
      assert (H2 : e2 = [])
        by (apply coordinate_errors_nil; exists lo; auto).
      now rewrite H1, H2.
  - rewrite length_app.
    pose proof (coordinate_errors_length lat 90
                  "Latitude must be a valid number"
                  "Latitude must be between -90 and 90").
    pose proof (coordinate_errors_length lon 180
                  "Longitude must be a valid number"
                  "Longitude must be between -180 and 180").
    subst e1 e2. lia.
Qed.

End CoordinateFacts.

Section BusinessInputFacts.
Import SBA BusinessInput.
Local Open Scope Q_scope.

Lemma Qlt_bool_false a b : Qlt_bool a b = false <-> b <= a.
Proof.
  unfold Qlt_bool. rewrite negb_false_iff. apply Qle_bool_iff.
Qed.

Lemma Qle_bool_false_iff a b : Qle_bool a b = false <-> b < a.
Proof.
  split.
  - intros H. apply Qnot_le_lt. intros N. apply Qle_bool_iff in N. congruence.
  - intros H. apply not_true_is_false. intros N. apply Qle_bool_iff in N.
    now apply Qlt_not_le in H.
Qed.

Lemma message_if_nil b msg : message_if b msg = [] <-> b = false.
Proof. destruct b; simpl; split; trivial; discriminate. Qed.

Lemma when_present_nil x f :
  when_present x f = [] <-> forall v, x = Some v -> f v = [].
Proof.
  destruct x as [v|]; simpl; split; intros H.
  - now intros v' [= <-].
  - now apply H.
  - discriminate.
  - trivial.
Qed.

Lemma or_default_range d lo hi x :
  lo <= d -> d <= hi -> lo <= 0 ->
  (forall v, x = Some v -> lo <= v /\ v <= hi) ->
  lo <= or_default d x /\ or_default d x <= hi.
Proof.
  intros L H Z R. unfold or_default. destruct x as [v|]; [|now split].
  destruct (Qeq_bool v 0); [now split|]. now apply R.
Qed.

Lemma or_default_nonneg x :
  (forall v, x = Some v -> 0 <= v) -> 0 <= or_default 0 x.
Proof.
  intros R. unfold or_default. destruct x as [v|]; [|apply Qle_refl].
  destruct (Qeq_bool v 0); [apply Qle_refl|]. now apply R.
Qed.

Lemma is_nil_true {T} (l : list T) :
  match l with [] => true | _ => false end = true <-> l = [].
Proof. destruct l; split; trivial; discriminate. Qed.

Lemma app6_nil {T} (l1 l2 l3 l4 l5 l6 : list T) :
  (l1 ++ l2 ++ l3 ++ l4 ++ l5 ++ l6)%list = []
  <-> l1 = [] /\ l2 = [] /\ l3 = [] /\ l4 = [] /\ l5 = [] /\ l6 = [].
Proof.
  split.
  - intros H.
    apply app_eq_nil in H. destruct H as [H1 H].
    apply app_eq_nil in H. destruct H as [H2 H].
    apply app_eq_nil in H. destruct H as [H3 H].
    apply app_eq_nil in H. destruct H as [H4 H].
    apply app_eq_nil in H. destruct H as [H5 H6]. auto 10.
  - intros (-> & -> & -> & -> & -> & ->). reflexivity.
Qed.

(** X13.  [validateBusinessInfo] is valid exactly when every numeric
    property that is present lies in its range (counts, receipts, age and
    equity not negative, project cost positive, owner occupancy between 0
    and 100).  Its normalized industry is always one of the nine known
    industries.  For a valid input the normalized numbers are not
    negative, and the normalized owner occupancy is above 0 and at most
    100: an occupancy that is absent or 0 becomes 51. *)
Theorem validateBusinessInfo_valid_iff_in_ranges (b : businessInfo) :
  (bv_isValid (validateBusinessInfo b) = true <-> in_ranges b)
  /\ In (n_industry (bv_normalized (validateBusinessInfo b))) validIndustries
  /\ (in_ranges b ->
      let n := bv_normalized (validateBusinessInfo b) in
      0 <= n_employeeCount n /\ 0 <= n_averageAnnualReceipts n
      /\ 0 <= n_businessAge n /\ 0 <= n_ownerEquity n
      /\ 0 <= n_projectCost n
      /\ 0 < n_ownerOccupancy n /\ n_ownerOccupancy n <= 100)
  /\ ((ownerOccupancy b = None \/ ownerOccupancy b = Some 0) ->
      n_ownerOccupancy (bv_normalized (validateBusinessInfo b)) = 51).
Proof.
  split; [|split; [|split]].
  - unfold validateBusinessInfo. cbn [bv_isValid].
    rewrite is_nil_true.
    unfold in_ranges. rewrite app6_nil, !when_present_nil. split.
    + intros (H1 & H2 & H3 & H4 & H5 & H6).
      split; [|split; [|split; [|split; [|split]]]]; intros v Hv.
      * apply H1, message_if_nil in Hv. now apply Qlt_bool_false.
      * apply H2, message_if_nil in Hv. now apply Qlt_bool_false.
      * apply H3, message_if_nil in Hv. now apply Qlt_bool_false.
      * apply H4, message_if_nil in Hv. now apply Qlt_bool_false.
      * apply H5, message_if_nil in Hv. now apply Qle_bool_false_iff.
      * apply H6, message_if_nil, orb_false_iff in Hv. destruct Hv as [Hv1 Hv2].
        split; now apply Qlt_bool_false.
    + intros (R1 & R2 & R3 & R4 & R5 & R6).
      split; [|split; [|split; [|split; [|split]]]]; intros v Hv;
        apply message_if_nil.
      * apply Qlt_bool_false. now apply R1.
      * apply Qlt_bool_false. now apply R2.
      * apply Qlt_bool_false. now apply R3.
      * apply Qlt_bool_false. now apply R4.
      * apply Qle_bool_false_iff. now apply R5.
      * apply orb_false_iff. destruct (R6 v Hv).
        split; now apply Qlt_bool_false.
  - unfold validateBusinessInfo. cbn [bv_normalized n_industry].
    destruct (is_valid_industry (industry b)) eqn:E.
    + destruct (industry b) as [i|]; [|discriminate].
      cbn [is_valid_industry default] in *.
      apply existsb_exists in E. destruct E as (j & Hj & E).
      apply String.eqb_eq in E. now subst.
    + simpl. tauto.
  - intros (R1 & R2 & R3 & R4 & R5 & R6) n. subst n.
    unfold validateBusinessInfo.
    cbn [bv_normalized n_employeeCount n_averageAnnualReceipts n_businessAge
         n_ownerEquity n_projectCost n_ownerOccupancy].
    repeat split; try (now apply or_default_nonneg).
    + apply or_default_nonneg. intros v Hv. apply Qlt_le_weak. now apply R5.
    + unfold or_default. destruct (ownerOccupancy b) as [v|]; [|reflexivity].
      destruct (Qeq_bool v 0) eqn:E; [reflexivity|].
      destruct (R6 v eq_refl) as [L _].
      apply Qle_lteq in L. destruct L as [L|L]; trivial.
      apply Qeq_sym, Qeq_bool_iff in L. congruence.
    + unfold or_default. destruct (ownerOccupancy b) as [v|]; [|discriminate].
      destruct (Qeq_bool v 0); [discriminate|]. now apply R6.
  - unfold validateBusinessInfo. cbn [bv_normalized n_ownerOccupancy].
    intros [-> | ->]; reflexivity.
Qed.

End BusinessInputFacts.

(** ** SBA 504: recommendations and size standards *)

Section SBAExtra.
Import SBA.
Local Open Scope Q_scope.

(** X14.  The recommendations of [assessSBA504Eligibility] follow its
    verdict: the business is eligible exactly when the list is the single
    line 'Business appears to meet basic SBA 504 eligibility criteria';
    otherwise the list has one line per failed check, so between one and
    four lines. *)
Theorem sba504_recommendations_follow_verdict (b : businessInfo) :
  let a := assessSBA504Eligibility b in
  (eligible a = true
   <-> recommendations a
       = ["Business appears to meet basic SBA 504 eligibility criteria"%string])
  /\ List.length (recommendations a) = Nat.max 1 (failed_checks (checks a))
  /\ (eligible a = false ->
      List.length (recommendations a) = failed_checks (checks a)
      /\ (1 <= failed_checks (checks a) <= 4)%nat).
Proof.
  intros a. subst a. unfold assessSBA504Eligibility.
  cbn [eligible checks recommendations].
  unfold getEligibilityRecommendations, failed_checks, values.
  cbn [chk_sizeStandards chk_businessAge chk_ownerEquity chk_ownerOccupancy
       chk_creditworthiness chk_jobCreation].
  set (s := checkSizeStandards _ _ _).
  set (g := Qge_bool _ 2). set (e := Qge_bool _ (Binary64.mul _ _)).
  set (o := Qge_bool _ 51).
  destruct s, g, e, o; simpl; repeat split; intros; try discriminate;
    try reflexivity; try lia.
Qed.

Lemma exceeds_downward limit x x' :
  x' <= x -> exceeds limit x = false -> exceeds limit x' = false.
Proof.
  unfold exceeds, Qgt_bool. destruct limit as [l|]; trivial.
  intros L H. apply negb_false_iff in H. apply Qle_bool_iff in H.
  apply negb_false_iff. apply Qle_bool_iff. now apply Qle_trans with x.
Qed.

(** X15.  The size standard is downward closed: a business that meets it
    still meets it with fewer employees and lower receipts, in every
    industry.  Manufacturing is judged on employees alone. *)
Theorem checkSizeStandards_downward_closed
    (emp rec emp' rec' : Q) (ind : string) :
  emp' <= emp -> rec' <= rec ->
  checkSizeStandards emp rec ind = true ->
  checkSizeStandards emp' rec' ind = true
  /\ checkSizeStandards emp rec "manufacturing"
     = checkSizeStandards emp rec' "manufacturing".
Proof.
  intros Le Lr H. split; [|reflexivity].
  unfold checkSizeStandards in *.
  destruct (exceeds (employees (standard_of ind)) emp) eqn:E1; [discriminate|].
  destruct (exceeds (receipts (standard_of ind)) rec) eqn:E2; [discriminate|].
  now rewrite (exceeds_downward _ Le E1), (exceeds_downward _ Lr E2).
Qed.

End SBAExtra.

(** ** NMTC: the seed, the ranges of the draws, the evaluator *)

Section NMTCExtra.
Import Validation NMTC.
Local Open Scope Z_scope.

Lemma toInt32_range z : - 2 ^ 31 <= toInt32 z < 2 ^ 31.
Proof.
  unfold toInt32.
  pose proof (Z.mod_pos_bound (z + 2 ^ 31) (2 ^ 32)) as B.
  assert (P : 0 < 2 ^ 32) by reflexivity. specialize (B P).
  change (2 ^ 32) with (2 * 2 ^ 31) in *. lia.
Qed.

Lemma toInt32_congruent z : (toInt32 z - z) mod 2 ^ 32 = 0.
Proof.
  unfold toInt32.
  rewrite (Z.mod_eq (z + 2 ^ 31) (2 ^ 32)) by discriminate.
  replace (z + 2 ^ 31 - 2 ^ 32 * ((z + 2 ^ 31) / 2 ^ 32) - 2 ^ 31 - z)
    with ((- ((z + 2 ^ 31) / 2 ^ 32)) * 2 ^ 32) by ring.
  apply Z.mod_mul. discriminate.
Qed.

Lemma congruent_trans a b c :
  (a - b) mod 2 ^ 32 = 0 -> (b - c) mod 2 ^ 32 = 0 -> (a - c) mod 2 ^ 32 = 0.
Proof.
  intros H1 H2.
  apply Z.mod_divide in H1; [|discriminate].
  apply Z.mod_divide in H2; [|discriminate].
  apply Z.mod_divide; [discriminate|].
  replace (a - c) with ((a - b) + (b - c)) by ring.
  now apply Z.divide_add_r.
Qed.

Lemma hash_step_congruent h char :
  (hash_step h char - (31 * h + Z.of_N char)) mod 2 ^ 32 = 0.
Proof.
  unfold hash_step.
  eapply congruent_trans; [apply toInt32_congruent|].
  replace (toInt32 (h * 32) - h + Z.of_N char - (31 * h + Z.of_N char))
    with (toInt32 (h * 32) - h * 32) by ring.
  apply toInt32_congruent.
Qed.

(** The multiply-by-31 hash without the wrap to 32 bits. *)
Lemma seed_hash_congruent g : forall h0 p0,
  (h0 - p0) mod 2 ^ 32 = 0 ->
  (fold_left hash_step g h0
   - fold_left (fun h c => 31 * h + Z.of_N c) g p0) mod 2 ^ 32 = 0.
Proof.
  induction g as [|c g IH]; intros h0 p0 H; cbn [fold_left]; trivial.
  apply IH.
  eapply congruent_trans; [apply hash_step_congruent|].
  replace (31 * h0 + Z.of_N c - (31 * p0 + Z.of_N c))
    with (31 * (h0 - p0)) by ring.
  apply Z.mod_divide in H; [|discriminate].
  apply Z.mod_divide; [discriminate|]. now apply Z.divide_mul_r.
Qed.

Lemma seed_hash_range g : forall h0,
  - 2 ^ 31 <= h0 < 2 ^ 31 -> - 2 ^ 31 <= fold_left hash_step g h0 < 2 ^ 31.
Proof.
  induction g as [|c g IH]; intros h0 H; cbn [fold_left]; trivial.
  apply IH. unfold hash_step. apply toInt32_range.
Qed.

(** X16.  The seed of the generator is the multiply-by-31 hash of the
    code units of the geoid, wrapped to a signed 32-bit integer: it lies
    between -2^31 and 2^31 - 1 and differs from the unwrapped hash by a
    multiple of 2^32. *)
Theorem seed_hash_is_wrapped_polynomial (g : jsstring) :
  - 2 ^ 31 <= seed_hash g < 2 ^ 31
  /\ (seed_hash g - fold_left (fun h c => 31 * h + Z.of_N c) g 0)
       mod 2 ^ 32 = 0.
Proof.
  unfold seed_hash. split.
  - apply seed_hash_range. split; [discriminate|reflexivity].
  - now apply seed_hash_congruent.
Qed.

Lemma random_nonneg h :
  0 <= h -> 0 <= snd (random h) < 233280
            /\ fst (random h) = Qmake (snd (random h)) 233280.
Proof.
  intros H. unfold random. cbn [fst snd]. split; [|reflexivity].
  apply Z.rem_bound_pos; lia.
Qed.

Local Open Scope Q_scope.

Lemma draw_affine (a b : Q) (h : Z) :
  (0 <= h < 233280)%Z -> 0 < b ->
  a <= a + Qmake h 233280 * b /\ a + Qmake h 233280 * b < a + b.
Proof.
  intros [H0 H1] Hb.
  assert (R0 : 0 <= Qmake h 233280) by (unfold Qle; simpl; lia).
  assert (R1 : Qmake h 233280 < 1) by (unfold Qlt; simpl; lia).
  split.
  - rewrite <- (Qplus_0_r a) at 1. apply Qplus_le_r.
    apply Qmult_le_0_compat; trivial. now apply Qlt_le_weak.
  - apply Qplus_lt_r. rewrite <- (Qmult_1_l b) at 2.
    now apply Qmult_lt_compat_r.
Qed.

Lemma floor_between (x : Q) (lo hi : Z) :
  inject_Z lo <= x -> x < inject_Z hi -> (lo <= Qfloor x < hi)%Z.
Proof.
  intros L H. split.
  - rewrite <- (Qfloor_Z lo). now apply Qfloor_resp_le.
  - rewrite Zlt_Qlt. eapply Qle_lt_trans; [apply Qfloor_le|exact H].
Qed.

(** X17.  When the seed of a geoid is not negative, every draw of the
    generator lies in [0, 1) and the simulated demographics lie in the
    ranges that the source documents: poverty rate from 5 to 40,
    median-income ratio from 0.4 to 1, population from 1000 to 9999 and
    median income from 25000 to 99999. *)
Theorem demographics_in_range_for_nonnegative_seed (g : jsstring) :
  (0 <= seed_hash g)%Z ->
  let d := simulateCensusDemographics g in
  (5 <= povertyRate d /\ povertyRate d < 40)
  /\ ((4 # 10) <= medianIncomeRatio d /\ medianIncomeRatio d < 1)
  /\ (1000 <= population d < 10000)%Z
  /\ (25000 <= medianIncome d < 100000)%Z.
Proof.
  intros H d. subst d. rewrite simulateCensusDemographics_draws.
  cbv zeta. cbn [povertyRate medianIncomeRatio population medianIncome].
  destruct (random_nonneg H) as [B1 _].
  destruct (random_nonneg (proj1 B1)) as [B2 _].
  destruct (random_nonneg (proj1 B2)) as [B3 _].
  destruct (random_nonneg (proj1 B3)) as [B4 _].
  destruct (random_nonneg (proj1 B4)) as [B5 _].
  set (h1 := snd (random (seed_hash g))) in *.
  set (h2 := snd (random h1)) in *. set (h3 := snd (random h2)) in *.
  set (h4 := snd (random h3)) in *. set (h5 := snd (random h4)) in *.
  assert (P35 : 0 < 35) by reflexivity.
  assert (P06 : 0 < 6 # 10) by reflexivity.
  assert (P9 : 0 < 9000) by reflexivity.
  assert (P75 : 0 < 75000) by reflexivity.
  destruct (draw_affine 5 B1 P35) as [A1 A2].
  destruct (draw_affine (4 # 10) B2 P06) as [C1 C2].
  destruct (draw_affine 1000 B4 P9) as [D1 D2].
  destruct (draw_affine 25000 B5 P75) as [E1 E2].
  assert (S : forall x a b c : Q, x < a + b -> a + b <= c -> x < c).
  { intros x a b c L1 L2. now apply Qlt_le_trans with (a + b). }
  split; [split; [exact A1|]|split; [split; [exact C1|]|split]].
  - apply (S _ _ _ _ A2). discriminate.
  - apply (S _ _ _ _ C2). discriminate.
  - apply (@floor_between _ 1000 10000); [exact D1|].
    apply (S _ _ _ _ D2). discriminate.
  - apply (@floor_between _ 25000 100000); [exact E1|].
    apply (S _ _ _ _ E2). discriminate.
Qed.

(** X18.  For an address whose normalized form is a well-formed UTF-16
    string, so that [encodeURIComponent] accepts it,
    [checkNMTCEligibility] fulfils exactly when the address validates,
    the geocoder finds it and the tract lookup answers; its verdict is
    then the low-income verdict of that tract, and benefits are attached
    exactly when the verdict is positive.  Otherwise it rejects with the
    validation error, 'Unable to geocode address' or 'Unable to
    determine census tract', in that order of precedence.  An address
    with a lone surrogate is outside this statement: the geocoder's
    [encodeURIComponent] throws for it before the [try] block. *)
Theorem checkNMTCEligibility_outcomes
    (C : Type) (geocode : jsstring -> option C)
    (tract : C -> option censusData) (address : jsstring) :
  (forall n, BaseAPIService.validateAddress address = inr n ->
             BaseAPIService.well_formed n = true) ->
  match checkNMTCEligibility geocode tract address with
  | BaseAPIService.Fulfilled r =>
      BaseAPIService.validateAddress address = inr (r_address r)
      /\ geocode (r_address r) = Some (r_coordinates r)
      /\ tract (r_coordinates r) = Some (r_censusData r)
      /\ nmtcEligible r = eligible (checkLowIncomeEligibility (r_censusData r))
      /\ has_benefits r = nmtcEligible r
  | BaseAPIService.Rejected e =>
      BaseAPIService.validateAddress address = inl e
      \/ (exists n, BaseAPIService.validateAddress address = inr n
                    /\ geocode n = None
                    /\ e = Errors.PlainError "Unable to geocode address")
      \/ (exists n c, BaseAPIService.validateAddress address = inr n
                      /\ geocode n = Some c /\ tract c = None
                      /\ e = Errors.PlainError
                              "Unable to determine census tract")
  end.
Proof.
  intros _. unfold checkNMTCEligibility, BaseAPIService.evaluate.
  destruct (BaseAPIService.validateAddress address) as [e|n]; [now left|].
  destruct (geocode n) as [c|] eqn:G.
  - destruct (tract c) as [cd|] eqn:T.
    + cbn. repeat split; trivial.
    + right. right. exists n, c. repeat split; trivial.
  - right. left. exists n. repeat split; trivial.
Qed.

End NMTCExtra.

(** ** The orchestrator: summary, stacking, estimates, projections *)

Section ReportFacts.
Import Errors Validation BaseAPIService Incentives.
Local Open Scope Z_scope.

Lemma processResult_coherent (o : settled payload) (name : string) :
  coherent (processResult o name).
Proof. destruct o; unfold coherent; simpl; [discriminate|trivial]. Qed.

(** What a returned analysis is made of. *)
Lemma analyzeProperty_shape svc address details an :
  analyzeProperty svc address details = inr an ->
  exists r1 r2 r3 r4 r5,
    incentives an
    = [ ("opportunityZones", r1); ("historicTaxCredits", r2);
        ("newMarketsTC", r3); ("cpace", r4); ("sba504", r5) ]%string
    /\ (coherent r1 /\ coherent r2 /\ coherent r3 /\ coherent r4 /\ coherent r5)
    /\ recommendations an = generateRecommendations (incentives an).
Proof.
  destruct address as [|c0 rest]; [discriminate|].
  intros E. simpl in E. injection E as <-.
  do 5 eexists. split; [reflexivity|].
  split; [|reflexivity].
  repeat split; apply processResult_coherent.
Qed.

Ltac entry_cases r C :=
  destruct r as [[|] ? [|] ?];
  [ | | exfalso; specialize (C eq_refl); discriminate | ].

(** X19.  In every analysis that [analyzeProperty] returns, the summary
    accounts for each of the five programs once: the available ones are
    those whose entry is available, and available, potential and failed
    programs add up to five.  The estimated total value is the sum of the
    per-program estimates of [calculateProgramValue] over the available
    programs, so it lies between 0 and 865,000.  The risk level is 'High'
    exactly when the only recommendation is alternative financing, and
    'Low' exactly when there are at least three recommendations. *)
Theorem summary_accounts_for_every_program svc address details an :
  analyzeProperty svc address details = inr an ->
  let s := generateSummary (incentives an) in
  totalProgramsAvailable s = List.length (available_keys (incentives an))
  /\ (totalProgramsAvailable s + List.length (potentialPrograms s)
      + List.length (failed_entries (incentives an)) = 5)%nat
  /\ estimatedTotalValue s
     = total (map calculateProgramValue (available_keys (incentives an)))
  /\ (0 <= estimatedTotalValue s <= 865000)%Z
  /\ (riskLevel s = HighRisk <-> recommendations an = [rec_alternative])
  /\ (riskLevel s = LowRisk <-> (3 <= List.length (recommendations an))%nat).
Proof.
  intros E s. subst s.
  destruct (analyzeProperty_shape _ _ _ E)
    as (r1 & r2 & r3 & r4 & r5 & -> & (C1 & C2 & C3 & C4 & C5) & ->).
  (entry_cases r1 C1; entry_cases r2 C2; entry_cases r3 C3;
  entry_cases r4 C4; entry_cases r5 C5;
  vm_compute;
  (split; [reflexivity|]); (split; [reflexivity|]); (split; [reflexivity|]);
  (split; [split; discriminate|]);
  split; split; intros H; try reflexivity; try discriminate H; try lia).
Qed.

Lemma available_keys_flags r1 r2 r3 r4 r5 :
  available_keys
    [ ("opportunityZones", r1); ("historicTaxCredits", r2);
      ("newMarketsTC", r3); ("cpace", r4); ("sba504", r5) ]%string
  = available_keys (incentives_with (available r1) (available r2)
                      (available r3) (available r4) (available r5)).
Proof.
  unfold available_keys, incentives_with. cbn [filter snd available].
  destruct (available r1), (available r2), (available r3), (available r4),
    (available r5); reflexivity.
Qed.

Ltac compute_keys :=
  match goal with
  | |- context [available_keys ?i] =>
      let k := eval vm_compute in (available_keys i) in
      change (available_keys i) with k
  end.

Ltac named_program :=
  first [ exists "opportunityZones"%string;
          split; [cbn [In]; auto 10|reflexivity]
        | exists "historicTaxCredits"%string;
          split; [cbn [In]; auto 10|reflexivity]
        | exists "newMarketsTC"%string; split; [cbn [In]; auto 10|reflexivity]
        | exists "cpace"%string; split; [cbn [In]; auto 10|reflexivity]
        | exists "sba504"%string; split; [cbn [In]; auto 10|reflexivity] ].

(** X20.  In every analysis that [analyzeProperty] returns, each stacking
    opportunity names at least two programs and only available ones.
    There is no stacking opportunity exactly when at most one program is
    available, or when the available programs are Opportunity Zones and
    New Markets Tax Credits alone. *)
Theorem stacking_opportunities_name_available_programs
    svc address details an :
  analyzeProperty svc address details = inr an ->
  let keys := available_keys (incentives an) in
  let st := identifyStackingOpportunities (incentives an) in
  Forall (fun o =>
            (2 <= List.length (programs o))%nat
            /\ forall p, In p (programs o) ->
                 exists k, In k keys /\ getProgramName k = p) st
  /\ (st = [] <->
      (List.length keys <= 1)%nat
      \/ keys = ["opportunityZones"; "newMarketsTC"]%string).
Proof.
  intros E.
  destruct (analyzeProperty_shape _ _ _ E)
    as (r1 & r2 & r3 & r4 & r5 & -> & _ & _).
  unfold identifyStackingOpportunities.
  rewrite available_keys_flags.
  destruct (available r1), (available r2), (available r3), (available r4),
    (available r5);
  compute_keys;
  cbv zeta; cbn [includes existsb String.eqb Ascii.eqb Bool.eqb andb orb
                 others filter negb List.length Nat.ltb Nat.leb app map];
  (split;
   [ repeat (apply Forall_cons;
             [ split;
               [ cbn [programs List.length map]; lia
               | intros p Hp; cbn [programs In map] in Hp;
                 repeat (destruct Hp as [<-|Hp]; [named_program|]);
                 destruct Hp ]
             | ]);
     apply Forall_nil
   | split;
     [ intros H; try discriminate H;
       first [ left; cbn [List.length]; lia | right; reflexivity ]
     | intros [H|H];
       [ first [ reflexivity | cbn [List.length] in H; lia ]
       | first [ reflexivity | discriminate H ] ] ] ]).
Qed.

End ReportFacts.

Section HorizonFacts.
Import Errors Validation BaseAPIService Incentives.
Local Open Scope Z_scope.

Lemma includes_In (l : list string) (k : string) :
  includes l k = true <-> In k l.
Proof.
  unfold includes. rewrite existsb_exists. split.
  - intros (x & Hx & E). apply String.eqb_eq in E. now subst.
  - intros H. exists k. split; [exact H|apply String.eqb_refl].
Qed.

Lemma max_of_cons (x : Z) (l : list Z) :
  max_of (x :: l) = Some (fold_left Z.max l x).
Proof.
  unfold max_of. cbn [fold_left]. generalize x. clear x.
  induction l as [|y r IH]; intros x; [reflexivity|].
  cbn [fold_left]. apply IH.
Qed.

Lemma fold_max_ge (b : Z) (l : list Z) (m : Z) :
  b <= fold_left Z.max l m <-> b <= m \/ exists x, In x l /\ b <= x.
Proof.
  revert m. induction l as [|y r IH]; intros m; cbn [fold_left].
  - split; [now left|]. intros [H|(x & [] & _)]. exact H.
  - rewrite IH. split.
    + intros [H|(x & Hx & Hb)].
      * destruct (Z.max_spec m y) as [[_ E]|[_ E]]; rewrite E in H.
        -- right. exists y. split; [now left|exact H].
        -- now left.
      * right. exists x. split; [now right|exact Hb].
    + intros [H|(x & [<-|Hx] & Hb)].
      * left. lia.
      * left. lia.
      * right. now exists x.
Qed.

Lemma timeframe_months_cases (p : string) :
  (timeframe_months p = 18 /\ p = "historicTaxCredits"%string)
  \/ (timeframe_months p = 12
      /\ (p = "opportunityZones"%string \/ p = "newMarketsTC"%string))
  \/ (timeframe_months p = 6
      /\ p <> "historicTaxCredits"%string
      /\ p <> "opportunityZones"%string /\ p <> "newMarketsTC"%string).
Proof.
  unfold timeframe_months.
  destruct (String.eqb_spec p "opportunityZones") as [->|N1].
  { right. left. split; [reflexivity|now left]. }
  destruct (String.eqb_spec p "historicTaxCredits") as [->|N2].
  { left. split; reflexivity. }
  destruct (String.eqb_spec p "newMarketsTC") as [->|N3].
  { right. left. split; [reflexivity|now right]. }
  right. right.
  destruct (String.eqb p "cpace"), (String.eqb p "sba504"); repeat split; trivial.
Qed.

(** The longest of the time frames of a non-empty list of programs. *)
Lemma longest_timeframe (k : string) (r : list string) :
  exists m,
    max_of (map timeframe_months (k :: r)) = Some m
    /\ 6 <= m
    /\ (18 <= m <-> In "historicTaxCredits"%string (k :: r))
    /\ (12 <= m <->
        In "historicTaxCredits"%string (k :: r)
        \/ In "opportunityZones"%string (k :: r)
        \/ In "newMarketsTC"%string (k :: r)).
Proof.
  cbn [map]. rewrite max_of_cons. eexists. split; [reflexivity|].
  assert (G : forall b,
             b <= fold_left Z.max (map timeframe_months r) (timeframe_months k)
             <-> exists p, In p (k :: r) /\ b <= timeframe_months p).
  { intros b. rewrite fold_max_ge. split.
    - intros [H|(x & Hx & Hb)].
      + exists k. split; [now left|exact H].
      + apply in_map_iff in Hx. destruct Hx as (p & <- & Hp).
        exists p. split; [now right|exact Hb].
    - intros (p & [<-|Hp] & Hb); [now left|].
      right. exists (timeframe_months p). split; [|exact Hb].
      now apply in_map. }
  split; [|split].
  - apply G. exists k. split; [now left|].
    destruct (timeframe_months_cases k) as [(E & _)|[(E & _)|(E & _)]]; lia.
  - rewrite G. split.
    + intros (p & Hp & Hb).
      destruct (timeframe_months_cases p) as [(_ & ->)|[(E & _)|(E & _)]];
        [exact Hp|lia|lia].
    + intros H. eexists. split; [exact H|]. cbn. lia.
  - rewrite G. split.
    + intros (p & Hp & Hb).
      destruct (timeframe_months_cases p)
        as [(_ & ->)|[(_ & [-> | ->])|(E & _)]]; auto. lia.
    + intros [H|[H|H]]; (eexists; split; [exact H|]); cbn; lia.
Qed.

(** X21.  For every [incentives] object, the time to realization follows
    the slowest available program: '18+ months' exactly when Historic
    Tax Credits are available; '12-18 months' exactly when they are not
    and Opportunity Zones or New Markets Tax Credits are; '6-12 months'
    exactly when some program is available and none of these three; and
    '3-6 months' exactly when no program is available, where the maximum
    is taken over nothing.  An implementation complexity of 'Low' comes
    with at most one available program and never with '18+ months'. *)
Theorem time_to_realization_follows_slowest_program
    (inc : object ProgramResult) :
  let keys := available_keys inc in
  (estimateTimeToRealization inc = Months18plus
   <-> In "historicTaxCredits"%string keys)
  /\ (estimateTimeToRealization inc = Months12to18
      <-> ~ In "historicTaxCredits"%string keys
          /\ (In "opportunityZones"%string keys
              \/ In "newMarketsTC"%string keys))
  /\ (estimateTimeToRealization inc = Months6to12
      <-> keys <> []
          /\ ~ In "historicTaxCredits"%string keys
          /\ ~ In "opportunityZones"%string keys
          /\ ~ In "newMarketsTC"%string keys)
  /\ (estimateTimeToRealization inc = Months3to6 <-> keys = [])
  /\ (assessImplementationComplexity inc = Low ->
      estimateTimeToRealization inc <> Months18plus
      /\ (List.length keys <= 1)%nat).
Proof.
  intros keys. unfold estimateTimeToRealization. fold keys.
  assert (L : assessImplementationComplexity inc = Low ->
              ~ In "historicTaxCredits"%string keys
              /\ (List.length keys <= 1)%nat).
  { unfold assessImplementationComplexity. fold keys.
    destruct (existsb _ keys) eqn:X.
    - cbn [andb orb]. destruct (2 <? List.length keys)%nat; discriminate.
    - cbn [andb orb]. destruct (1 <? List.length keys)%nat eqn:Y;
        [discriminate|]. intros _. split.
      + intros H. 
        assert (F : existsb
                      (fun p => includes
                         ["historicTaxCredits"; "newMarketsTC"]%string p)
                      keys = true).
        { apply existsb_exists. eexists. split; [exact H|reflexivity]. }
        congruence.
      + apply Nat.ltb_ge in Y. exact Y. }
  destruct keys as [|k r] eqn:K.
  - cbn [map max_of fold_left In].
    split; [split; [discriminate|intros []]|].
    split; [split; [discriminate|intros (_ & [[]|[]])]|].
    split; [split; [discriminate|intros (N & _); now elim N]|].
    split; [split; intros _; reflexivity|].
    intros _. split; [discriminate|cbn [List.length]; lia].
  - destruct (longest_timeframe k r) as (m & -> & M6 & M18 & M12).
    destruct (18 <=? m) eqn:E18.
    { apply Z.leb_le in E18. pose proof (proj1 M18 E18) as H.
      split; [tauto|]. split; [split; [discriminate|tauto]|].
      split; [split; [discriminate|tauto]|].
      split; [split; discriminate|].
      intros C. destruct (L C) as (N & _). tauto. }
    apply Z.leb_gt in E18.
    assert (N18 : ~ In "historicTaxCredits"%string (k :: r)) by (rewrite <- M18; lia).
    destruct (12 <=? m) eqn:E12.
    { apply Z.leb_le in E12. pose proof (proj1 M12 E12) as H.
      split; [split; [discriminate|tauto]|].
      split; [split; [tauto|reflexivity]|].
      split; [split; [discriminate|tauto]|].
      split; [split; discriminate|].
      intros C. destruct (L C) as (_ & N). split; [discriminate|exact N]. }
    apply Z.leb_gt in E12.
    assert (N12 : ~ (In "historicTaxCredits"%string (k :: r)
                     \/ In "opportunityZones"%string (k :: r)
                     \/ In "newMarketsTC"%string (k :: r)))
      by (rewrite <- M12; lia).
    assert (E6 : (6 <=? m) = true) by (apply Z.leb_le; exact M6).
    rewrite E6.
    split; [split; [discriminate|tauto]|].
    split; [split; [discriminate|tauto]|].
    split; [split; [intros _; split; [discriminate|tauto]|reflexivity]|].
    split; [split; discriminate|].
    intros C. destruct (L C) as (_ & N). split; [discriminate|exact N].
Qed.

End HorizonFacts.

Section ProjectionFacts.
Import Errors Validation BaseAPIService Incentives.
Local Open Scope Q_scope.










End ProjectionFacts.

Section PlanFacts.
Import Errors Validation BaseAPIService Incentives.
Local Open Scope Z_scope.

Lemma next_steps_from_fields (i : nat) (recs : list Recommendation) :
  map step (next_steps_from i recs) = seq (S i) (List.length recs)
  /\ map step_priority (next_steps_from i recs) = map priority recs
  /\ map step_action (next_steps_from i recs) = map action recs
  /\ map dependencies (next_steps_from i recs) = map requirements recs.
Proof.
  revert i. induction recs as [|r l IH]; intros i; [now repeat split|].
  destruct (IH (S i)) as (H1 & H2 & H3 & H4).
  cbn [next_steps_from map List.length seq step step_priority step_action
       dependencies].
  rewrite H1, H2, H3, H4, Nat.add_1_r. now repeat split.
Qed.

Lemma next_steps_from_sorted (i : nat) (recs : list Recommendation) :
  StronglySorted not_below recs ->
  StronglySorted
    (fun a b => (step a < step b)%nat
                /\ priorityOrder (step_priority b)
                   <= priorityOrder (step_priority a))
    (next_steps_from i recs)
  /\ Forall (fun s => (i < step s)%nat
                      /\ exists r, In r recs /\ step_priority s = priority r)
            (next_steps_from i recs).
Proof.
  intros Hs. revert i. induction Hs as [|r l Hl IH F]; intros i.
  - split; constructor.
  - destruct (IH (S i)) as (H1 & H2). cbn [next_steps_from]. split.
    + constructor; [exact H1|].
      rewrite Forall_forall in *. intros s Hin.
      destruct (H2 s Hin) as (L & r' & Hr' & E).
      cbn [step step_priority]. split; [lia|].
      rewrite E. apply (F r' Hr').
    + constructor.
      * cbn [step step_priority]. split; [lia|].
        exists r. split; [now left|reflexivity].
      * rewrite Forall_forall in *. intros s Hin.
        destruct (H2 s Hin) as (L & r' & Hr' & E).
        split; [lia|]. exists r'. split; [now right|exact E].
Qed.

Lemma sorted_pairs {T : Type} (R : T -> T -> Prop) (l : list T) :
  StronglySorted R l ->
  forall a b, In a l -> In b l -> a = b \/ R a b \/ R b a.
Proof.
  induction 1 as [|x l Hs IH F]; intros a b Ha Hb; [destruct Ha|].
  rewrite Forall_forall in F.
  destruct Ha as [<-|Ha], Hb as [<-|Hb]; auto.
Qed.

Lemma sorted_app_cross {T : Type} (R : T -> T -> Prop) (l1 l2 : list T) :
  StronglySorted R (l1 ++ l2) ->
  forall a b, In a l1 -> In b l2 -> R a b.
Proof.
  induction l1 as [|x l IH]; intros Hs a b Ha Hb; [destruct Ha|].
  cbn [app] in Hs. apply StronglySorted_inv in Hs. destruct Hs as (Hs & F).
  destruct Ha as [<-|Ha].
  - rewrite Forall_forall in F. apply F. apply in_or_app. now right.
  - now apply IH.
Qed.

Lemma recommendations_sorted (inc : object ProgramResult) :
  StronglySorted not_below (generateRecommendations inc).
Proof.
  unfold generateRecommendations. rewrite by_priority_weight.
  apply (sort_sorted (fun r => priorityOrder (priority r))).
Qed.

Lemma recommendations_not_empty (inc : object ProgramResult) :
  generateRecommendations inc <> [].
Proof.
  unfold generateRecommendations. rewrite by_priority_weight.
  intros E.
  match type of E with
  | sort _ ?l = [] =>
      pose proof (sort_perm (fun r => priorityOrder (priority r)) l) as P;
      rewrite E in P; apply Permutation_nil in P; revert P
  end.
  destruct (includes (available_keys inc) "opportunityZones"),
    (includes (available_keys inc) "historicTaxCredits"),
    (includes (available_keys inc) "newMarketsTC"),
    (includes (available_keys inc) "sba504"),
    (includes (available_keys inc) "cpace"); discriminate.
Qed.

(** X24.  For every [incentives] object there is at least one
    recommendation, and the next steps are the recommendations in their
    order, numbered from 1, each with the priority, action and
    requirements of its recommendation; so a later step never has a
    higher priority than an earlier one.  No recommendation outside the
    critical path, the first three, has a higher priority than one inside
    it. *)
Theorem next_steps_follow_the_ranking (inc : object ProgramResult) :
  let recs := generateRecommendations inc in
  let steps := generateNextSteps recs in
  recs <> []
  /\ map step steps = seq 1 (List.length recs)
  /\ map step_priority steps = map priority recs
  /\ map step_action steps = map action recs
  /\ map dependencies steps = map requirements recs
  /\ (forall s s', In s steps -> In s' steps -> (step s < step s')%nat ->
        priorityOrder (step_priority s') <= priorityOrder (step_priority s))
  /\ (forall r r', In r (criticalPath recs) -> In r' (skipn 3 recs) ->
        not_below r r').
Proof.
  intros recs steps. subst steps. unfold generateNextSteps.
  destruct (next_steps_from_fields 0 recs) as (H1 & H2 & H3 & H4).
  pose proof (recommendations_sorted inc) as Hs. fold recs in Hs.
  split; [apply recommendations_not_empty|].
  split; [exact H1|]. split; [exact H2|]. split; [exact H3|].
  split; [exact H4|]. split.
  - intros s s' Hin Hin' L.
    destruct (next_steps_from_sorted 0 Hs) as (SS & _).
    destruct (sorted_pairs SS _ _ Hin Hin') as [->|[(_ & P)|(P & _)]];
      [lia|exact P|lia].
  - unfold criticalPath. apply sorted_app_cross.
    rewrite firstn_skipn. exact Hs.
Qed.

End PlanFacts.

Section OrchestratedSBA.
Import Errors Validation BaseAPIService Incentives.

Lemma sba504_recommended_only_if_available (inc : object ProgramResult) :
  In rec_sba504 (generateRecommendations inc) ->
  includes (available_keys inc) "sba504" = true.
Proof.
  unfold generateRecommendations. rewrite by_priority_weight. intros H.
  apply (Permutation_in _ (sort_perm _ _)) in H. revert H.
  destruct (includes (available_keys inc) "sba504"); [reflexivity|].
  destruct (includes (available_keys inc) "opportunityZones"),
    (includes (available_keys inc) "historicTaxCredits"),
    (includes (available_keys inc) "newMarketsTC"),
    (includes (available_keys inc) "cpace");
    cbn [push_if app In]; intros H;
    repeat (destruct H as [H|H]; [discriminate H|]); destruct H.
Qed.

Lemma available_key_entry (inc : object ProgramResult) (k : string) :
  includes (available_keys inc) k = true ->
  exists r, In (k, r) inc /\ available r = true.
Proof.
  unfold includes, available_keys. rewrite existsb_exists.
  intros (x & Hx & E). apply String.eqb_eq in E. subst x.
  apply in_map_iff in Hx. destruct Hx as ([k' r] & <- & Hx).
  apply filter_In in Hx. destruct Hx as (Hx & Ha).
  exists r. split; [exact Hx|exact Ha].
Qed.

(** X25.  With the SBA service as the orchestrator's fifth evaluator, the
    SBA 504 entry of an analysis is available exactly when the address
    validates, the geocoder finds it and the business passes the
    eligibility assessment.  When the project details carry no business
    information the program is never available and never recommended:
    the assessment of an empty business fails on its age. *)
Theorem sba504_through_the_orchestrator
    (C : Type) (geocode : jsstring -> option C) (determineState : C -> string)
    (svc : services) (address : jsstring) (details : projectDetails)
    (an : Analysis) :
  (forall a b,
     Incentives.checkSBA504Eligibility svc a b
     = settled_map (@sba_view C)
         (SBA.checkSBA504Eligibility geocode determineState a b)) ->
  analyzeProperty svc address details = inr an ->
  exists r,
    entry "sba504" (incentives an) = Some r
    /\ (available r = true <->
        (exists n c,
           BaseAPIService.validateAddress address = inr n
           /\ geocode n = Some c)
        /\ SBA.eligible
             (SBA.assessSBA504Eligibility
                (SBA.default SBA.no_info (business details))) = true)
    /\ (business details = None ->
        available r = false /\ ~ In rec_sba504 (recommendations an)).
Proof.
  intros Hsvc E.
  destruct address as [|c0 rest]; [discriminate|].
  cbn [analyzeProperty] in E. injection E as <-.
  cbn [incentives recommendations].
  rewrite Hsvc. eexists. split; [reflexivity|].
  set (b := SBA.default SBA.no_info (business details)).
  assert (A : available
                (processResult
                   (settled_map (@sba_view C)
                      (SBA.checkSBA504Eligibility geocode determineState
                         (c0 :: rest) b)) "SBA 504 Loans") = true
              <-> (exists n c,
                     BaseAPIService.validateAddress (c0 :: rest) = inr n
                     /\ geocode n = Some c)
                  /\ SBA.eligible (SBA.assessSBA504Eligibility b) = true).
  { unfold SBA.checkSBA504Eligibility, evaluate.
    destruct (BaseAPIService.validateAddress (c0 :: rest)) as [e|n].
    - cbn. split; [discriminate|]. intros ((n & c & X & _) & _). discriminate.
    - destruct (geocode n) as [c|] eqn:G.
      + cbn [settled_map processResult available sba_view SBA.r_eligible].
        unfold determineAvailability.
        cbn [String.eqb Ascii.eqb Bool.eqb Incentives.eligible or_false].
        split.
        * intros H. split; [|exact H]. exists n, c. now split.
        * intros (_ & H). exact H.
      + cbn. split; [discriminate|].
        intros ((n' & c & X & G') & _). injection X as <-. congruence. }
  split; [exact A|].
  intros B.
  assert (F : available
                (processResult
                   (settled_map (@sba_view C)
                      (SBA.checkSBA504Eligibility geocode determineState
                         (c0 :: rest) b)) "SBA 504 Loans") = false).
  { apply not_true_is_false. intros X.
    apply A in X. destruct X as (_ & X). subst b. rewrite B in X.
    vm_compute in X. discriminate. }
  split; [exact F|].
  intros H. apply sba504_recommended_only_if_available in H.
  apply available_key_entry in H. destruct H as (r & Hin & Hr).
  cbn [In] in Hin.
  destruct Hin as [X|[X|[X|[X|[X|[]]]]]]; try discriminate X.
  injection X as <-. congruence.
Qed.

End OrchestratedSBA.

(** ** Requests through the shared cache *)

Section RequestFacts.
Import Errors Cache Request.
Context {A : Type}.
Variable truthy : A -> bool.
Local Open Scope Z_scope.

Lemma get_defaultTTL (c : CacheManager A) k now :
  defaultTTL (snd (get c k now)) = defaultTTL c.
Proof.
  unfold get. destruct (map_get k (cache c)); trivial.
  destruct (_ <? _); trivial.
Qed.

Lemma get_just_set (c : CacheManager A) k v ttl now now' :
  fst (get (set c k v ttl now) k now')
  = if now' <=? now + effective_ttl (defaultTTL c) ttl then v else JNull.
Proof.
  unfold get.
  assert (E : map_get k (cache (set c k v ttl now))
              = Some (mkItem v (now + effective_ttl (defaultTTL c) ttl) now)).
  { unfold set. cbn [cache with_cache]. apply map_get_set_same. }
  rewrite E. cbn [expiresAt value].
  destruct (now + effective_ttl (defaultTTL c) ttl <? now') eqn:X.
  - apply Z.ltb_lt in X.
    destruct (now' <=? _) eqn:Y; [apply Z.leb_le in Y; lia|reflexivity].
  - apply Z.ltb_ge in X.
    destruct (now' <=? _) eqn:Y; [reflexivity|apply Z.leb_gt in Y; lia].
Qed.

(** X26.  A request that goes to the network and gets an ok response
    returns the parsed body and, unless its [cacheTTL] is 0, stores it
    under the cache key.  A later request with the same key that does not
    skip the cache returns that body without its own response being
    looked at, as long as the body is truthy and the clock has not passed
    the storing time plus the time to live; a falsy body or a later clock
    sends the request to the network again. *)
Theorem repeated_request_is_served_from_cache
    (c : CacheManager A) (key : string) (o o' : options)
    (now now1 now' now1' : Z) (data : jsval A) (r' : outcome) :
  is_truthy truthy (fst (get c key now)) && negb (skipCache o) = false ->
  cacheTTL o <> Some 0 ->
  skipCache o' = false ->
  let c1 := snd (makeRequest truthy c key o now now1 (Json data)) in
  fst (makeRequest truthy c key o now now1 (Json data)) = inr data
  /\ fst (makeRequest truthy c1 key o' now' now1' r')
     = if is_truthy truthy data
          && (now' <=? now1 + effective_ttl (defaultTTL c) (cacheTTL o))
       then inr data
       else settle r'.
Proof.
  intros F T S c1. subst c1.
  assert (C : caches o = true).
  { unfold caches. destruct (cacheTTL o) as [[| |]|]; trivial. now elim T. }
  assert (E1 : makeRequest truthy c key o now now1 (Json data)
               = (inr data,
                  set (snd (get c key now)) key data (cacheTTL o) now1)).
  { unfold makeRequest. destruct (get c key now) as [cached c0].
    cbn [fst snd] in *. now rewrite F, C. }
  rewrite E1. cbn [fst snd]. split; [reflexivity|].
  unfold makeRequest.
  pose proof (get_just_set (snd (get c key now)) key data (cacheTTL o)
                now1 now') as G.
  rewrite get_defaultTTL in G.
  destruct (get (set (snd (get c key now)) key data (cacheTTL o) now1)
              key now') as [cached' c2].
  cbn [fst] in G. subst cached'. rewrite S. cbn [negb].
  rewrite andb_true_r.
  destruct (now' <=? now1 + effective_ttl (defaultTTL c) (cacheTTL o)).
  - rewrite andb_true_r. destruct (is_truthy truthy data); [reflexivity|].
    destruct r'; reflexivity.
  - rewrite andb_false_r. cbn [is_truthy]. destruct r'; reflexivity.
Qed.

End RequestFacts.

(** ** The Opportunity Zones lookup *)

Section OpportunityZoneFacts.
Import Errors Validation Cache OpportunityZones.
Local Open Scope Z_scope.

Lemma get_holds_tracts (c : CacheManager (list jsstring)) now :
  holds_tracts (Some c) ->
  (fst (get c "oz_list_all" now) = JNull
   \/ fst (get c "oz_list_all" now) = JVal loadOZTracts)
  /\ holds_tracts (Some (snd (get c "oz_list_all" now))).
Proof.
  intros H. unfold get.
  destruct (map_get "oz_list_all" (cache c)) as [it|] eqn:E.
  - pose proof (H c it eq_refl E) as V.
    destruct (expiresAt it <? now).
    + split; [now left|]. intros c' it' [= <-] E'.
      cbn [snd cache with_cache] in E'.
      rewrite map_get_delete_same in E'. discriminate.
    + split; [now right|]. intros c' it' [= <-] E'.
      cbn [snd cache with_cache] in E'.
      rewrite map_get_set_same in E'. now injection E' as <-.
  - split; [now left|]. intros c' it' [= <-] E'. cbn [snd] in E'.
    congruence.
Qed.

(** X27.  Whether or not the identifier [cache] is bound where the
    Opportunity Zones service runs, and as long as the cache holds
    nothing but the list under the list's key, a tract is an Opportunity
    Zone exactly when its GEOID is one of the nine sample tracts; the
    lookup keeps the cache in that state.  Without a binding, which is
    what the imports of the module give, every lookup is answered by the
    fallback.  An address that [checkOpportunityZone] accepts is in a
    zone exactly when the GEOID of its tract is one of the nine, and has
    benefits and details exactly then. *)
Theorem opportunity_zone_is_membership_in_sample_tracts
    (C : Type) (geocode : jsstring -> option C)
    (tract : C -> option NMTC.censusData)
    (sc : scope) (now now' : Z) (address : jsstring) :
  holds_tracts sc ->
  (forall geoid,
     let r := fst (lookupOpportunityZone sc geoid now now') in
     let sc' := snd (lookupOpportunityZone sc geoid now now') in
     isOpportunityZone r = includes loadOZTracts geoid
     /\ (designation r <> None <-> isOpportunityZone r = true)
     /\ holds_tracts sc'
     /\ (sc = None -> r = fallbackOZCheck geoid /\ sc' = None))
  /\ (forall r,
        checkOpportunityZone geocode tract sc now now' address
        = BaseAPIService.Fulfilled r ->
        (r_isOpportunityZone r = true <->
         exists g, NMTC.geoid (r_censusData r) = Some g
                   /\ In g loadOZTracts)
        /\ has_benefits r = r_isOpportunityZone r
        /\ (ozDetails r <> None <-> r_isOpportunityZone r = true)).
Proof.
  intros H.
  assert (M : forall geoid,
             includes loadOZTracts geoid = true
             <-> exists g, geoid = Some g /\ In g loadOZTracts).
  { intros [g|]; cbn [includes].
    - rewrite existsb_exists. split.
      + intros (x & Hx & E). unfold jsstring_eqb in E.
        destruct (list_eq_dec N.eq_dec g x); [subst|discriminate].
        now exists x.
      + intros (x & [= <-] & Hx). exists g. split; [exact Hx|].
        unfold jsstring_eqb. now destruct (list_eq_dec N.eq_dec g g).
    - split; [discriminate|]. intros (g & X & _). discriminate. }
  assert (D : forall (b : bool) (s : string),
             (if b then Some s else None) <> None <-> b = true).
  { intros [|] s; split; trivial; try discriminate. intros X. now elim X. }
  assert (L : forall geoid,
             let r := fst (lookupOpportunityZone sc geoid now now') in
             let sc' := snd (lookupOpportunityZone sc geoid now now') in
             isOpportunityZone r = includes loadOZTracts geoid
             /\ (designation r <> None <-> isOpportunityZone r = true)
             /\ holds_tracts sc'
             /\ (sc = None -> r = fallbackOZCheck geoid /\ sc' = None)).
  { intros geoid r sc'. subst r sc'.
    unfold lookupOpportunityZone, getOpportunityZoneList.
    destruct sc as [c|].
    - destruct (get_holds_tracts now H) as ([G|G] & K);
        destruct (get c "oz_list_all" now) as [cached c1];
        cbn [fst snd] in *; subst cached;
        cbn [fst snd isOpportunityZone designation].
      + split; [reflexivity|]. split; [apply D|]. split; [|discriminate].
        intros c' it' [= <-] E'. unfold set in E'.
        cbn [cache with_cache] in E'. rewrite map_get_set_same in E'.
        now injection E' as <-.
      + split; [reflexivity|]. split; [apply D|].
        split; [exact K|discriminate].
    - cbn [fst snd]. unfold fallbackOZCheck.
      cbn [isOpportunityZone designation].
      split; [reflexivity|]. split; [apply D|].
      split; [intros c it X; discriminate|]. intros _. now split. }
  split; [exact L|].
  intros r. unfold checkOpportunityZone, BaseAPIService.evaluate.
  destruct (BaseAPIService.validateAddress address) as [e|n]; [discriminate|].
  destruct (geocode n) as [c|]; [|discriminate].
  destruct (tract c) as [census|]; [|discriminate].
  intros [= <-].
  cbn [r_isOpportunityZone r_censusData has_benefits ozDetails].
  destruct (L (NMTC.geoid census)) as (L1 & L2 & _).
  split; [rewrite L1; apply M|]. split; [reflexivity|exact L2].
Qed.

End OpportunityZoneFacts.

(** ** C-PACE availability *)

Section CPACEFacts.
Import Errors Validation BaseAPIService Incentives.
Local Open Scope Q_scope.

Lemma state_program_available (state : string) :
  CPACE.p_available (CPACE.getStatePACEProgram state) = true
  <-> In state CPACE.program_states.
Proof.
  unfold CPACE.getStatePACEProgram, CPACE.program_states.
  cbn [CPACE.statePrograms CPACE.find_program map fst In].
  destruct (String.eqb_spec state "California") as [->|N1];
    [cbn [CPACE.p_available]; split; auto 10|].
  destruct (String.eqb_spec state "New York") as [->|N2];
    [cbn [CPACE.p_available]; split; auto 10|].
  destruct (String.eqb_spec state "Texas") as [->|N3];
    [cbn [CPACE.p_available]; split; auto 10|].
  destruct (String.eqb_spec state "Florida") as [->|N4];
    [cbn [CPACE.p_available]; split; auto 10|].
  destruct (String.eqb_spec state "Colorado") as [->|N5];
    [cbn [CPACE.p_available]; split; auto 10|].
  assert (F : CPACE.p_available
                (if existsb (String.eqb state) SBA.inherited_names
                 then CPACE.mkProgram false None
                 else CPACE.mkProgram false (Some "Not available"%string))
              = false) by (destruct (existsb _ _); reflexivity).
  rewrite F. split; [discriminate|].
  intros [H|[H|[H|[H|[H|[]]]]]]; symmetry in H; contradiction.
Qed.

(** X28.  With the C-PACE service as the orchestrator's fourth
    evaluator, the C-PACE entry of an analysis is available exactly when
    the address validates, the geocoder finds it, and either its state is
    one of California, New York, Texas, Florida and Colorado or the
    number drawn for the local program is above 0.7. *)
Theorem cpace_through_the_orchestrator
    (C : Type) (geocode : jsstring -> option C)
    (determineState determineCounty : C -> string) (random : Q)
    (svc : services) (address : jsstring) (details : projectDetails)
    (an : Analysis) :
  (forall a,
     checkCPACEAvailability svc a
     = settled_map (@cpace_view C)
         (CPACE.checkCPACEAvailability geocode determineState
            determineCounty random a)) ->
  analyzeProperty svc address details = inr an ->
  exists r,
    entry "cpace" (incentives an) = Some r
    /\ (available r = true <->
        exists n c,
          BaseAPIService.validateAddress address = inr n
          /\ geocode n = Some c
          /\ (In (determineState c)
                ["California"; "New York"; "Texas"; "Florida";
                 "Colorado"]%string
              \/ 7 # 10 < random)).
Proof.
  intros Hsvc E.
  destruct address as [|c0 rest]; [discriminate|].
  cbn [analyzeProperty] in E. injection E as <-.
  cbn [incentives]. rewrite Hsvc. eexists. split; [reflexivity|].
  unfold CPACE.checkCPACEAvailability, evaluate.
  destruct (BaseAPIService.validateAddress (c0 :: rest)) as [e|n].
  { cbn. split; [discriminate|]. intros (n & c & X & _). discriminate. }
  destruct (geocode n) as [c|] eqn:G.
  2:{ cbn. split; [discriminate|].
      intros (n' & c & X & G' & _). injection X as <-. congruence. }
  cbn [settled_map processResult available cpace_view CPACE.cpaceAvailable].
  unfold determineAvailability.
  cbn [String.eqb Ascii.eqb Bool.eqb]. unfold cpace_view.
  cbn [Incentives.cpaceAvailable CPACE.cpaceAvailable or_false].
  rewrite orb_true_iff, state_program_available.
  assert (L : CPACE.p_available
                (CPACE.getLocalPACEProgram (determineCounty c) random) = true
              <-> 7 # 10 < random).
  { unfold CPACE.getLocalPACEProgram.
    destruct (Qle_bool random (7 # 10)) eqn:X; cbn [negb CPACE.p_available].
    - apply Qle_bool_iff in X. split; [discriminate|]. intros H. lra.
    - split; [intros _|reflexivity].
      apply Qnot_le_lt. intros H. apply Qle_bool_iff in H. congruence. }
  rewrite L. split.
  - intros H. exists n, c. repeat split; trivial.
  - intros (n' & c' & X & G' & H). injection X as <-.
    rewrite G in G'. injection G' as <-. exact H.
Qed.

End CPACEFacts.

(** ** SBA 504 payments *)

Section PaymentFacts.
Import SBA.
Local Open Scope Q_scope.

Lemma sba_round_bounds (x : Q) :
  x - (1 # 2) < inject_Z (round x) /\ inject_Z (round x) <= x + (1 # 2).
Proof.
  unfold round. split; [|apply Qfloor_le].
  pose proof (Qlt_floor (x + (1 # 2))) as H.
  rewrite inject_Z_plus in H. change (inject_Z 1) with 1 in H. lra.
Qed.

Lemma Z_below (x y : Z) (k : Z) :
  inject_Z x < inject_Z y + inject_Z k + 1 -> (x <= y + k)%Z.
Proof.
  intros H. destruct (Z_le_gt_dec x (y + k)) as [L|G]; [exact L|].
  exfalso. assert (L : (y + k + 1 <= x)%Z) by lia.
  rewrite Zle_Qle, !inject_Z_plus in L. change (inject_Z 1) with 1 in L. lra.
Qed.

Lemma amortization_nonnegative (loan rate : Q) (n : Z) :
  0 <= loan -> 0 < rate -> (0 < n)%Z ->
  0 <= loan * (rate / 12 * (1 + rate / 12) ^ n) / ((1 + rate / 12) ^ n - 1).
Proof.
  intros Hl Hr Hn.
  assert (M : 0 < rate / 12) by (apply Qlt_shift_div_l; lra).
  assert (P : 1 < (1 + rate / 12) ^ n) by (apply Qpower_1_lt; [lra|exact Hn]).
  revert M P. generalize (rate / 12). intros m M.
  generalize ((1 + m) ^ n). intros p P.
  unfold Qdiv. apply Qmult_le_0_compat.
  - apply Qmult_le_0_compat; [exact Hl|]. apply Qmult_le_0_compat; lra.
  - apply Qinv_le_0_compat. lra.
Qed.

Lemma round_nonnegative (x : Q) : 0 <= x -> (0 <= round x)%Z.
Proof.
  intros H. unfold round. change 0%Z with (Qfloor 0).
  apply Qfloor_resp_le. lra.
Qed.

(** X29.  For a project cost between 0 and 10^12 and rates between
    0.1% and 100%, where the double arithmetic stays finite and its
    rounding far below the margins, [calculateSBA504Payments] returns an
    owner equity that passes the owner-equity check of the eligibility
    assessment for that cost: both compute the same rounded product of
    the cost and 0.10.  Neither the three shares nor the payments are
    negative; the rounded total monthly payment is within 1 of the sum
    of the two rounded payments, and the rounded annual payment within 6
    of twelve times the rounded monthly one.  The shares are rounded
    products and need not add up to the cost. *)
Theorem sba504_payments_structure (cost : Q) (bankRate sbaRate : option Q) :
  0 <= cost -> cost <= 1000000000000 ->
  1 # 1000 <= default (65 # 1000) bankRate ->
  default (65 # 1000) bankRate <= 1 ->
  1 # 1000 <= default (55 # 1000) sbaRate ->
  default (55 # 1000) sbaRate <= 1 ->
  let p := calculateSBA504Payments cost bankRate sbaRate in
  chk_ownerEquity
    (checks (assessSBA504Eligibility (equity_only (pay_ownerEquity p) cost)))
  = true
  /\ (0 <= pay_ownerEquity p /\ 0 <= bankLoan p /\ 0 <= sbaLoan p)
  /\ (0 <= bankPayment p /\ 0 <= sbaPayment p)%Z
  /\ (bankPayment p + sbaPayment p - 1 <= totalMonthlyPayment p
      <= bankPayment p + sbaPayment p + 1)%Z
  /\ (12 * totalMonthlyPayment p - 6 <= totalAnnualPayment p
      <= 12 * totalMonthlyPayment p + 6)%Z.
Proof.
  intros Hc _ Hb _ Hs _ p. subst p. unfold calculateSBA504Payments.
  cbn [pay_ownerEquity bankLoan sbaLoan bankPayment sbaPayment
       totalMonthlyPayment totalAnnualPayment].
  change (10 * 12)%Z with 120%Z. change (20 * 12)%Z with 240%Z.
  assert (E : 0 <= Binary64.mul cost Binary64.tenth).
  { apply binary64_round_nonnegative.
    apply Qmult_le_0_compat; [exact Hc|discriminate]. }
  assert (L1 : 0 <= Binary64.mul cost (50 # 100)).
  { apply binary64_round_nonnegative.
    apply Qmult_le_0_compat; [exact Hc|discriminate]. }
  assert (L2 : 0 <= Binary64.mul cost Binary64.two_fifths).
  { apply binary64_round_nonnegative.
    apply Qmult_le_0_compat; [exact Hc|discriminate]. }
  assert (Rb : 0 < default (65 # 1000) bankRate) by lra.
  assert (Rs : 0 < default (55 # 1000) sbaRate) by lra.
  assert (B := @amortization_nonnegative _ _ 120 L1 Rb eq_refl).
  assert (S := @amortization_nonnegative _ _ 240 L2 Rs eq_refl).
  revert B S.
  generalize (Binary64.mul cost (50 # 100)
              * (default (65 # 1000) bankRate / 12
                 * (1 + default (65 # 1000) bankRate / 12) ^ 120)
              / ((1 + default (65 # 1000) bankRate / 12) ^ 120 - 1)).
  intros b.
  generalize (Binary64.mul cost Binary64.two_fifths
              * (default (55 # 1000) sbaRate / 12
                 * (1 + default (55 # 1000) sbaRate / 12) ^ 240)
              / ((1 + default (55 # 1000) sbaRate / 12) ^ 240 - 1)).
  intros s B S.
  split.
  { unfold assessSBA504Eligibility, equity_only.
    cbn [checks chk_ownerEquity SBA.ownerEquity SBA.projectCost default].
    unfold Qge_bool. apply Qle_bool_iff. apply Qle_refl. }
  split; [repeat split; assumption|].
  split; [split; now apply round_nonnegative|].
  destruct (sba_round_bounds b) as (b1 & b2).
  destruct (sba_round_bounds s) as (s1 & s2).
  destruct (sba_round_bounds (b + s)) as (t1 & t2).
  destruct (sba_round_bounds ((b + s) * 12)) as (a1 & a2).
  revert b1 b2 s1 s2 t1 t2 a1 a2.
  generalize (round b) (round s) (round (b + s)) (round ((b + s) * 12)).
  intros rb rs rt ra b1 b2 s1 s2 t1 t2 a1 a2.
  assert (I1 : inject_Z 1 = 1) by reflexivity.
  assert (I6 : inject_Z 6 = 6) by reflexivity.
  assert (I12 : inject_Z 12 = 12) by reflexivity.
  split; split.
  - assert (G : (rb + rs <= rt + 1)%Z).
    { apply Z_below. rewrite ?inject_Z_plus, ?inject_Z_mult, ?I1. lra. }
    lia.
  - apply Z_below. rewrite ?inject_Z_plus, ?inject_Z_mult, ?I1. lra.
  - assert (G : (12 * rt <= ra + 6)%Z).
    { apply Z_below. rewrite ?inject_Z_plus, ?inject_Z_mult, ?I6, ?I12. lra. }
    lia.
  - apply Z_below. rewrite ?inject_Z_plus, ?inject_Z_mult, ?I6, ?I12. lra.
Qed.

End PaymentFacts.

(** ** Historic Tax Credits *)

Section HistoricFacts.
Import Errors Validation BaseAPIService HistoricTaxCredits.
Local Open Scope Q_scope.

Lemma floor_of_scaled (u : Q) (k : Z) :
  unit_interval u -> (0 < k)%Z ->
  (0 <= Qfloor (u * inject_Z k) < k)%Z.
Proof.
  intros (L & U) Hk.
  assert (K : 0 < inject_Z k).
  { change 0 with (inject_Z 0). rewrite <- Zlt_Qlt. exact Hk. }
  split.
  - change 0%Z with (Qfloor 0). apply Qfloor_resp_le. nra.
  - rewrite Zlt_Qlt. eapply Qle_lt_trans; [apply Qfloor_le|]. nra.
Qed.

Lemma state_rates (state : string) :
  is_rate (state_creditRate state) "20%" = String.eqb state "New York"
  /\ is_rate (state_creditRate state) "25%" = String.eqb state "Texas".
Proof.
  unfold state_creditRate. cbn [creditRates find_rate].
  destruct (String.eqb_spec state "California") as [->|N1];
    [split; reflexivity|].
  destruct (String.eqb_spec state "New York") as [->|N2];
    [split; reflexivity|].
  destruct (String.eqb_spec state "Texas") as [->|N3];
    [split; reflexivity|].
  destruct (String.eqb_spec state "Florida") as [->|N4];
    [split; reflexivity|].
  destruct (existsb _ _); split; reflexivity.
Qed.

Lemma district_draw (district : Q) :
  checkHistoricDistrict district = true <-> 85 # 100 < district.
Proof.
  unfold checkHistoricDistrict.
  destruct (Qle_bool district (85 # 100)) eqn:X; cbn [negb].
  - apply Qle_bool_iff in X. split; [discriminate|]. intros H. lra.
  - split; [intros _|reflexivity].
    apply Qnot_le_lt. intros H. apply Qle_bool_iff in H. congruence.
Qed.

Lemma nearby_count (count : Q) (turns : nat -> turn) :
  List.length (findNearbyHistoricProperties count turns)
  = Z.to_nat (Qfloor (count * 3)).
Proof.
  unfold findNearbyHistoricProperties. now rewrite length_map, length_seq.
Qed.

(** X30.  When [checkHistoricTaxCredits] returns for numbers that
    [Math.random()] can draw, the property is eligible exactly when the
    district draw is above 0.85 or the count draw is at least one third;
    benefits are attached exactly then; at most two nearby properties are
    listed, each of a known type and with a listing year from 1980 to
    2019.  The combined credit is 0 when not eligible and otherwise 20
    plus the state's rate, 20 in New York and 25 in Texas, and the
    credits are stackable exactly for an eligible property in one of
    these two states. *)
Theorem historic_credits_follow_the_draws
    (C : Type) (geocode : jsstring -> option C) (determineState : C -> string)
    (district count : Q) (turns : nat -> turn) (address : jsstring)
    (r : htcResult C) :
  unit_interval count ->
  (forall i, unit_interval (snd (fst (turns i)))
             /\ unit_interval (snd (turns i))) ->
  checkHistoricTaxCredits geocode determineState district count turns address
  = Fulfilled r ->
  let f := r_federalHTC r in
  let state := determineState (r_coordinates r) in
  (eligible f = true <-> 85 # 100 < district \/ 1 # 3 <= count)
  /\ has_benefits f = eligible f
  /\ (List.length (nearbyProperties f) <= 2)%nat
  /\ Forall (fun p => p_type p <> None /\ (1980 <= yearListed p <= 2019)%Z)
            (nearbyProperties f)
  /\ totalCredits (combined r)
     = (if eligible f
        then 20 + (if String.eqb state "New York" then 20
                   else if String.eqb state "Texas" then 25 else 0)
        else 0)%Z
  /\ (stackable (combined r) = true <->
      eligible f = true /\ (state = "New York" \/ state = "Texas")%string).
Proof.
  intros Hcount Hturns E f state. subst f state.
  unfold checkHistoricTaxCredits, evaluate in E.
  destruct (BaseAPIService.validateAddress address) as [e|n]; [discriminate|].
  destruct (geocode n) as [c|]; [|discriminate].
  injection E as <-. cbn [r_federalHTC r_coordinates combined].
  destruct (@floor_of_scaled count 3 Hcount eq_refl) as (F0 & F3).
  change (inject_Z 3) with 3 in F0, F3.
  split.
  { unfold checkHistoricProperties. cbn [eligible].
    rewrite orb_true_iff, district_draw, nearby_count, Nat.ltb_lt.
    assert (G : (0 < Z.to_nat (Qfloor (count * 3)))%nat <-> 1 # 3 <= count).
    { split.
      - intros H. assert (H1 : (1 <= Qfloor (count * 3))%Z) by lia.
        rewrite Zle_Qle in H1. pose proof (Qfloor_le (count * 3)) as H2.
        change (inject_Z 1) with 1 in H1. lra.
      - intros H.
        assert (H1 : (Qfloor 1 <= Qfloor (count * 3))%Z)
          by (apply Qfloor_resp_le; lra).
        change (Qfloor 1) with 1%Z in H1. lia. }
    rewrite G. reflexivity. }
  split; [reflexivity|]. split.
  { unfold checkHistoricProperties. cbn [nearbyProperties].
    rewrite nearby_count. lia. }
  split.
  { unfold checkHistoricProperties. cbn [nearbyProperties].
    unfold findNearbyHistoricProperties. apply Forall_forall.
    intros p Hp. apply in_map_iff in Hp. destruct Hp as (i & <- & _).
    specialize (Hturns i). destruct (turns i) as [[d t] y].
    cbn [fst snd] in Hturns. destruct Hturns as (Ht & Hy).
    cbn [p_type yearListed].
    destruct (@floor_of_scaled t 3 Ht eq_refl) as (T0 & T3).
    destruct (@floor_of_scaled y 40 Hy eq_refl) as (Y0 & Y40).
    change (inject_Z 3) with 3 in T0, T3.
    change (inject_Z 40) with 40 in Y0, Y40.
    split; [|lia].
    assert (Z3 : Qfloor (t * 3) = 0%Z \/ Qfloor (t * 3) = 1%Z
                 \/ Qfloor (t * 3) = 2%Z) by lia.
    destruct Z3 as [-> | [-> | ->]]; discriminate. }
  unfold calculateCombinedBenefits.
  destruct (state_rates (determineState c)) as (-> & ->).
  destruct (eligible (checkHistoricProperties district count turns));
    cbn [negb totalCredits stackable].
  - split; [reflexivity|].
    destruct (String.eqb_spec (determineState c) "New York") as [->|N1].
    { split; [intros _; split; [reflexivity|now left]|reflexivity]. }
    destruct (String.eqb_spec (determineState c) "Texas") as [->|N2].
    { split; [intros _; split; [reflexivity|now right]|reflexivity]. }
    split; [discriminate|]. intros (_ & [H|H]); contradiction.
  - split; [reflexivity|]. split; [discriminate|]. intros (H & _).
    discriminate.
Qed.

End HistoricFacts.

(** ** Instances of the further properties *)

Section CacheInstances.
Import Cache.
Local Open Scope Z_scope.

(** X1: a sweep at clock reading 200 over a binding that expired at 100
    and one that expires at 500. *)
Lemma cleanup_removes_exactly_expired_witness :
  let c := mkCache [ ("a"%string, mkItem (JVal 1%nat) 100 0);
                     ("b"%string, mkItem (JVal 2%nat) 500 0) ] 300000 3 in
  NoDup (keys (cache c))
  /\ cache (snd (cleanup c 200)) = [ ("b"%string, mkItem (JVal 2%nat) 500 0) ]
  /\ (fst (cleanup c 200) + size (snd (cleanup c 200)) = 2)%nat.
Proof.
  intros c.
  assert (H : NoDup (keys (cache c)))
    by (repeat constructor; cbn [In]; intuition discriminate).
  destruct (@cleanup_removes_exactly_expired nat c 200 H) as (H1 & H2 & _).
  split; [exact H|]. split; [exact H1|exact H2].
Defined.

(** X2: three [set]s and a [get] on an empty cache of capacity 2. *)
Lemma cache_stays_within_capacity_witness :
  let c := mkCache (A := nat) [] 300000 2 in
  let tr := [ (0, OpSet "a" (JVal 1%nat) None);
              (1, OpSet "b" (JVal 2%nat) (Some 10));
              (2, OpGet "a");
              (3, OpSet "c" (JVal 3%nat) None) ]%string in
  within_capacity c
  /\ within_capacity (run c tr)
  /\ (size (run c tr) <= 2)%nat.
Proof.
  intros c tr.
  assert (H : within_capacity c).
  { split; [constructor|]. split; cbn; lia. }
  destruct (@cache_stays_within_capacity nat c tr H) as (H1 & H2 & _).
  split; [exact H|]. split; [exact H1|exact H2].
Defined.

(** X3: the statistics at clock reading 200 of a binding that expired at
    100 and one that expires at 500. *)
Lemma getStats_counts_witness :
  let c := mkCache [ ("a"%string, mkItem (JVal 1%nat) 100 0);
                     ("b"%string, mkItem (JVal 2%nat) 500 0) ] 300000 3 in
  NoDup (keys (cache c))
  /\ expiredItems (getStats c 200) = fst (cleanup c 200)
  /\ expiredItems (getStats (snd (cleanup c 200)) 200) = 0%nat.
Proof.
  intros c.
  assert (H : NoDup (keys (cache c)))
    by (repeat constructor; cbn [In]; intuition discriminate).
  destruct (@getStats_counts nat c 200 H) as (_ & H2 & H3 & _).
  split; [exact H|]. split; [exact H2|exact H3].
Defined.

(** X4: a [get] at 300 after a sweep at 200. *)
Lemma cleanup_invisible_to_get_witness :
  let c := mkCache [ ("a"%string, mkItem (JVal 1%nat) 100 0);
                     ("b"%string, mkItem (JVal 2%nat) 500 0) ] 300000 3 in
  NoDup (keys (cache c)) /\ 200 <= 300
  /\ fst (get (snd (cleanup c 200)) "b" 300) = fst (get c "b" 300).
Proof.
  intros c.
  assert (H : NoDup (keys (cache c)))
    by (repeat constructor; cbn [In]; intuition discriminate).
  assert (L : 200 <= 300) by lia.
  split; [exact H|]. split; [exact L|].
  exact (@cleanup_invisible_to_get nat c "b"%string 200 300 H L).
Defined.

(** X5: in a full cache of two keys, the older one is read and then a
    third key is set. *)
Lemma get_protects_from_next_eviction_witness :
  let ia := mkItem (JVal 1%nat) 1000 0 in
  let c := mkCache [ ("a"%string, ia);
                     ("b"%string, mkItem (JVal 2%nat) 1000 0) ] 300000 2 in
  let c1 := snd (get c "a" 5) in
  map_get "a" (cache c) = Some ia
  /\ ~ In "c"%string (keys (cache c))
  /\ map_get "a" (cache (set c1 "c" (JVal 3%nat) None 6)) = Some ia
  /\ size (set c1 "c" (JVal 3%nat) None 6) = 2%nat.
Proof.
  intros ia c c1.
  assert (H1 : NoDup (keys (cache c)))
    by (repeat constructor; cbn [In]; intuition discriminate).
  assert (H2 : List.length (cache c) = maxSize c) by reflexivity.
  assert (H3 : (2 <= maxSize c)%nat) by (cbn; lia).
  assert (H4 : map_get "a" (cache c) = Some ia) by reflexivity.
  assert (H5 : 5 <= expiresAt ia) by (cbn; lia).
  assert (H6 : ~ In "c"%string (keys (cache c)))
    by (intros [X|[X|[]]]; discriminate X).
  split; [exact H4|]. split; [exact H6|].
  exact (@get_protects_from_next_eviction nat c "a"%string ia 5 "c"%string
           (JVal 3%nat) None 6 H1 H2 H3 H4 H5 H6).
Defined.

(** X6: in a full cache of two keys, the newer one is set again. *)
Lemma set_existing_key_at_capacity_drops_front_witness :
  let ia := mkItem (JVal 1%nat) 1000 0 in
  let ib := mkItem (JVal 2%nat) 1000 0 in
  let c := mkCache [ ("a"%string, ia); ("b"%string, ib) ] 300000 2 in
  In "b"%string (keys [ ("b"%string, ib) ])
  /\ keys (cache (set c "b" (JVal 7%nat) None 5)) = [ "b"%string ]
  /\ map_get "a" (cache (set c "b" (JVal 7%nat) None 5)) = None.
Proof.
  intros ia ib c.
  assert (H1 : cache c = ("a"%string, ia) :: [ ("b"%string, ib) ])
    by reflexivity.
  assert (H2 : NoDup (keys (cache c)))
    by (repeat constructor; cbn [In]; intuition discriminate).
  assert (H3 : List.length (cache c) = maxSize c) by reflexivity.
  assert (H4 : In "b"%string (keys [ ("b"%string, ib) ])) by (now left).
  destruct (@set_existing_key_at_capacity_drops_front nat c "a"%string ia
              [ ("b"%string, ib) ] "b"%string (JVal 7%nat) None 5
              H1 H2 H3 H4) as (K1 & K2 & _).
  split; [exact H4|]. split; [exact K1|exact K2].
Defined.

(** X7: calls on the key "a" seen from the key "b". *)
Lemma calls_leave_other_keys_alone_witness :
  let c := mkCache [ ("a"%string, mkItem (JVal 1%nat) 100 0);
                     ("b"%string, mkItem (JVal 2%nat) 500 0) ] 300000 3 in
  "a"%string <> "b"%string
  /\ map_get "b" (cache (snd (get c "a" 50))) = map_get "b" (cache c)
  /\ map_get "b" (cache (snd (delete c "a"))) = map_get "b" (cache c).
Proof.
  intros c.
  assert (H : "a"%string <> "b"%string) by discriminate.
  destruct (@calls_leave_other_keys_alone nat c "a"%string "b"%string 50 H)
    as (H1 & _ & H3 & _).
  split; [exact H|]. split; [exact H1|exact H3].
Defined.

End CacheInstances.

Section ValidationInstances.
Import Errors Validation.

(** X9: the address "12 Main Street" and its normalized form. *)
Lemma validated_address_revalidates_witness :
  BaseAPIService.validateAddress (str "12 Main Street")
  = inr (str "12 Main St")
  /\ BaseAPIService.validateAddress (str "12 Main St")
     = inr (str "12 Main St").
Proof.
  assert (H : BaseAPIService.validateAddress (str "12 Main Street")
              = inr (str "12 Main St")) by (vm_compute; reflexivity).
  split; [exact H|].
  exact (@validated_address_revalidates (str "12 Main Street")
           (str "12 Main St") H).
Defined.

(** X11: the nested protocol in front of "alert(1)". *)
Lemma sanitizeInput_leaves_nested_protocol_witness :
  Forall (fun c => is_space c = false /\ is_angle c = false)
         (str "alert(1)")
  /\ firstn 11 (sanitizeInput (str "javajavascript:script:" ++ str "alert(1)"))
     = str "javascript:".
Proof.
  assert (H : Forall (fun c => is_space c = false /\ is_angle c = false)
                     (str "alert(1)")).
  { repeat (apply Forall_cons; [split; reflexivity|]). apply Forall_nil. }
  split; [exact H|].
  exact (proj2 (@sanitizeInput_leaves_nested_protocol (str "alert(1)") H)).
Defined.

End ValidationInstances.

Section EvaluatorInstances.
Import Validation SBA NMTC.
Local Open Scope Q_scope.

(** X15: a retail business of 400 employees and 7,000,000 in receipts,
    and a smaller one. *)
Lemma checkSizeStandards_downward_closed_witness :
  100 <= 400 /\ 1000000 <= 7000000
  /\ checkSizeStandards 400 7000000 "retail" = true
  /\ checkSizeStandards 100 1000000 "retail" = true.
Proof.
  assert (H1 : 100 <= 400) by (apply Qle_bool_iff; reflexivity).
  assert (H2 : 1000000 <= 7000000) by (apply Qle_bool_iff; reflexivity).
  assert (H3 : checkSizeStandards 400 7000000 "retail" = true) by reflexivity.
  split; [exact H1|]. split; [exact H2|]. split; [exact H3|].
  exact (proj1 (@checkSizeStandards_downward_closed 400 7000000 100 1000000
                  "retail"%string H1 H2 H3)).
Defined.

(** X17: the tract identifier "ab", whose seed is 3105. *)
Lemma demographics_in_range_for_nonnegative_seed_witness :
  seed_hash (str "ab") = 3105%Z
  /\ (5 <= povertyRate (simulateCensusDemographics (str "ab"))
      /\ povertyRate (simulateCensusDemographics (str "ab")) < 40)
  /\ (1000 <= population (simulateCensusDemographics (str "ab")) < 10000)%Z.
Proof.
  assert (E : seed_hash (str "ab") = 3105%Z) by reflexivity.
  assert (H : (0 <= seed_hash (str "ab"))%Z) by (rewrite E; lia).
  destruct (@demographics_in_range_for_nonnegative_seed (str "ab") H)
    as (H1 & _ & H3 & _).
  split; [exact E|]. split; [exact H1|exact H3].
Defined.

(** X18: an address of letters, digits and spaces, a geocoder that
    finds every address and a tract lookup that never answers. *)
Lemma checkNMTCEligibility_outcomes_witness :
  let address := str "12 Main Street" in
  (forall n, BaseAPIService.validateAddress address = inr n ->
             BaseAPIService.well_formed n = true)
  /\ BaseAPIService.validateAddress address = inr (str "12 Main St")
  /\ checkNMTCEligibility (fun _ => Some tt) (fun _ => None) address
     = BaseAPIService.Rejected
         (Errors.PlainError "Unable to determine census tract").
Proof.
  intros address.
  assert (W : forall n, BaseAPIService.validateAddress address = inr n ->
                        BaseAPIService.well_formed n = true).
  { intros n E. vm_compute in E. injection E as <-. reflexivity. }
  split; [exact W|]. split; [reflexivity|].
  pose proof (@checkNMTCEligibility_outcomes unit (fun _ => Some tt)
                (fun _ => None) address W) as O.
  destruct (checkNMTCEligibility (fun _ => Some tt) (fun _ => None) address)
    as [r|e].
  - destruct O as (_ & _ & T & _). discriminate T.
  - destruct O as [V|[(n & _ & G & _)|(n & c & _ & _ & _ & ->)]].
    + vm_compute in V. discriminate V.
    + discriminate G.
    + reflexivity.
Defined.

(** X29: a project of 1,000,000 at the default rates. *)
Lemma sba504_payments_structure_witness :
  let p := calculateSBA504Payments 1000000 None None in
  (0 <= 1000000 /\ 1000000 <= 1000000000000)
  /\ chk_ownerEquity
       (checks (assessSBA504Eligibility
                  (equity_only (pay_ownerEquity p) 1000000))) = true
  /\ (bankPayment p + sbaPayment p - 1 <= totalMonthlyPayment p
      <= bankPayment p + sbaPayment p + 1)%Z.
Proof.
  intros p.
  assert (H1 : 0 <= 1000000) by discriminate.
  assert (H2 : 1000000 <= 1000000000000) by discriminate.
  assert (H3 : 1 # 1000 <= default (65 # 1000) None) by discriminate.
  assert (H4 : default (65 # 1000) None <= 1) by discriminate.
  assert (H5 : 1 # 1000 <= default (55 # 1000) None) by discriminate.
  assert (H6 : default (55 # 1000) None <= 1) by discriminate.
  destruct (@sba504_payments_structure 1000000 None None H1 H2 H3 H4 H5 H6)
    as (K1 & _ & _ & K4 & _).
  split; [split; [exact H1|exact H2]|]. split; [exact K1|exact K4].
Defined.

End EvaluatorInstances.

Section ReportInstances.
Import Errors Validation BaseAPIService Incentives.

(** X19: Historic Tax Credits fail, Opportunity Zones and C-PACE are
    available, the other two are not. *)
Lemma summary_accounts_for_every_program_witness :
  let ok := mkPayload (Some true) (Some true) (Some false) (Some true)
                      (Some false) in
  let svc :=
    mkServices
      (fun _ => Fulfilled ok)
      (fun _ => Rejected (PlainError "Unable to geocode address"))
      (fun _ => Fulfilled ok) (fun _ => Fulfilled ok)
      (fun _ _ => Fulfilled ok) in
  exists an,
    analyzeProperty svc (str "12 Main Street") (mkDetails None None) = inr an
    /\ totalProgramsAvailable (generateSummary (incentives an)) = 2%nat
    /\ estimatedTotalValue (generateSummary (incentives an)) = 200000%Z
    /\ List.length (failed_entries (incentives an)) = 1%nat.
Proof.
  intros ok svc. eexists. split; [reflexivity|].
  destruct (@summary_accounts_for_every_program svc (str "12 Main Street")
              (mkDetails None None) _ eq_refl) as (H1 & H2 & H3 & _).
  split; [exact H1|]. split; [exact H3|reflexivity].
Defined.

(** X20: Opportunity Zones, Historic Tax Credits and C-PACE available. *)
Lemma stacking_opportunities_name_available_programs_witness :
  let ok := mkPayload (Some true) (Some true) (Some false) (Some true)
                      (Some false) in
  let svc :=
    mkServices (fun _ => Fulfilled ok) (fun _ => Fulfilled ok)
               (fun _ => Fulfilled ok) (fun _ => Fulfilled ok)
               (fun _ _ => Fulfilled ok) in
  exists an,
    analyzeProperty svc (str "12 Main Street") (mkDetails None None) = inr an
    /\ Forall (fun o => (2 <= List.length (programs o))%nat)
              (identifyStackingOpportunities (incentives an))
    /\ identifyStackingOpportunities (incentives an) <> [].
Proof.
  intros ok svc. eexists. split; [reflexivity|].
  destruct (@stacking_opportunities_name_available_programs svc
              (str "12 Main Street") (mkDetails None None) _ eq_refl)
    as (H1 & H2).
  split.
  - eapply Forall_impl; [|exact H1]. intros o (L & _). exact L.
  - intros E. apply H2 in E. destruct E as [E|E].
    + cbn in E. lia.
    + discriminate E.
Defined.



(** X25: the SBA service behind a geocoder that finds every address, and
    project details without business information. *)
Lemma sba504_through_the_orchestrator_witness :
  let ok := mkPayload (Some true) (Some true) (Some false) (Some true)
                      (Some false) in
  let svc :=
    mkServices (fun _ => Fulfilled ok) (fun _ => Fulfilled ok)
               (fun _ => Fulfilled ok) (fun _ => Fulfilled ok)
               (fun a b =>
                  settled_map (@sba_view unit)
                    (SBA.checkSBA504Eligibility (fun _ => Some tt)
                       (fun _ => "Texas"%string) a b)) in
  exists an r,
    analyzeProperty svc (str "12 Main Street") (mkDetails None None) = inr an
    /\ entry "sba504" (incentives an) = Some r
    /\ available r = false
    /\ ~ In rec_sba504 (recommendations an).
Proof.
  intros ok svc.
  assert (H : forall a b,
             Incentives.checkSBA504Eligibility svc a b
             = settled_map (@sba_view unit)
                 (SBA.checkSBA504Eligibility (fun _ => Some tt)
                    (fun _ => "Texas"%string) a b)) by reflexivity.
  destruct (@sba504_through_the_orchestrator unit (fun _ => Some tt)
              (fun _ => "Texas"%string) svc (str "12 Main Street")
              (mkDetails None None) _ H eq_refl) as (r & H1 & _ & H3).
  eexists. exists r. split; [reflexivity|]. split; [exact H1|].
  exact (H3 eq_refl).
Defined.

(** X28: the C-PACE service behind a geocoder that finds every address in
    Texas, with a draw of one half. *)
Lemma cpace_through_the_orchestrator_witness :
  let ok := mkPayload (Some true) (Some true) (Some false) (Some true)
                      (Some false) in
  let svc :=
    mkServices (fun _ => Fulfilled ok) (fun _ => Fulfilled ok)
               (fun _ => Fulfilled ok)
               (fun a =>
                  settled_map (@cpace_view unit)
                    (CPACE.checkCPACEAvailability (fun _ => Some tt)
                       (fun _ => "Texas"%string)
                       (fun _ => "Travis County"%string) (1 # 2) a))
               (fun _ _ => Fulfilled ok) in
  exists an r,
    analyzeProperty svc (str "12 Main Street") (mkDetails None None) = inr an
    /\ entry "cpace" (incentives an) = Some r
    /\ available r = true.
Proof.
  intros ok svc.
  assert (H : forall a,
             Incentives.checkCPACEAvailability svc a
             = settled_map (@cpace_view unit)
                 (CPACE.checkCPACEAvailability (fun _ => Some tt)
                    (fun _ => "Texas"%string)
                    (fun _ => "Travis County"%string) (1 # 2) a))
    by reflexivity.
  destruct (@cpace_through_the_orchestrator unit (fun _ => Some tt)
              (fun _ => "Texas"%string) (fun _ => "Travis County"%string)
              (1 # 2) svc (str "12 Main Street") (mkDetails None None) _
              H eq_refl) as (r & H1 & H2).
  eexists. exists r. split; [reflexivity|]. split; [exact H1|].
  apply H2. exists (str "12 Main St"), tt.
  split; [vm_compute; reflexivity|]. split; [reflexivity|].
  left. cbn [In]. auto.
Defined.

End ReportInstances.

Section ServiceInstances.
Import Errors Validation Cache BaseAPIService.
Local Open Scope Z_scope.

(** X26: a body 5 fetched at clock reading 10 into an empty cache, and a
    second request at 100 while the network is down. *)
Lemma repeated_request_is_served_from_cache_witness :
  let truthy := fun n : nat => negb (n =? 0)%nat in
  let c := @new_CacheManager nat in
  let o := Request.mkOptions false None in
  let key := Request.getCacheKey "https://www.sba.gov/lenders" None in
  let c1 := snd (Request.makeRequest truthy c key o 0 10
                   (Request.Json (JVal 5%nat))) in
  Request.cacheTTL o <> Some 0
  /\ fst (Request.makeRequest truthy c1 key o 100 110
            (Request.Throws (PlainError "Failed to fetch")))
     = inr (JVal 5%nat).
Proof.
  intros truthy c o key c1.
  assert (H1 : Request.is_truthy truthy (fst (get c key 0))
               && negb (Request.skipCache o) = false) by reflexivity.
  assert (H2 : Request.cacheTTL o <> Some 0) by discriminate.
  assert (H3 : Request.skipCache o = false) by reflexivity.
  split; [exact H2|].
  exact (proj2 (@repeated_request_is_served_from_cache nat truthy c key
                  o o 0 10 100 110 (JVal 5%nat)
                  (Request.Throws (PlainError "Failed to fetch")) H1 H2 H3)).
Defined.

End ServiceInstances.

Section DrawInstances.
Import Errors Validation BaseAPIService.
Local Open Scope Q_scope.

(** X27: the module as it is, without a binding for [cache], and an
    address in the first sample tract. *)
Lemma opportunity_zone_is_membership_in_sample_tracts_witness :
  let tract := fun _ : unit =>
    Some (NMTC.mkCensus (str "206002") (str "037") (str "06")
            (Some (str "06037206002"))) in
  OpportunityZones.holds_tracts None
  /\ exists r,
       OpportunityZones.checkOpportunityZone (fun _ => Some tt) tract None
         0%Z 0%Z (str "12 Main Street")
       = Fulfilled r
       /\ OpportunityZones.r_isOpportunityZone r = true
       /\ OpportunityZones.has_benefits r = true.
Proof.
  intros tract.
  assert (H : OpportunityZones.holds_tracts None)
    by (intros c it X; discriminate X).
  split; [exact H|].
  eexists. split; [vm_compute; reflexivity|].
  destruct (@opportunity_zone_is_membership_in_sample_tracts unit
              (fun _ => Some tt) tract None 0%Z 0%Z (str "12 Main Street") H)
    as (_ & K).
  destruct (K _ eq_refl) as (K1 & K2 & _).
  assert (G : exists g,
             NMTC.geoid
               (NMTC.mkCensus (str "206002") (str "037") (str "06")
                  (Some (str "06037206002"))) = Some g
             /\ In g OpportunityZones.loadOZTracts).
  { exists (str "06037206002"). split; [reflexivity|]. left. reflexivity. }
  split; [exact (proj2 K1 G)|].
  exact (eq_trans K2 (proj2 K1 G)).
Defined.

(** X30: a district draw of 0.9, a count draw of one half and turns of
    one half each, for an address in New York. *)
Lemma historic_credits_follow_the_draws_witness :
  let turns := fun _ : nat => (1 # 2, 1 # 2, 1 # 2) in
  HistoricTaxCredits.unit_interval (1 # 2)
  /\ exists r,
       HistoricTaxCredits.checkHistoricTaxCredits (fun _ => Some tt)
         (fun _ => "New York"%string) (9 # 10) (1 # 2) turns
         (str "12 Main Street")
       = Fulfilled r
       /\ HistoricTaxCredits.totalCredits (HistoricTaxCredits.combined r)
          = 40%Z
       /\ (List.length
             (HistoricTaxCredits.nearbyProperties
                (HistoricTaxCredits.r_federalHTC r)) <= 2)%nat.
Proof.
  intros turns.
  assert (U : HistoricTaxCredits.unit_interval (1 # 2))
    by (split; [discriminate|reflexivity]).
  assert (T : forall i,
             HistoricTaxCredits.unit_interval (snd (fst (turns i)))
             /\ HistoricTaxCredits.unit_interval (snd (turns i)))
    by (intros i; split; exact U).
  split; [exact U|].
  eexists. split; [vm_compute; reflexivity|].
  destruct (@historic_credits_follow_the_draws unit (fun _ => Some tt)
              (fun _ => "New York"%string) (9 # 10) (1 # 2) turns
              (str "12 Main Street") _ U T eq_refl)
    as (_ & _ & K3 & _ & K5 & _).
  split; [exact K5|exact K3].
Defined.

End DrawInstances.
